(** * CantusDB: chant search, grouping and creation views

    A shallow embedding of [main_app/views/chant.py]: the two search views
    ([ChantSearchView], [ChantSearchMSView]), the by-Cantus-ID listing, the
    folio/feast grouping helper, the feast-suggestion aggregator and the
    duplicate check of [ChantCreateView.form_valid], together with the
    properties the specification states about them.

    The relational store is a record of tables (lists of rows in the order
    the datastore delivers them).  Python exceptions are values of [exn]
    carried by the [result] monad. *)

From Stdlib Require Import List String Ascii ZArith Lia Bool Arith.
From Stdlib Require Import Permutation Sorted.
Import ListNotations.

Local Open Scope string_scope.
Local Open Scope Z_scope.

(* ------------------------------------------------------------------ *)
(** ** Exceptions *)

Inductive exn : Type :=
| ValueError          (* int() or a field coercion on a malformed number *)
| AttributeError      (* attribute access on None *)
| DoesNotExist        (* Model.objects.get without a row *)
| FieldError          (* order_by on a name that is no column *)
| Http404
| PermissionDenied.

Inductive result (A : Type) : Type :=
| Ok (a : A)
| Raise (e : exn).

Arguments Ok {A} a.
Arguments Raise {A} e.

Definition bind {A B : Type} (m : result A) (k : A -> result B) : result B :=
  match m with
  | Ok a => k a
  | Raise e => Raise e
  end.

Notation "x <- m ;; k" := (bind m (fun x => k))
  (at level 61, m at next level, right associativity).

(* ------------------------------------------------------------------ *)
(** ** Strings

    Text is a byte string.  Case folding follows the datastore's [UPPER]
    on the ASCII letters. *)

Definition upper_ascii (c : ascii) : ascii :=
  let n := nat_of_ascii c in
  if ((97 <=? n) && (n <=? 122))%nat then ascii_of_nat (n - 32) else c.

Fixpoint upper (s : string) : string :=
  match s with
  | EmptyString => EmptyString
  | String c s' => String (upper_ascii c) (upper s')
  end.

(** [startswith s p]: [s.startswith(p)]. *)
Fixpoint startswith (s p : string) : bool :=
  match p, s with
  | EmptyString, _ => true
  | String _ _, EmptyString => false
  | String a p', String b s' => Ascii.eqb a b && startswith s' p'
  end.

(** [contains s p]: [p in s]. *)
Fixpoint contains (s p : string) : bool :=
  startswith s p ||
  match s with
  | EmptyString => false
  | String _ s' => contains s' p
  end.

(** [str.isdigit] on one character. *)
Definition isdigit (c : ascii) : bool :=
  let n := nat_of_ascii c in ((48 <=? n) && (n <=? 57))%nat.

(** Whitespace skipped by [int()] around the number. *)
Definition isspace (c : ascii) : bool :=
  let n := nat_of_ascii c in
  ((n =? 32) || ((9 <=? n) && (n <=? 13)) || ((28 <=? n) && (n <=? 31)))%nat.

Fixpoint lstrip (l : list ascii) : list ascii :=
  match l with
  | c :: l' => if isspace c then lstrip l' else l
  | [] => []
  end.

Definition strip (l : list ascii) : list ascii :=
  rev (lstrip (rev (lstrip l))).

(** Decimal digits with single underscores between digits. *)
Fixpoint int_digits (acc : Z) (after_digit : bool) (l : list ascii) : option Z :=
  match l with
  | [] => if after_digit then Some acc else None
  | c :: l' =>
      if isdigit c
      then int_digits (10 * acc + (Z.of_nat (nat_of_ascii c) - 48)) true l'
      else if Ascii.eqb c "_"
           then if after_digit then int_digits acc false l' else None
           else None
  end.

(** Python's [int(s)] on a string, base 10. *)
Definition int (s : string) : result Z :=
  let parsed :=
    match strip (list_ascii_of_string s) with
    | c :: l =>
        if Ascii.eqb c "-" then option_map Z.opp (int_digits 0 false l)
        else if Ascii.eqb c "+" then int_digits 0 false l
        else int_digits 0 false (c :: l)
    | [] => None
    end in
  match parsed with
  | Some n => Ok n
  | None => Raise ValueError
  end.

(** [sep.join(l)]. *)
Fixpoint join (sep : string) (l : list string) : string :=
  match l with
  | [] => ""
  | [x] => x
  | x :: l' => x ++ sep ++ join sep l'
  end.

(* ------------------------------------------------------------------ *)
(** ** Request parameters

    [request.GET] is a [QueryDict]: the key/value pairs of the query
    string in order; [get] returns the last value given for a key. *)

Definition QueryDict : Type := list (string * string).

Fixpoint QueryDict_get (GET : QueryDict) (key : string) : option string :=
  match GET with
  | [] => None
  | (k, v) :: GET' =>
      match QueryDict_get GET' key with
      | Some v' => Some v'
      | None => if String.eqb k key then Some v else None
      end
  end.

(** [not request.GET] *)
Definition QueryDict_empty (GET : QueryDict) : bool :=
  match GET with
  | [] => true
  | _ :: _ => false
  end.

(** The value bound by [if x := request.GET.get(key)]: a non-empty string. *)
Definition param (GET : QueryDict) (key : string) : option string :=
  match QueryDict_get GET key with
  | Some v => if String.eqb v "" then None else Some v
  | None => None
  end.

(* ------------------------------------------------------------------ *)
(** ** Data model *)

Module Feast.
Record t : Type := mk { id : Z; name : string }.
End Feast.

(** Modelled from the spec: the [Source] and [Institution] model
    declarations are not among the sources.  A source has an id, the
    published flag, the id of its segment (if any) and, through its holding
    institution, the institution's siglum (its identifying code). *)
Module Source.
Record t : Type := mk {
  id : Z;
  published : bool;
  segment : option Z;
  holding_institution__siglum : option string
}.
End Source.

(** Modelled from the spec: the [Chant] and [Sequence] model declarations
    are not among the sources.  Both kinds of record share the fields the
    views read; every field but the id is nullable.  Foreign keys hold the
    id of the row they point to. *)
Module Chant.
Record t : Type := mk {
  id : Z;
  source : option Z;
  folio : option string;
  c_sequence : option Z;
  incipit : option string;
  manuscript_full_text : option string;
  manuscript_full_text_std_spelling : option string;
  cantus_id : option string;
  mode : option string;
  position : option string;
  volpiano : option string;
  image_link : option string;
  indexing_notes : option string;
  feast : option Z;
  service : option Z;
  genre : option Z;
  next_chant : option Z;
  is_last_chant_in_feast : bool;
  created_by : option Z;
  last_updated_by : option Z
}.

Definition eq_dec : forall x y : t, {x = y} + {x <> y}.
Proof.
  decide equality;
    try (apply Bool.bool_dec);
    try (apply Z.eq_dec);
    try (decide equality; try apply Z.eq_dec; apply string_dec).
Defined.
End Chant.

Record DB : Type := mkDB {
  Chant_objects : list Chant.t;
  Sequence_objects : list Chant.t;
  Source_objects : list Source.t;
  Feast_objects : list Feast.t
}.

Definition Source_find (db : DB) (pk : Z) : option Source.t :=
  find (fun s => Source.id s =? pk) (Source_objects db).

Definition Feast_find (db : DB) (pk : Z) : option Feast.t :=
  find (fun f => Feast.id f =? pk) (Feast_objects db).

(** [chant.source], [chant.feast]: the related row, or None.  The foreign
    keys of the store point at existing rows; an id without a row reads as
    None here. *)
Definition Chant_source (db : DB) (c : Chant.t) : option Source.t :=
  match Chant.source c with
  | Some pk => Source_find db pk
  | None => None
  end.

Definition Chant_feast (db : DB) (c : Chant.t) : option Feast.t :=
  match Chant.feast c with
  | Some pk => Feast_find db pk
  | None => None
  end.

Definition option_Z_eqb (o : option Z) (n : Z) : bool :=
  match o with
  | Some m => m =? n
  | None => false
  end.

Definition option_string_eqb (o : option string) (s : string) : bool :=
  match o with
  | Some t => String.eqb t s
  | None => false
  end.

(** Field lookups of the query interface.  A NULL column matches no
    pattern and no value. *)
Definition lookup_icontains (field : option string) (v : string) : bool :=
  match field with
  | Some s => contains (upper s) (upper v)
  | None => false
  end.

Definition lookup_istartswith (field : option string) (v : string) : bool :=
  match field with
  | Some s => startswith (upper s) (upper v)
  | None => false
  end.

Definition lookup_isnull {A : Type} (field : option A) (v : bool) : bool :=
  match field with
  | Some _ => negb v
  | None => v
  end.

(** [source__published=True] *)
Definition source__published (db : DB) (c : Chant.t) : bool :=
  match Chant_source db c with
  | Some s => Source.published s
  | None => false
  end.

(** [feast__name] *)
Definition feast__name (db : DB) (c : Chant.t) : option string :=
  option_map Feast.name (Chant_feast db c).

(* ------------------------------------------------------------------ *)
(** ** Q objects

    The filter expressions the views build.  [resolve] is the step that
    turns an expression into a row predicate when a queryset is filtered;
    it is there that a value for an integer column is coerced. *)

Inductive Q : Type :=
| Q_all                                              (* Q() *)
| service__id (v : string)
| genre__id (n : Z)
| cantus_id__icontains (v : string)
| mode__exact (v : string)                           (* Q(mode=...) *)
| position__exact (v : string)                       (* Q(position=...) *)
| volpiano__isnull (v : bool)
| feast__name__icontains (v : string)
| manuscript_full_text__icontains (v : string)
| manuscript_full_text__istartswith (v : string)
| manuscript_full_text_std_spelling__icontains (v : string)
| manuscript_full_text_std_spelling__istartswith (v : string)
| incipit__icontains (v : string)
| incipit__istartswith (v : string)
| indexing_notes__icontains (v : string)
| indexing_notes__istartswith (v : string)
| Q_and (a b : Q)                                    (* a & b *)
| Q_or (a b : Q).                                    (* a | b *)

Fixpoint resolve (db : DB) (q : Q) : result (Chant.t -> bool) :=
  match q with
  | Q_all => Ok (fun _ => true)
  | service__id v =>
      n <- int v ;; Ok (fun c => option_Z_eqb (Chant.service c) n)
  | genre__id n => Ok (fun c => option_Z_eqb (Chant.genre c) n)
  | cantus_id__icontains v =>
      Ok (fun c => lookup_icontains (Chant.cantus_id c) v)
  | mode__exact v => Ok (fun c => option_string_eqb (Chant.mode c) v)
  | position__exact v => Ok (fun c => option_string_eqb (Chant.position c) v)
  | volpiano__isnull v => Ok (fun c => lookup_isnull (Chant.volpiano c) v)
  | feast__name__icontains v =>
      Ok (fun c => lookup_icontains (feast__name db c) v)
  | manuscript_full_text__icontains v =>
      Ok (fun c => lookup_icontains (Chant.manuscript_full_text c) v)
  | manuscript_full_text__istartswith v =>
      Ok (fun c => lookup_istartswith (Chant.manuscript_full_text c) v)
  | manuscript_full_text_std_spelling__icontains v =>
      Ok (fun c =>
            lookup_icontains (Chant.manuscript_full_text_std_spelling c) v)
  | manuscript_full_text_std_spelling__istartswith v =>
      Ok (fun c =>
            lookup_istartswith (Chant.manuscript_full_text_std_spelling c) v)
  | incipit__icontains v => Ok (fun c => lookup_icontains (Chant.incipit c) v)
  | incipit__istartswith v =>
      Ok (fun c => lookup_istartswith (Chant.incipit c) v)
  | indexing_notes__icontains v =>
      Ok (fun c => lookup_icontains (Chant.indexing_notes c) v)
  | indexing_notes__istartswith v =>
      Ok (fun c => lookup_istartswith (Chant.indexing_notes c) v)
  | Q_and a b =>
      pa <- resolve db a ;; pb <- resolve db b ;; Ok (fun c => pa c && pb c)
  | Q_or a b =>
      pa <- resolve db a ;; pb <- resolve db b ;; Ok (fun c => pa c || pb c)
  end.

(** [queryset.filter(q)] *)
Definition QuerySet_filter (db : DB) (q : Q) (rows : list Chant.t)
  : result (list Chant.t) :=
  p <- resolve db q ;; Ok (filter p rows).

(* ------------------------------------------------------------------ *)
(** ** Ordering

    [order_by] takes column names, a leading "-" asking for descending
    order.  Rows compare by the first term that tells them apart.  NULL
    sorts after every value in ascending order (and so first in descending
    order), as in PostgreSQL. *)

Inductive value : Type :=
| VNull
| VInt (z : Z)
| VStr (s : string).

Definition value_of_Z (o : option Z) : value :=
  match o with Some z => VInt z | None => VNull end.

Definition value_of_string (o : option string) : value :=
  match o with Some s => VStr s | None => VNull end.

Definition compare_value (a b : value) : comparison :=
  match a, b with
  | VNull, VNull => Eq
  | VNull, _ => Gt
  | _, VNull => Lt
  | VInt x, VInt y => Z.compare x y
  | VStr x, VStr y => String.compare x y
  | VInt _, VStr _ => Lt
  | VStr _, VInt _ => Gt
  end.

(** Modelled from the spec: the model declarations are not among the
    sources; "siglum" names the identifying code of the institution that
    holds the record's source, the same value the joined column
    "source__holding_institution__siglum" reads. *)
Definition institution_siglum (db : DB) (c : Chant.t) : value :=
  match Chant_source db c with
  | Some s => value_of_string (Source.holding_institution__siglum s)
  | None => VNull
  end.

Definition columns : list (string * (DB -> Chant.t -> value)) :=
  [ ("id", fun _ c => VInt (Chant.id c));
    ("folio", fun _ c => value_of_string (Chant.folio c));
    ("c_sequence", fun _ c => value_of_Z (Chant.c_sequence c));
    ("incipit", fun _ c => value_of_string (Chant.incipit c));
    ("service", fun _ c => value_of_Z (Chant.service c));
    ("genre", fun _ c => value_of_Z (Chant.genre c));
    ("feast", fun _ c => value_of_Z (Chant.feast c));
    ("cantus_id", fun _ c => value_of_string (Chant.cantus_id c));
    ("mode", fun _ c => value_of_string (Chant.mode c));
    ("manuscript_full_text",
      fun _ c => value_of_string (Chant.manuscript_full_text c));
    ("volpiano", fun _ c => value_of_string (Chant.volpiano c));
    ("image_link", fun _ c => value_of_string (Chant.image_link c));
    ("siglum", institution_siglum);
    ("source__holding_institution__siglum", institution_siglum) ].

Fixpoint assoc {A : Type} (k : string) (l : list (string * A)) : option A :=
  match l with
  | [] => None
  | (k', a) :: l' => if String.eqb k k' then Some a else assoc k l'
  end.

(** One term of an ordering: descending or not, and the column. *)
Definition order_key : Type := (bool * (Chant.t -> value))%type.

Definition order_term (db : DB) (term : string) : option order_key :=
  let '(desc, name) :=
    match term with
    | String "-" name => (true, name)
    | _ => (false, term)
    end in
  option_map (fun col => (desc, col db)) (assoc name columns).

Fixpoint order_terms (db : DB) (terms : list string) : option (list order_key) :=
  match terms with
  | [] => Some []
  | t :: ts =>
      match order_term db t, order_terms db ts with
      | Some k, Some ks => Some (k :: ks)
      | _, _ => None
      end
  end.

Definition compare_key (k : order_key) (a b : Chant.t) : comparison :=
  let '(desc, col) := k in
  if desc then compare_value (col b) (col a) else compare_value (col a) (col b).

Fixpoint compare_keys (ks : list order_key) (a b : Chant.t) : comparison :=
  match ks with
  | [] => Eq
  | k :: ks' =>
      match compare_key k a b with
      | Eq => compare_keys ks' a b
      | c => c
      end
  end.

Definition leb_keys (ks : list order_key) (a b : Chant.t) : bool :=
  match compare_keys ks a b with
  | Gt => false
  | _ => true
  end.

Section Sort.
Context {A : Type} (leb : A -> A -> bool).

Fixpoint insert (x : A) (l : list A) : list A :=
  match l with
  | [] => [x]
  | y :: l' => if leb x y then x :: l else y :: insert x l'
  end.

(** A stable sort: rows that compare equal keep their relative order. *)
Fixpoint sort (l : list A) : list A :=
  match l with
  | [] => []
  | x :: l' => insert x (sort l')
  end.
End Sort.

(** [queryset.order_by( *terms )]; an unknown column is a FieldError, which
    no view below can trigger: they only pass names of [columns]. *)
Definition order_by (db : DB) (terms : list string) (rows : list Chant.t)
  : result (list Chant.t) :=
  match order_terms db terms with
  | Some ks => Ok (sort (leb_keys ks) rows)
  | None => Raise FieldError
  end.

(* ------------------------------------------------------------------ *)
(** ** ChantByCantusIDView *)

(** [a.union(b)]: the rows of both sides, equal rows kept once. *)
Definition union (a b : list Chant.t) : list Chant.t :=
  nodup Chant.eq_dec (a ++ b).

(** [a.union(b, all=True)]: the rows of [a], then those of [b]. *)
Definition union_all (a b : list Chant.t) : list Chant.t := a ++ b.

Definition ChantByCantusIDView_get_queryset
  (is_authenticated : bool) (cantus_id : string) (db : DB)
  : result (list Chant.t) :=
  let chant_set :=
    filter (fun c => option_string_eqb (Chant.cantus_id c) cantus_id)
           (Chant_objects db) in
  let sequence_set :=
    filter (fun c => option_string_eqb (Chant.cantus_id c) cantus_id)
           (Sequence_objects db) in
  let display_unpublished := is_authenticated in
  let chant_set :=
    if negb display_unpublished
    then filter (source__published db) chant_set else chant_set in
  let sequence_set :=
    if negb display_unpublished
    then filter (source__published db) sequence_set else sequence_set in
  let queryset := union chant_set sequence_set in
  order_by db ["source__holding_institution__siglum"] queryset.

(* ------------------------------------------------------------------ *)
(** ** ChantSearchView *)

(** The keyword filter of both search views: the three text fields joined
    by "or", substring match for op = "contains", prefix match otherwise. *)
Definition keyword_filter (operation : option string) (keyword : string) : Q :=
  let contains_op :=
    match operation with
    | Some op => String.eqb op "contains"
    | None => false
    end in
  let ms_spelling_filter :=
    if contains_op then manuscript_full_text__icontains keyword
    else manuscript_full_text__istartswith keyword in
  let std_spelling_filter :=
    if contains_op then manuscript_full_text_std_spelling__icontains keyword
    else manuscript_full_text_std_spelling__istartswith keyword in
  let incipit_filter :=
    if contains_op then incipit__icontains keyword
    else incipit__istartswith keyword in
  Q_or (Q_or ms_spelling_filter std_spelling_filter) incipit_filter.

(** [q_obj_filter &= q] when the parameter is given. *)
Definition Q_and_if (q : Q) (p : option string) (f : string -> Q) : Q :=
  match p with
  | Some v => Q_and q (f v)
  | None => q
  end.

Definition order_param_options : list string :=
  [ "incipit"; "service"; "genre"; "cantus_id"; "mode";
    "has_fulltext"; "has_melody"; "has_image" ].

Definition ChantSearchView_order (GET : QueryDict) : string :=
  let order_get_param := QueryDict_get GET "order" in
  let sort_get_param := QueryDict_get GET "sort" in
  let order :=
    match order_get_param with
    | Some o =>
        if existsb (String.eqb o) order_param_options then
          if String.eqb o "has_fulltext" then "manuscript_full_text"
          else if String.eqb o "has_melody" then "volpiano"
          else if String.eqb o "has_image" then "image_link"
          else o
        else "source__holding_institution__siglum"
    | None => "source__holding_institution__siglum"
    end in
  match sort_get_param with
  | Some sort => if String.eqb sort "desc" then "-" ++ order else order
  | None => order
  end.

(** The filter built from the search form, parameter by parameter
    (the "else" branch of [get_queryset], before the visibility filter). *)
Definition ChantSearchView_q_obj_filter (GET : QueryDict) : result Q :=
  let q_obj_filter := Q_all in
  let q_obj_filter :=
    Q_and_if q_obj_filter (param GET "service") service__id in
  q_obj_filter <-
    match param GET "genre" with
    | Some genre_id =>
        n <- int genre_id ;; Ok (Q_and q_obj_filter (genre__id n))
    | None => Ok q_obj_filter
    end ;;
  let q_obj_filter :=
    Q_and_if q_obj_filter (param GET "cantus_id") cantus_id__icontains in
  let q_obj_filter :=
    Q_and_if q_obj_filter (param GET "mode") mode__exact in
  let q_obj_filter :=
    Q_and_if q_obj_filter (param GET "position") position__exact in
  let q_obj_filter :=
    match param GET "melodies" with
    | Some melodies =>
        if String.eqb melodies "true"
        then Q_and q_obj_filter (volpiano__isnull false)
        else q_obj_filter
    | None => q_obj_filter
    end in
  let q_obj_filter :=
    Q_and_if q_obj_filter (param GET "feast") feast__name__icontains in
  Ok q_obj_filter.

Definition ChantSearchView_get_queryset
  (is_authenticated : bool) (GET : QueryDict) (db : DB)
  : result (list Chant.t) :=
  if QueryDict_empty GET then Ok [] else
  let q_obj_filter := Q_all in
  let display_unpublished := is_authenticated in
  queryset <-
    match param GET "search_bar" with
    | Some search_bar =>
        let chant_set :=
          if display_unpublished then Chant_objects db
          else filter (source__published db) (Chant_objects db) in
        let sequence_set :=
          if display_unpublished then Sequence_objects db
          else filter (source__published db) (Sequence_objects db) in
        if existsb isdigit (list_ascii_of_string search_bar) then
          let q_obj_filter :=
            Q_and q_obj_filter (cantus_id__icontains search_bar) in
          chant_set <- QuerySet_filter db q_obj_filter chant_set ;;
          sequence_set <- QuerySet_filter db q_obj_filter sequence_set ;;
          Ok (union_all chant_set sequence_set)
        else
          let search_term_filter :=
            Q_or (Q_or (manuscript_full_text__istartswith search_bar)
                       (manuscript_full_text_std_spelling__istartswith
                          search_bar))
                 (incipit__istartswith search_bar) in
          chant_set <- QuerySet_filter db search_term_filter chant_set ;;
          sequence_set <- QuerySet_filter db search_term_filter sequence_set ;;
          Ok (union_all chant_set sequence_set)
    | None =>
        q_obj_filter <- ChantSearchView_q_obj_filter GET ;;
        let chant_set :=
          if negb display_unpublished
          then filter (source__published db) (Chant_objects db)
          else Chant_objects db in
        let sequence_set :=
          if negb display_unpublished
          then filter (source__published db) (Sequence_objects db)
          else Sequence_objects db in
        chant_set <- QuerySet_filter db q_obj_filter chant_set ;;
        sequence_set <- QuerySet_filter db q_obj_filter sequence_set ;;
        sets <-
          match param GET "keyword" with
          | Some keyword =>
              let operation := QueryDict_get GET "op" in
              let keyword_filter := keyword_filter operation keyword in
              chant_set <- QuerySet_filter db keyword_filter chant_set ;;
              sequence_set <- QuerySet_filter db keyword_filter sequence_set ;;
              Ok (chant_set, sequence_set)
          | None => Ok (chant_set, sequence_set)
          end ;;
        let '(chant_set, sequence_set) := sets in
        Ok (union_all chant_set sequence_set)
    end ;;
  order_by db [ChantSearchView_order GET; "id"] queryset.

(* ------------------------------------------------------------------ *)
(** ** ChantSearchMSView *)

Definition ChantSearchMSView_order (GET : QueryDict) : string :=
  let order_value :=
    match QueryDict_get GET "order" with
    | Some o => o
    | None => "siglum"
    end in
  let order :=
    if existsb (String.eqb order_value)
         [ "siglum"; "incipit"; "genre"; "cantus_id"; "mode"; "feast";
           "service" ]
    then order_value
    else if String.eqb order_value "has_fulltext" then "manuscript_full_text"
    else if String.eqb order_value "has_melody" then "volpiano"
    else if String.eqb order_value "has_image" then "image_link"
    else "siglum" in
  match param GET "sort" with
  | Some sort => if String.eqb sort "desc" then "-" ++ order else order
  | None => order
  end.

(** The filter built from the search form of the per-source view. *)
Definition ChantSearchMSView_q_obj_filter (GET : QueryDict) : result Q :=
  let q_obj_filter := Q_all in
  let q_obj_filter :=
    Q_and_if q_obj_filter (param GET "service") service__id in
  q_obj_filter <-
    match param GET "genre" with
    | Some genre_id =>
        n <- int genre_id ;; Ok (Q_and q_obj_filter (genre__id n))
    | None => Ok q_obj_filter
    end ;;
  let q_obj_filter :=
    Q_and_if q_obj_filter (param GET "cantus_id") cantus_id__icontains in
  let q_obj_filter :=
    Q_and_if q_obj_filter (param GET "mode") mode__exact in
  let q_obj_filter :=
    match param GET "melodies" with
    | Some melodies =>
        let q_obj_filter :=
          if String.eqb melodies "true"
          then Q_and q_obj_filter (volpiano__isnull false)
          else q_obj_filter in
        if String.eqb melodies "false"
        then Q_and q_obj_filter (volpiano__isnull true)
        else q_obj_filter
    | None => q_obj_filter
    end in
  let q_obj_filter :=
    Q_and_if q_obj_filter (param GET "feast") feast__name__icontains in
  Ok q_obj_filter.

Definition ChantSearchMSView_get_queryset
  (source_pk : Z) (GET : QueryDict) (db : DB) : result (list Chant.t) :=
  if QueryDict_empty GET then Ok [] else
  if match QueryDict_get GET "melodies" with
     | Some m => String.eqb m "true"
     | None => false
     end && (source_pk =? 680970)
  then Ok [] else
  q_obj_filter <- ChantSearchMSView_q_obj_filter GET ;;
  let order := ChantSearchMSView_order GET in
  let source_id := source_pk in
  source <-
    match Source_find db source_id with
    | Some s => Ok s
    | None => Raise DoesNotExist
    end ;;
  segment_id <-
    match Source.segment source with
    | Some pk => Ok pk
    | None => Raise AttributeError
    end ;;
  let queryset :=
    filter (fun c => option_Z_eqb (Chant.source c) (Source.id source))
           (if segment_id =? 4064
            then Sequence_objects db else Chant_objects db) in
  queryset <- QuerySet_filter db q_obj_filter queryset ;;
  queryset <-
    match param GET "keyword" with
    | Some keyword =>
        let operation := QueryDict_get GET "op" in
        QuerySet_filter db (keyword_filter operation keyword) queryset
    | None => Ok queryset
    end ;;
  queryset <-
    match param GET "indexing_notes" with
    | Some notes =>
        let operation := QueryDict_get GET "indexing_notes_op" in
        let indexing_notes_filter :=
          if match operation with
             | Some op => String.eqb op "contains"
             | None => false
             end
          then indexing_notes__icontains notes
          else indexing_notes__istartswith notes in
        QuerySet_filter db indexing_notes_filter queryset
    | None => Ok queryset
    end ;;
  order_by db [order; "id"] queryset.

(* ------------------------------------------------------------------ *)
(** ** Pagination (the list views' [paginate_by = 100])

    The framework's paginator: pages are numbered from 1, page [n] is the
    slice [(n-1)*per_page : n*per_page] of the ordered queryset, the first
    page may be empty, and any other number out of range is a 404. *)

Definition paginate_by : nat := 100.

Definition num_pages (per_page count : nat) : nat :=
  let hits := Nat.max 1 count in
  (hits + per_page - 1) / per_page.

Definition Paginator_page {A : Type} (per_page : nat) (rows : list A)
  (number : Z) : result (list A) :=
  if number <? 1 then Raise Http404
  else if (Z.of_nat (num_pages per_page (List.length rows)) <? number)
  then Raise Http404
  else
    let bottom := ((Z.to_nat number - 1) * per_page)%nat in
    Ok (firstn per_page (skipn bottom rows)).

(** [paginate_queryset]: the page named by the "page" parameter, 1 when
    it is missing or empty, the last page for "last". *)
Definition paginate_queryset {A : Type} (GET : QueryDict) (rows : list A)
  : result (list A) :=
  match param GET "page" with
  | None => Paginator_page paginate_by rows 1
  | Some page =>
      match int page with
      | Ok page_number => Paginator_page paginate_by rows page_number
      | Raise _ =>
          if String.eqb page "last"
          then Paginator_page paginate_by rows
                 (Z.of_nat (num_pages paginate_by (List.length rows)))
          else Raise Http404
      end
  end.

(** The part of a list view's response that carries records: [get] runs
    [get_queryset], then [get_context_data], which cuts the page out of the
    queryset before the view's own additions. *)
Definition ChantSearchView_get
  (is_authenticated : bool) (GET : QueryDict) (db : DB)
  : result (list Chant.t) :=
  object_list <- ChantSearchView_get_queryset is_authenticated GET db ;;
  paginate_queryset GET object_list.

Definition ChantByCantusIDView_get
  (is_authenticated : bool) (cantus_id : string) (GET : QueryDict) (db : DB)
  : result (list Chant.t) :=
  object_list <- ChantByCantusIDView_get_queryset is_authenticated cantus_id db ;;
  paginate_queryset GET object_list.

(** [ChantSearchMSView.get_context_data]: the page of records and the
    context entries computed here (the genre and service pick-lists are
    left out). *)
Module Context.
Record t : Type := mk {
  chants : list Chant.t;
  source : Source.t;
  order : option string;
  sort : option string;
  url_with_search_params : string
}.
End Context.

Definition ChantSearchMSView_get_context_data
  (is_authenticated : bool) (source_pk : Z) (path : string) (GET : QueryDict)
  (db : DB) (object_list : list Chant.t) : result Context.t :=
  page <- paginate_queryset GET object_list ;;
  let source_id := source_pk in
  source <-
    match Source_find db source_id with
    | Some s => Ok s
    | None => Raise Http404
    end ;;
  let display_unpublished := is_authenticated in
  if negb (Source.published source) && negb display_unpublished
  then Raise PermissionDenied
  else
    let current_url := path in
    let search_parameters :=
      flat_map
        (fun key =>
           match param GET key with
           | Some v => [key ++ "=" ++ v]
           | None => []
           end)
        [ "op"; "keyword"; "service"; "genre"; "cantus_id"; "mode"; "feast";
          "position"; "melodies"; "indexing_notes_op"; "indexing_notes" ] in
    let url_with_search_params :=
      match search_parameters with
      | _ :: _ => current_url ++ "?" ++ join "&" search_parameters
      | [] => current_url ++ "?"
      end in
    Ok {| Context.chants := page;
          Context.source := source;
          Context.order := QueryDict_get GET "order";
          Context.sort := QueryDict_get GET "sort";
          Context.url_with_search_params := url_with_search_params |}.

Definition ChantSearchMSView_get
  (is_authenticated : bool) (source_pk : Z) (path : string) (GET : QueryDict)
  (db : DB) : result Context.t :=
  object_list <- ChantSearchMSView_get_queryset source_pk GET db ;;
  ChantSearchMSView_get_context_data
    is_authenticated source_pk path GET db object_list.

(* ------------------------------------------------------------------ *)
(** ** Grouping the chants of a folio by feast *)

Definition option_Z_eq (a b : option Z) : bool :=
  match a, b with
  | Some x, Some y => x =? y
  | None, None => true
  | _, _ => false
  end.

(** A [defaultdict(list)] keyed by feast id or None, keys in the order of
    their first use. *)
Definition defaultdict : Type := list (option Z * list Chant.t).

(** [d[key].append(c)] *)
Fixpoint defaultdict_append (d : defaultdict) (key : option Z) (c : Chant.t)
  : defaultdict :=
  match d with
  | [] => [(key, [c])]
  | (k, l) :: d' =>
      if option_Z_eq k key then (k, (l ++ [c])%list) :: d'
      else (k, l) :: defaultdict_append d' key c
  end.

(** [d[key]] *)
Fixpoint defaultdict_get (d : defaultdict) (key : option Z) : list Chant.t :=
  match d with
  | [] => []
  | (k, l) :: d' => if option_Z_eq k key then l else defaultdict_get d' key
  end.

Definition get_chants_with_feasts (db : DB) (chants_in_folio : list Chant.t)
  : list (option Feast.t * list Chant.t) :=
  let feasts_chants :=
    fold_left
      (fun d chant =>
         match Chant_feast db chant with
         | Some feast => defaultdict_append d (Some (Feast.id feast)) chant
         | None => defaultdict_append d None chant
         end)
      chants_in_folio [] in
  let feast_objects :=
    filter
      (fun f => existsb (option_Z_eq (Some (Feast.id f))) (map fst feasts_chants))
      (Feast_objects db) in
  let out :=
    map (fun feast_obj =>
           (Some feast_obj, defaultdict_get feasts_chants (Some (Feast.id feast_obj))))
        feast_objects in
  (out ++ [(None, defaultdict_get feasts_chants None)])%list.

(** The call sites in the detail and edit views: the chants of the source
    on one folio, by sequence number, grouped by feast. *)
Definition feasts_of_folio (db : DB) (chants_in_source : list Chant.t)
  (folio : string) : result (list (option Feast.t * list Chant.t)) :=
  chants_folio <-
    order_by db ["c_sequence"]
      (filter (fun c => option_string_eqb (Chant.folio c) folio)
              chants_in_source) ;;
  Ok (get_chants_with_feasts db chants_folio).

(* ------------------------------------------------------------------ *)
(** ** Suggested feasts *)

Definition Chant_find (db : DB) (pk : Z) : option Chant.t :=
  find (fun c => Chant.id c =? pk) (Chant_objects db).

(** [chant.next_chant] *)
Definition Chant_next_chant (db : DB) (c : Chant.t) : option Chant.t :=
  match Chant.next_chant c with
  | Some pk => Chant_find db pk
  | None => None
  end.

(** Model instances are equal when their primary keys are. *)
Definition Feast_eqb (a b : Feast.t) : bool := Feast.id a =? Feast.id b.

(** [Counter]: a dict from feast to count, keys in first-seen order. *)
Fixpoint Counter_incr (d : list (Feast.t * Z)) (f : Feast.t)
  : list (Feast.t * Z) :=
  match d with
  | [] => [(f, 1)]
  | (k, n) :: d' =>
      if Feast_eqb k f then (k, n + 1) :: d' else (k, n) :: Counter_incr d' f
  end.

Definition Counter (l : list Feast.t) : list (Feast.t * Z) :=
  fold_left Counter_incr l [].

(** [dict(items)]: a later pair with a key already present replaces the
    value in place. *)
Fixpoint dict_set (d : list (Feast.t * Z)) (f : Feast.t) (n : Z)
  : list (Feast.t * Z) :=
  match d with
  | [] => [(f, n)]
  | (k, m) :: d' =>
      if Feast_eqb k f then (k, n) :: d' else (k, m) :: dict_set d' f n
  end.

Definition dict (items : list (Feast.t * Z)) : list (Feast.t * Z) :=
  fold_left (fun d item => dict_set d (fst item) (snd item)) items [].

Definition get_suggested_feasts (db : DB) (latest_chant : Chant.t)
  : list (Feast.t * Z) :=
  let current_feast := Chant_feast db latest_chant in
  let chants_that_end_current_feast :=
    filter
      (fun c =>
         Chant.is_last_chant_in_feast c &&
         option_Z_eq (Chant.feast c) (option_map Feast.id current_feast))
      (Chant_objects db) in
  let next_chants := map (Chant_next_chant db) chants_that_end_current_feast in
  let next_feasts :=
    flat_map
      (fun chant =>
         match chant with
         | Some chant =>
             match Chant_feast db chant with
             | Some feast => [feast]
             | None => []
             end
         | None => []
         end)
      next_chants in
  let feast_counts := Counter next_feasts in
  let sorted_feast_counts :=
    dict (sort (fun a b => snd b <=? snd a) feast_counts) in
  sorted_feast_counts.

(* ------------------------------------------------------------------ *)
(** ** ChantCreateView.form_valid *)

(** [s.split(sep)] for a one-character separator. *)
Fixpoint split (sep : ascii) (s : string) : list string :=
  match s with
  | EmptyString => [EmptyString]
  | String c s' =>
      if Ascii.eqb c sep then EmptyString :: split sep s'
      else
        match split sep s' with
        | w :: ws => String c w :: ws
        | [] => [String c EmptyString]
        end
  end.

Fixpoint lstrip_char (ch : ascii) (s : string) : string :=
  match s with
  | String c s' => if Ascii.eqb c ch then lstrip_char ch s' else s
  | EmptyString => EmptyString
  end.

Definition string_rev (s : string) : string :=
  string_of_list_ascii (rev (list_ascii_of_string s)).

(** [s.strip(ch)] *)
Definition strip_char (ch : ascii) (s : string) : string :=
  string_rev (lstrip_char ch (string_rev (lstrip_char ch s))).

(** The loop that keeps whole words while the incipit stays under 30
    characters. *)
Fixpoint incipit_words (incipit : string) (words : list string) : string :=
  match words with
  | [] => incipit
  | word :: words' =>
      let new_incipit := incipit ++ word ++ " " in
      if (30 <=? String.length new_incipit)%nat then incipit
      else incipit_words new_incipit words'
  end.

Definition set_source (c : Chant.t) (v : option Z) : Chant.t :=
  let '(Chant.mk i _ fo cs inc mft std cid mo po vo im no fe se ge nx la cb ub) := c in
  Chant.mk i v fo cs inc mft std cid mo po vo im no fe se ge nx la cb ub.

Definition set_incipit (c : Chant.t) (v : option string) : Chant.t :=
  let '(Chant.mk i so fo cs _ mft std cid mo po vo im no fe se ge nx la cb ub) := c in
  Chant.mk i so fo cs v mft std cid mo po vo im no fe se ge nx la cb ub.

Definition set_users (c : Chant.t) (user : Z) : Chant.t :=
  let '(Chant.mk i so fo cs inc mft std cid mo po vo im no fe se ge nx la _ _) := c in
  Chant.mk i so fo cs inc mft std cid mo po vo im no fe se ge nx la
           (Some user) (Some user).

Definition set_id (c : Chant.t) (v : Z) : Chant.t :=
  let '(Chant.mk _ so fo cs inc mft std cid mo po vo im no fe se ge nx la cb ub) := c in
  Chant.mk v so fo cs inc mft std cid mo po vo im no fe se ge nx la cb ub.

(** A bound form: the instance under construction and the errors
    collected so far, each under a field name or None (non-field). *)
Module Form.
Record t : Type := mk {
  instance : Chant.t;
  errors : list (option string * string)
}.
End Form.

Definition add_error (form : Form.t) (field : option string) (error : string)
  : Form.t :=
  Form.mk (Form.instance form) (Form.errors form ++ [(field, error)])%list.

Definition is_valid (form : Form.t) : bool :=
  match Form.errors form with
  | [] => true
  | _ :: _ => false
  end.

Inductive response : Type :=
| Redirect (source_id : Z) (message : string)   (* saved; back to chant-create *)
| RenderForm (form : Form.t).                   (* form_invalid *)

Definition option_string_eq (a b : option string) : bool :=
  match a, b with
  | Some x, Some y => String.eqb x y
  | None, None => true
  | _, _ => false
  end.

(** The id the store gives a new row. *)
Definition next_id (rows : list Chant.t) : Z :=
  1 + fold_right (fun c m => Z.max (Chant.id c) m) 0 rows.

(** [form.save()]: the instance is inserted as a new row, under the id the
    store gives it ([next_id]: here one above the ids in use; the views
    do not depend on the choice).  Django then runs the handlers registered for a
    saved chant ([on_chant_save], in signals.py, which keeps the search
    vectors of the chant and the chant and melody counters of its source
    up to date): that file is not among the sources and the store has
    none of the columns it writes, so the handlers are left out and
    nothing is stated about them. *)
Definition save (db : DB) (instance : Chant.t) : DB :=
  mkDB (Chant_objects db ++ [set_id instance (next_id (Chant_objects db))])%list
       (Sequence_objects db) (Source_objects db) (Feast_objects db).

Definition duplicate_error : string :=
  "Chant with the same sequence and folio already exists in this source.".

Definition ChantCreateView_form_valid
  (self_source : Source.t) (user : Z) (form : Form.t) (db : DB)
  : result (response * DB) :=
  let instance :=
    set_source (Form.instance form) (Some (Source.id self_source)) in
  text <-
    match Chant.manuscript_full_text_std_spelling instance with
    | Some t => Ok t
    | None => Raise AttributeError
    end ;;
  let words := split " " text in
  let incipit := incipit_words "" words in
  let instance := set_incipit instance (Some (strip_char " " incipit)) in
  let form := Form.mk instance (Form.errors form) in
  let form :=
    if existsb
         (fun c =>
            option_Z_eq (Chant.source c) (Some (Source.id self_source)) &&
            option_string_eq (Chant.folio c) (Chant.folio instance) &&
            option_Z_eq (Chant.c_sequence c) (Chant.c_sequence instance))
         (Chant_objects db)
    then add_error form None duplicate_error
    else form in
  if is_valid form then
    let instance := set_users (Form.instance form) user in
    let message :=
      "Chant '" ++ strip_char " " incipit ++ "' created successfully!" in
    Ok (Redirect (Source.id self_source) message, save db instance)
  else Ok (RenderForm form, db).


(* ------------------------------------------------------------------ *)
(** ** get_feast_selector_options *)

(** [source.chant_set]: the chants of the source. *)
Definition chant_set (db : DB) (source : Source.t) : list Chant.t :=
  filter (fun c => option_Z_eqb (Chant.source c) (Source.id source))
         (Chant_objects db).

Section Fromkeys.
Context {A : Type} (eqb : A -> A -> bool).

Fixpoint fromkeys_add (d : list A) (x : A) : list A :=
  match d with
  | [] => [x]
  | y :: d' => if eqb y x then d else y :: fromkeys_add d' x
  end.

(** [list(dict.fromkeys(items))]: the items, each kept at its first
    place. *)
Definition dict_fromkeys (items : list A) : list A :=
  fold_left fromkeys_add items [].
End Fromkeys.

(** A row of [values_list("folio", "feast_id", "feast__name")]. *)
Definition folio_feast : Type := (option string * Z * option string)%type.

Definition folio_feast_eqb (a b : folio_feast) : bool :=
  let '(folio1, id1, name1) := a in
  let '(folio2, id2, name2) := b in
  option_string_eq folio1 folio2 && (id1 =? id2) &&
  option_string_eq name1 name2.

Definition get_feast_selector_options (db : DB) (source : Source.t)
  : result (list folio_feast) :=
  rows <-
    order_by db ["folio"; "c_sequence"]
      (filter (fun c => negb (lookup_isnull (Chant.feast c) true))
              (chant_set db source)) ;;
  let folios_feasts_iter :=
    flat_map
      (fun c =>
         match Chant.feast c with
         | Some feast_id => [(Chant.folio c, feast_id, feast__name db c)]
         | None => []
         end)
      rows in
  Ok (dict_fromkeys folio_feast_eqb folios_feasts_iter).

(* ------------------------------------------------------------------ *)
(** ** get_chants_with_folios *)

(** What a call may end in: a value, an exception of [exn], the TypeError
    of comparing None, or the IndexError of an index out of range. *)
Inductive outcome (A : Type) : Type :=
| Returned (a : A)
| TypeError
| Raised (e : exn)
| IndexError.

Arguments Returned {A} a.
Arguments TypeError {A}.
Arguments Raised {A} e.
Arguments IndexError {A}.

Definition lift {A : Type} (r : result A) : outcome A :=
  match r with
  | Ok a => Returned a
  | Raise e => Raised e
  end.

Definition obind {A B : Type} (m : outcome A) (k : A -> outcome B)
  : outcome B :=
  match m with
  | Returned a => k a
  | TypeError => TypeError
  | Raised e => Raised e
  | IndexError => IndexError
  end.

(** A [defaultdict(list)] keyed by folio, keys in the order of first use. *)
Definition folios_dict : Type := list (string * list Chant.t).

Fixpoint folios_append (d : folios_dict) (key : string) (c : Chant.t)
  : folios_dict :=
  match d with
  | [] => [(key, [c])]
  | (k, l) :: d' =>
      if String.eqb k key then (k, (l ++ [c])%list) :: d'
      else (k, l) :: folios_append d' key c
  end.

Definition c_sequence_leb (a b : Chant.t) : bool :=
  match Chant.c_sequence a, Chant.c_sequence b with
  | Some x, Some y => x <=? y
  | _, _ => true
  end.

(** [sorted(chants, key=lambda x: x.c_sequence)]: a stable sort; with two
    chants or more every key is compared, and comparing None is a
    TypeError (None here). *)
Definition sorted_by_c_sequence (chants : list Chant.t)
  : option (list Chant.t) :=
  match chants with
  | [] | [_] => Some chants
  | _ =>
      if existsb (fun c => lookup_isnull (Chant.c_sequence c) true) chants
      then None
      else Some (sort c_sequence_leb chants)
  end.

(** The second loop: every list of the dictionary replaced by its sorted
    copy. *)
Fixpoint sort_folios (d : folios_dict) : option folios_dict :=
  match d with
  | [] => Some []
  | (folio, chants) :: d' =>
      match sorted_by_c_sequence chants with
      | Some sorted_chants =>
          option_map (cons (folio, sorted_chants)) (sort_folios d')
      | None => None
      end
  end.

Definition get_chants_with_folios (db : DB) (chants_in_feast : list Chant.t)
  : outcome (list (string * list Chant.t)) :=
  match order_by db ["folio"] chants_in_feast with
  | Raise e => Raised e
  | Ok rows =>
      let folios_chants :=
        fold_left
          (fun d chant =>
             match Chant.folio chant with
             | Some folio =>
                 if String.eqb folio "" then d else folios_append d folio chant
             | None => d
             end)
          rows [] in
      match sort_folios folios_chants with
      | Some out => Returned out
      | None => TypeError
      end
  end.

(* ------------------------------------------------------------------ *)
(** ** Folio navigation *)

(** [values_list("folio", flat=True).distinct().order_by("folio")] *)
Definition distinct_folios (db : DB) (chants : list Chant.t)
  : result (list (option string)) :=
  rows <- order_by db ["folio"] chants ;;
  Ok (dict_fromkeys option_string_eq (map Chant.folio rows)).

(** [l.index(x)], None for the ValueError of a missing item. *)
Fixpoint list_index {A : Type} (eqb : A -> A -> bool) (l : list A) (x : A)
  : option nat :=
  match l with
  | [] => None
  | y :: l' => if eqb y x then Some 0%nat else option_map S (list_index eqb l' x)
  end.

(** [folio_list[i]] for an index in range. *)
Definition folio_at (folio_list : list (option string)) (i : nat)
  : option string :=
  match nth_error folio_list i with
  | Some folio => folio
  | None => None
  end.

(** [folio_list[index - 1] if index != 0 else None] *)
Definition previous_folio_at (folio_list : list (option string)) (index : nat)
  : option string :=
  if (index =? 0)%nat then None else folio_at folio_list (index - 1).

(** [folio_list[index + 1] if index < len(folio_list) - 1 else None] *)
Definition next_folio_at (folio_list : list (option string)) (index : nat)
  : option string :=
  if (index <? List.length folio_list - 1)%nat
  then folio_at folio_list (index + 1) else None.

(** Python truth of an optional string. *)
Definition truthy (o : option string) : option string :=
  match o with
  | Some v => if String.eqb v "" then None else Some v
  | None => None
  end.

Module Navigation.
Record t : Type := mk {
  folios : list (option string);
  previous_folio : option string;
  next_folio : option string;
  feasts_current_folio : list (option Feast.t * list Chant.t);
  feasts_previous_folio : option (list (option Feast.t * list Chant.t));
  feasts_next_folio : option (list (option Feast.t * list Chant.t))
}.
End Navigation.

(** [chants_in_source.filter(folio=folio).order_by("c_sequence")], grouped
    by feast. *)
Definition feasts_folio (db : DB) (chants_in_source : list Chant.t)
  (folio : option string) : result (list (option Feast.t * list Chant.t)) :=
  chants_folio <-
    order_by db ["c_sequence"]
      (filter (fun c => option_string_eq (Chant.folio c) folio)
              chants_in_source) ;;
  Ok (get_chants_with_feasts db chants_folio).

(** The source navigation section of [ChantDetailView.get_context_data]
    (after the permission check and the syllabification, which are not
    modelled): None for a chant without source. *)
Definition ChantDetailView_navigation (db : DB) (chant : Chant.t)
  : result (option Navigation.t) :=
  match Chant_source db chant with
  | None => Ok None
  | Some source =>
      let chants_in_source := chant_set db source in
      folio_list <- distinct_folios db chants_in_source ;;
      index <-
        match list_index option_string_eq folio_list (Chant.folio chant) with
        | Some i => Ok i
        | None => Raise ValueError
        end ;;
      let previous_folio := previous_folio_at folio_list index in
      let next_folio := next_folio_at folio_list index in
      feasts_current_folio <-
        feasts_folio db chants_in_source (Chant.folio chant) ;;
      feasts_previous_folio <-
        match truthy previous_folio with
        | Some folio =>
            l <- feasts_folio db chants_in_source (Some folio) ;; Ok (Some l)
        | None => Ok None
        end ;;
      feasts_next_folio <-
        match truthy next_folio with
        | Some folio =>
            l <- feasts_folio db chants_in_source (Some folio) ;; Ok (Some l)
        | None => Ok None
        end ;;
      Ok (Some
            {| Navigation.folios := folio_list;
               Navigation.previous_folio := previous_folio;
               Navigation.next_folio := next_folio;
               Navigation.feasts_current_folio := feasts_current_folio;
               Navigation.feasts_previous_folio := feasts_previous_folio;
               Navigation.feasts_next_folio := feasts_next_folio |})
  end.

(* ------------------------------------------------------------------ *)
(** ** SourceEditChantsView.get_queryset *)

Definition SourceEditChantsView_get_queryset
  (source_id : Z) (GET : QueryDict) (db : DB) : result (list Chant.t) :=
  source <-
    match Source_find db source_id with
    | Some s => Ok s
    | None => Raise DoesNotExist
    end ;;
  let feast_id := param GET "feast" in
  let folio := param GET "folio" in
  let chants := chant_set db source in
  match chant_set db source with
  | [] => Ok chants
  | _ :: _ =>
      match feast_id with
      | Some feast_id =>
          n <- int feast_id ;;
          Ok (filter (fun c => option_Z_eqb (Chant.feast c) n) chants)
      | None =>
          match folio with
          | Some folio =>
              Ok (filter (fun c => option_string_eqb (Chant.folio c) folio)
                         chants)
          | None =>
              folios <- distinct_folios db chants ;;
              match folios with
              | [] => Raise Http404
              | initial_folio :: _ =>
                  Ok (filter
                        (fun c => option_string_eq (Chant.folio c) initial_folio)
                        chants)
              end
          end
      end
  end.

(* ------------------------------------------------------------------ *)
(** ** SourceEditChantsView: the page *)

Module EditContext.
(** The context entries set before the syllabification; an entry that is
    not set reads None. *)
Record t : Type := mk {
  source : Source.t;
  folios : option (list (option string));
  feasts_with_folios : option (list folio_feast);
  previous_folio : option string;
  next_folio : option string;
  initial_GET_folio : option (option string);
  folios_current_feast : option (list (string * list Chant.t));
  feasts_current_folio : option (list (option Feast.t * list Chant.t));
  pk_specified : option bool;
  chant : option Chant.t
}.
End EditContext.

Section EditPage.
(** [queryset.latest("date_created")] on a queryset that is not empty.
    The creation date is no column of the store modelled here, so the
    choice among the rows is left open. *)
Variable latest : list Chant.t -> Chant.t.

(** [get_object]; primary keys are unique, so [queryset.filter(pk=pk).get()]
    finds one row or none. *)
Definition SourceEditChantsView_get_object
  (source_id : Z) (GET : QueryDict) (db : DB) : result (option Chant.t) :=
  queryset <- SourceEditChantsView_get_queryset source_id GET db ;;
  match queryset with
  | [] => Ok None
  | _ :: _ =>
      pk <-
        match param GET "pk" with
        | Some pk => int pk
        | None => Ok (Chant.id (latest queryset))
        end ;;
      match find (fun c => Chant.id c =? pk) queryset with
      | Some c => Ok (Some c)
      | None => Raise DoesNotExist
      end
  end.

(** [get_context_data] up to the first use of the chant, [chant.volpiano];
    the syllabification, the proofreading flag and the suggested full text
    that follow are not modelled.  [queryset] is [self.queryset], set by
    [get_queryset]. *)
Definition SourceEditChantsView_get_context_data
  (source_id : Z) (GET : QueryDict) (db : DB) (queryset : list Chant.t)
  : outcome EditContext.t :=
  obind
    (match Source_find db source_id with
     | Some s => Returned s
     | None => Raised DoesNotExist
     end)
    (fun source =>
  let chants_in_source := chant_set db source in
  match chants_in_source with
  | [] =>
      Returned
        (EditContext.mk source None None None None None None None None None)
  | _ :: _ =>
      obind (lift (distinct_folios db chants_in_source)) (fun folios =>
      obind (lift (get_feast_selector_options db source))
        (fun feasts_with_folios =>
      obind
        (match param GET "feast" with
         | Some _ =>
             obind (get_chants_with_folios db queryset)
               (fun folios_current_feast =>
                  Returned
                    (EditContext.mk source (Some folios)
                       (Some feasts_with_folios) None None None
                       (Some folios_current_feast) None None None))
         | None =>
             obind
               (match param GET "folio" with
                | Some folio => Returned (Some folio, None)
                | None =>
                    match folios with
                    | folio :: _ => Returned (folio, Some folio)
                    | [] => IndexError
                    end
                end)
               (fun '(folio, initial_GET_folio) =>
             obind
               (match list_index option_string_eq folios folio with
                | Some index => Returned index
                | None => Raised Http404
                end)
               (fun index =>
             obind (lift (order_by db ["c_sequence"] queryset))
               (fun chants_folio =>
                  Returned
                    (EditContext.mk source (Some folios)
                       (Some feasts_with_folios)
                       (previous_folio_at folios index)
                       (next_folio_at folios index)
                       initial_GET_folio None
                       (Some (get_chants_with_feasts db chants_folio))
                       None None))))
         end)
        (fun context =>
      let pk := param GET "pk" in
      let pk_specified :=
        match pk with Some _ => true | None => false end in
      obind (lift (SourceEditChantsView_get_object source_id GET db))
        (fun chant =>
           match chant with
           | None => Raised AttributeError
           | Some c =>
               Returned
                 (EditContext.mk
                    (EditContext.source context)
                    (EditContext.folios context)
                    (EditContext.feasts_with_folios context)
                    (EditContext.previous_folio context)
                    (EditContext.next_folio context)
                    (EditContext.initial_GET_folio context)
                    (EditContext.folios_current_feast context)
                    (EditContext.feasts_current_folio context)
                    (Some pk_specified)
                    (Some c))
           end))))
  end).

(** The GET request of a user who may edit the source: [test_func] looks
    the source up, [get] fetches the object and then builds the context,
    with [self.queryset] as [get_queryset] has left it. *)
Definition SourceEditChantsView_get
  (source_id : Z) (GET : QueryDict) (db : DB) : outcome EditContext.t :=
  obind
    (match Source_find db source_id with
     | Some s => Returned s
     | None => Raised Http404
     end)
    (fun _ =>
  obind (lift (SourceEditChantsView_get_object source_id GET db))
    (fun _ =>
  obind (lift (SourceEditChantsView_get_queryset source_id GET db))
    (fun queryset =>
  SourceEditChantsView_get_context_data source_id GET db queryset))).
End EditPage.

(* ------------------------------------------------------------------ *)
(** ** The touch_all_chants command *)

Definition CHUNK_SIZE : nat := 1000.

Module Touch.
(** What the command writes to stdout. *)
Inductive line : Type :=
| processing_chunk (start_index : nat)
| success.

(** The lines written and the chants saved, oldest first. *)
Record state : Type := mk {
  stdout : list line;
  saved : list Chant.t
}.
End Touch.

Definition write (st : Touch.state) (l : Touch.line) : Touch.state :=
  Touch.mk (Touch.stdout st ++ [l])%list (Touch.saved st).

(** [chant.save()] *)
Definition chant_save (st : Touch.state) (chant : Chant.t) : Touch.state :=
  Touch.mk (Touch.stdout st) (Touch.saved st ++ [chant])%list.

Section TouchAllChants.
(** [chants = Chant.objects.all()] is a lazy queryset without ordering:
    [chants.count()] is a COUNT query, and every slice
    [chants[start_index : start_index + CHUNK_SIZE]] is a LIMIT/OFFSET
    query of its own, over the table in whatever order the store delivers
    the rows at that moment, with the saves of the earlier rounds done.
    [delivery n] is the order of the rows at the time of the query of
    round [n] of the loop. *)
Variable delivery : nat -> list Chant.t.

(** The while loop, one round per unit of fuel; [round] counts the rounds
    done so far. *)
Fixpoint handle_loop (fuel round : nat) (chants_count start_index : nat)
  (st : Touch.state) : option Touch.state :=
  match fuel with
  | O => None
  | S fuel' =>
      if (start_index <=? chants_count)%nat then
        let st := write st (Touch.processing_chunk start_index) in
        let chunk :=
          firstn CHUNK_SIZE (skipn start_index (delivery round)) in
        let st := fold_left chant_save chunk st in
        handle_loop fuel' (S round) chants_count (start_index + CHUNK_SIZE) st
      else Some st
  end.

Definition Command_handle (fuel : nat) (db : DB) : option Touch.state :=
  let chants_count := List.length (Chant_objects db) in
  let start_index := 0%nat in
  match handle_loop fuel 0 chants_count start_index (Touch.mk [] []) with
  | Some st => Some (write st Touch.success)
  | None => None
  end.
End TouchAllChants.

(* ------------------------------------------------------------------ *)
(** ** ChantSearchView.get_context_data: the url of the search *)

(** The url that keeps the search parameters and leaves the ordering
    parameters out. *)
Definition ChantSearchView_url_with_search_params
  (path : string) (GET : QueryDict) : string :=
  let current_url := path in
  let search_parameters :=
    flat_map
      (fun key =>
         match param GET key with
         | Some v => [key ++ "=" ++ v]
         | None => []
         end)
      [ "op"; "keyword"; "service"; "genre"; "cantus_id"; "mode"; "feast";
        "position"; "melodies"; "search_bar" ] in
  let url_with_search_params := current_url ++ "?" in
  match search_parameters with
  | _ :: _ => url_with_search_params ++ join "&" search_parameters
  | [] => url_with_search_params
  end.

(* ------------------------------------------------------------------ *)
(** ** Notions of the specification *)

(** The unfiltered set a caller may see: every chant and sequence for an
    authenticated caller, those of published sources otherwise. *)
Definition visible (is_authenticated : bool) (db : DB) : list Chant.t :=
  if is_authenticated
  then (Chant_objects db ++ Sequence_objects db)%list
  else (filter (source__published db) (Chant_objects db) ++
        filter (source__published db) (Sequence_objects db))%list.

(** The record belongs to a source, and that source is published. *)
Definition owning_source_published (db : DB) (c : Chant.t) : Prop :=
  exists s, Chant_source db c = Some s /\ Source.published s = true.

(** The store with both record collections cut down to the records of
    published sources. *)
Definition published_db (db : DB) : DB :=
  mkDB (filter (source__published db) (Chant_objects db))
       (filter (source__published db) (Sequence_objects db))
       (Source_objects db) (Feast_objects db).

(* ------------------------------------------------------------------ *)
(** ** Fixtures *)

Definition fixture (id : Z) (source : option Z) (folio : option string)
  (c_sequence : option Z) (incipit volpiano : option string)
  (feast next_chant : option Z) (is_last_chant_in_feast : bool) : Chant.t :=
  Chant.mk id source folio c_sequence incipit None None None None None
           volpiano None None feast None None next_chant
           is_last_chant_in_feast None None.

(** Two sources (10 published, 11 unpublished), three chants and one
    sequence, two feasts. *)
Definition chant_1 : Chant.t :=
  fixture 1 (Some 10) (Some "001r") (Some 1) (Some "Alleluia dulce")
    (Some "1---a") (Some 1) (Some 2) true.

Definition chant_2 : Chant.t :=
  fixture 2 (Some 10) (Some "001r") (Some 2) (Some "Cantate alleluia")
    None (Some 2) None false.

Definition chant_3 : Chant.t :=
  fixture 3 (Some 11) (Some "002r") (Some 1) (Some "Beatus vir")
    (Some "1---b") (Some 1) (Some 2) true.

Definition sequence_1 : Chant.t :=
  fixture 1 (Some 10) None None (Some "Alleluia seq") None None None false.

Definition example_db : DB :=
  mkDB [chant_1; chant_2; chant_3] [sequence_1]
       [ Source.mk 10 true (Some 4063) (Some "A-B");
         Source.mk 11 false (Some 4063) (Some "A-A") ]
       [ Feast.mk 1 "Nativitas"; Feast.mk 2 "Epiphania" ].

(* ------------------------------------------------------------------ *)
(** ** The filter criteria, as the specification words them *)

(** [v] occurs in the field, letter case aside; a NULL field has no
    occurrence. *)
Definition isubstring (v : string) (field : option string) : Prop :=
  exists s pre post, field = Some s /\ upper s = pre ++ upper v ++ post.

(** The field starts with [v], letter case aside. *)
Definition iprefix (v : string) (field : option string) : Prop :=
  exists s post, field = Some s /\ upper s = upper v ++ post.

(** The keyword sub-predicate: one of the three text fields matches,
    as a substring for op = "contains", as a prefix otherwise. *)
Definition keyword_matches (op : option string) (keyword : string)
  (c : Chant.t) : Prop :=
  exists field,
    In field [ Chant.manuscript_full_text_std_spelling c;
               Chant.manuscript_full_text c;
               Chant.incipit c ] /\
    (op = Some "contains" -> isubstring keyword field) /\
    (op <> Some "contains" -> iprefix keyword field).

(** The constraint of a parameter: none when it is absent. *)
Definition when_given (p : option string) (P : string -> Prop) : Prop :=
  forall v, p = Some v -> P v.

(** Exact match by id: the parameter reads as the number the field holds. *)
Definition has_id (fk : option Z) (v : string) : Prop :=
  exists n, int v = Ok n /\ fk = Some n.

(** The conjunction of the sub-predicates of the parameters of the global
    search; melodies constrains only with the value "true". *)
Definition search_criteria (GET : QueryDict) (db : DB) (c : Chant.t) : Prop :=
  when_given (param GET "service") (has_id (Chant.service c)) /\
  when_given (param GET "genre") (has_id (Chant.genre c)) /\
  when_given (param GET "cantus_id")
    (fun v => isubstring v (Chant.cantus_id c)) /\
  when_given (param GET "mode") (fun v => Chant.mode c = Some v) /\
  when_given (param GET "position") (fun v => Chant.position c = Some v) /\
  when_given (param GET "melodies")
    (fun v => v = "true" -> Chant.volpiano c <> None) /\
  when_given (param GET "feast") (fun v => isubstring v (feast__name db c)) /\
  when_given (param GET "keyword")
    (fun v => keyword_matches (QueryDict_get GET "op") v c).

(** The hard-coded exclusion of the per-source search applies. *)
Definition excluded (source_pk : Z) (GET : QueryDict) : Prop :=
  QueryDict_get GET "melodies" = Some "true" /\ source_pk = 680970.

(** The numeric parameters read as numbers. *)
Definition numeric_ids (GET : QueryDict) : Prop :=
  when_given (param GET "service") (fun v => exists n, int v = Ok n) /\
  when_given (param GET "genre") (fun v => exists n, int v = Ok n).

(** The records the per-source search starts from: those of the source,
    sequences when the source lies in segment 4064, chants otherwise. *)
Definition source_records (db : DB) (source_pk : Z) : list Chant.t :=
  match Source_find db source_pk with
  | Some s =>
      match Source.segment s with
      | Some segment_id =>
          filter (fun c => option_Z_eqb (Chant.source c) source_pk)
                 (if segment_id =? 4064
                  then Sequence_objects db else Chant_objects db)
      | None => []
      end
  | None => []
  end.

(** The sub-predicates of the per-source search, the melodies and keyword
    parameters apart. *)
Definition source_search_criteria (GET : QueryDict) (db : DB) (c : Chant.t)
  : Prop :=
  when_given (param GET "service") (has_id (Chant.service c)) /\
  when_given (param GET "genre") (has_id (Chant.genre c)) /\
  when_given (param GET "cantus_id")
    (fun v => isubstring v (Chant.cantus_id c)) /\
  when_given (param GET "mode") (fun v => Chant.mode c = Some v) /\
  when_given (param GET "feast") (fun v => isubstring v (feast__name db c)) /\
  when_given (param GET "indexing_notes")
    (fun v =>
       (QueryDict_get GET "indexing_notes_op" = Some "contains" ->
        isubstring v (Chant.indexing_notes c)) /\
       (QueryDict_get GET "indexing_notes_op" <> Some "contains" ->
        iprefix v (Chant.indexing_notes c))).

Definition source_melodies_criterion (GET : QueryDict) (c : Chant.t) : Prop :=
  when_given (param GET "melodies")
    (fun v => (v = "true" -> Chant.volpiano c <> None) /\
              (v = "false" -> Chant.volpiano c = None)).

Definition keyword_criterion (GET : QueryDict) (c : Chant.t) : Prop :=
  when_given (param GET "keyword")
    (fun v => keyword_matches (QueryDict_get GET "op") v c).

(** [q] denotes [P]: the predicate [q] resolves to holds exactly of the
    rows that satisfy [P]. *)
Definition denotes (db : DB) (q : Q) (P : Chant.t -> Prop) : Prop :=
  forall p, resolve db q = Ok p -> forall c, p c = true <-> P c.

Definition resolves (db : DB) (q : Q) : Prop :=
  exists p, resolve db q = Ok p.

(* ------------------------------------------------------------------ *)
(** ** Ordering, as the specification words it *)

(** Descending order was asked for. *)
Definition sort_desc (GET : QueryDict) : bool :=
  match QueryDict_get GET "sort" with
  | Some s => String.eqb s "desc"
  | None => false
  end.

(** [a] may come right before [b]: the primary key, taken in the direction
    asked for, puts [a] first, or it ties and the ids ascend. *)
Definition ordered_before (desc : bool) (primary : Chant.t -> value)
  (a b : Chant.t) : Prop :=
  let c :=
    if desc then compare_value (primary b) (primary a)
    else compare_value (primary a) (primary b) in
  c = Lt \/ (c = Eq /\ Chant.id a <= Chant.id b).

(** The id tiebreak column. *)
Definition id_column : Chant.t -> value := fun c => VInt (Chant.id c).

(** The ordering keys each view knows. *)
Definition ChantSearchView_keys : list string := order_param_options.

Definition ChantSearchMSView_keys : list string :=
  [ "siglum"; "incipit"; "genre"; "cantus_id"; "mode"; "feast"; "service";
    "has_fulltext"; "has_melody"; "has_image" ].

Definition recognized (keys : list string) (GET : QueryDict) : Prop :=
  exists k, QueryDict_get GET "order" = Some k /\ In k keys.

(** The criteria of the global search, the melodies parameter apart. *)
Definition search_criteria_but_melodies (GET : QueryDict) (db : DB)
  (c : Chant.t) : Prop :=
  when_given (param GET "service") (has_id (Chant.service c)) /\
  when_given (param GET "genre") (has_id (Chant.genre c)) /\
  when_given (param GET "cantus_id")
    (fun v => isubstring v (Chant.cantus_id c)) /\
  when_given (param GET "mode") (fun v => Chant.mode c = Some v) /\
  when_given (param GET "position") (fun v => Chant.position c = Some v) /\
  when_given (param GET "feast") (fun v => isubstring v (feast__name db c)) /\
  when_given (param GET "keyword")
    (fun v => keyword_matches (QueryDict_get GET "op") v c).

(** The melody-encoding field of the record is non-empty: it holds a
    string, and not the empty one. *)
Definition melody_non_empty (c : Chant.t) : Prop :=
  exists volpiano, Chant.volpiano c = Some volpiano /\ volpiano <> "".

(** The melody-encoding field of the record is empty: null, or the empty
    string. *)
Definition melody_empty (c : Chant.t) : Prop :=
  Chant.volpiano c = None \/ Chant.volpiano c = Some "".

(** A store with the source 680970 and one chant of it that has a melody. *)
Definition chant_with_melody : Chant.t :=
  fixture 5 (Some 680970) (Some "001r") (Some 1) (Some "Ave maria")
    (Some "1---c") None None false.

Definition db_680970 : DB :=
  mkDB [chant_with_melody] []
       [Source.mk 680970 true (Some 4063) (Some "CDN-Hsmu")] [].

(** A store with one chant, whose melody encoding is the empty string. *)
Definition chant_with_empty_string : Chant.t :=
  fixture 6 (Some 10) (Some "001r") (Some 1) (Some "Ave maria")
    (Some "") None None false.

Definition empty_string_db : DB :=
  mkDB [chant_with_empty_string] []
       [Source.mk 10 true (Some 4063) (Some "A-B")] [].

(* ------------------------------------------------------------------ *)
(** ** Requests for a page *)

(** The request [GET] with "page=<page>" added at its end. *)
Definition with_page (GET : QueryDict) (page : string) : QueryDict :=
  (GET ++ [("page", page)])%list.

(** A store with 150 chants of one published source, ids 1 to 150. *)
Definition many_chants : list Chant.t :=
  map (fun i => fixture (Z.of_nat i) (Some 10) (Some "001r") (Some 1)
                 (Some "Alleluia") None None None false)
      (seq 1 150).

Definition big_db : DB :=
  mkDB many_chants [] [Source.mk 10 true (Some 4063) (Some "A-B")] [].

(** A store in which a chant and a sequence share an id: the first 100
    chants of [many_chants], and a sequence of the same source under the
    id 100 of the last of them. *)
Definition tie_chant : Chant.t :=
  fixture 100 (Some 10) (Some "001r") (Some 1) (Some "Alleluia") None None
    None false.

Definition tie_sequence : Chant.t :=
  fixture 100 (Some 10) None None (Some "Alleluia") None None None false.

Definition tie_db : DB :=
  mkDB (firstn 100 many_chants) [tie_sequence]
       [Source.mk 10 true (Some 4063) (Some "A-B")] [].

(* ------------------------------------------------------------------ *)
(** ** Grouping by feast, as the specification words it *)

(** The id of the record's feast, None for a record without feast. *)
Definition feast_of (db : DB) (c : Chant.t) : option Z :=
  option_map Feast.id (Chant_feast db c).

(** The record belongs to the group of feast [f] (None: no feast). *)
Definition in_feast (db : DB) (f : option Z) (c : Chant.t) : bool :=
  option_Z_eq (feast_of db c) f.

(** The scenario of the specification: A and B on folio 001r with feasts
    F1 and F2, C on folio 002r with feast F1. *)
Definition F1 : Feast.t := Feast.mk 1 "Nativitas".
Definition F2 : Feast.t := Feast.mk 2 "Epiphania".

Definition record_A : Chant.t :=
  fixture 1 (Some 10) (Some "001r") (Some 1) (Some "A") None (Some 1) None
    false.

Definition record_B : Chant.t :=
  fixture 2 (Some 10) (Some "001r") (Some 2) (Some "B") None (Some 2) None
    false.

Definition record_C : Chant.t :=
  fixture 3 (Some 10) (Some "002r") (Some 1) (Some "C") None (Some 1) None
    false.

Definition scenario_db : DB :=
  mkDB [record_A; record_B; record_C] []
       [Source.mk 10 true (Some 4063) (Some "A-B")] [F1; F2].

(* ------------------------------------------------------------------ *)
(** ** Suggested feasts, as the specification words them *)

(** The feasts that followed feast [current]: for every chant flagged last
    in that feast, in the order of the store, the feast of its next chant,
    chants without next chant and next chants without feast left out. *)
Definition following_feasts (db : DB) (current : Feast.t) : list Feast.t :=
  flat_map
    (fun c =>
       match Chant_next_chant db c with
       | Some next =>
           match Chant_feast db next with
           | Some g => [g]
           | None => []
           end
       | None => []
       end)
    (filter
       (fun c =>
          Chant.is_last_chant_in_feast c &&
          option_Z_eq (Chant.feast c) (Some (Feast.id current)))
       (Chant_objects db)).

(** How often feast [f] occurs in [l]. *)
Definition occurrences (f : Feast.t) (l : list Feast.t) : Z :=
  Z.of_nat (List.length (filter (Feast_eqb f) l)).

(** The feasts of [l], each once, in the order of first encounter. *)
Fixpoint first_seen (l : list Feast.t) : list Feast.t :=
  match l with
  | [] => []
  | f :: l' => f :: filter (fun g => negb (Feast_eqb f g)) (first_seen l')
  end.

(** Every feast encountered with its count, in encounter order. *)
Definition encounter_counts (l : list Feast.t) : list (Feast.t * Z) :=
  map (fun f => (f, occurrences f l)) (first_seen l).

(** The order of the ranking: the higher count first. *)
Definition by_count_desc (a b : Feast.t * Z) : bool := snd b <=? snd a.

(** A store in which feast 1 ends four times, followed by feasts 3, 2, 3
    and 4. *)
Definition suggestion_db : DB :=
  mkDB
    [ fixture 1 (Some 10) (Some "001r") (Some 1) None None (Some 1) (Some 2) true;
      fixture 2 (Some 10) (Some "001r") (Some 2) None None (Some 3) None false;
      fixture 3 (Some 10) (Some "002r") (Some 1) None None (Some 1) (Some 4) true;
      fixture 4 (Some 10) (Some "002r") (Some 2) None None (Some 2) None false;
      fixture 5 (Some 10) (Some "003r") (Some 1) None None (Some 1) (Some 6) true;
      fixture 6 (Some 10) (Some "003r") (Some 2) None None (Some 3) None false;
      fixture 7 (Some 10) (Some "004r") (Some 1) None None (Some 1) (Some 8) true;
      fixture 8 (Some 10) (Some "004r") (Some 2) None None (Some 4) None false;
      fixture 9 (Some 10) (Some "005r") (Some 1) None None (Some 1) None true;
      fixture 10 (Some 10) (Some "005r") (Some 2) None None (Some 1) (Some 11) true;
      fixture 11 (Some 10) (Some "006r") (Some 1) None None None None false ]
    []
    [ Source.mk 10 true (Some 4063) (Some "A-B") ]
    [ Feast.mk 1 "Nativitas"; Feast.mk 2 "Epiphania"; Feast.mk 3 "Stephani";
      Feast.mk 4 "Joannis" ].

(** Two states of the store with the same rows, the chants and sequences
    possibly delivered in another order. *)
Definition same_rows (db db' : DB) : Prop :=
  Permutation (Chant_objects db) (Chant_objects db') /\
  Permutation (Sequence_objects db) (Sequence_objects db') /\
  Source_objects db = Source_objects db' /\
  Feast_objects db = Feast_objects db'.

(* ------------------------------------------------------------------ *)
(** ** Notions for the remaining views *)

(** The start indices of [n] chunks from [start] on. *)
Definition chunk_starts (n start : nat) : list nat :=
  map (fun i => (start + i * CHUNK_SIZE)%nat) (seq 0 n).

(** The chunks of [n] rounds of the touch command, from round [round] and
    index [start] on: each is cut out of the rows as they are delivered in
    its round. *)
Definition chunks (delivery : nat -> list Chant.t) (n round start : nat)
  : list (list Chant.t) :=
  map (fun i =>
         firstn CHUNK_SIZE
           (skipn (start + i * CHUNK_SIZE) (delivery (round + i)%nat)))
      (seq 0 n).

(** A store that delivers the rows saved so far after the others: the
    order of [rows] at the time of round [n], after [n * CHUNK_SIZE]
    saves. *)
Definition saved_rows_last (rows : list Chant.t) (n : nat) : list Chant.t :=
  (skipn (n * CHUNK_SIZE) rows ++ firstn (n * CHUNK_SIZE) rows)%list.

(** A table of 1001 chants, ids 1 to 1001. *)
Definition chant_number (i : nat) : Chant.t :=
  fixture (Z.of_nat i) (Some 10) (Some "001r") (Some (Z.of_nat i))
    (Some "Alleluia") None None None false.

Definition chants_1001 : list Chant.t := map chant_number (seq 1 1001).

Definition db_1001 : DB :=
  mkDB chants_1001 [] [Source.mk 10 true (Some 4063) (Some "A-B")] [].

(** The items of [l], each kept at its first place. *)
Fixpoint keep_first {A : Type} (eqb : A -> A -> bool) (l : list A) : list A :=
  match l with
  | [] => []
  | x :: l' => x :: filter (fun y => negb (eqb x y)) (keep_first eqb l')
  end.

(** The chant is on folio [folio]. *)
Definition folio_is (folio : string) (c : Chant.t) : bool :=
  option_string_eqb (Chant.folio c) folio.

(** The folio of the chant when it has one that is not the empty string. *)
Definition labelled_folio (c : Chant.t) : list string :=
  match Chant.folio c with
  | Some folio => if String.eqb folio "" then [] else [folio]
  | None => []
  end.

Definition labelled_folios (rows : list Chant.t) : list string :=
  flat_map labelled_folio rows.

(** Both chants have a sequence number, and the first has the lower one or
    the same. *)
Definition c_sequence_le (a b : Chant.t) : Prop :=
  exists x y,
    Chant.c_sequence a = Some x /\ Chant.c_sequence b = Some y /\ x <= y.

(** Two chants on folio 001r, the second without sequence number. *)
Definition unnumbered_db : DB :=
  mkDB [ fixture 1 (Some 10) (Some "001r") (Some 1) (Some "A") None None None
           false;
         fixture 2 (Some 10) (Some "001r") None (Some "B") None None None
           false ]
       [] [Source.mk 10 true (Some 4063) (Some "A-B")] [].

(** The words, each followed by one space. *)
Fixpoint spaced (words : list string) : string :=
  match words with
  | [] => ""
  | word :: words' => word ++ " " ++ spaced words'
  end.

(** Where a chant stands in its source. *)
Definition position (c : Chant.t) : option string * option Z :=
  (Chant.folio c, Chant.c_sequence c).

(** A submitted form for folio 003r of source 10. *)
Definition new_chant_form : Form.t :=
  Form.mk
    (Chant.mk 0 None (Some "003r") (Some 1) None None
       (Some "Alleluia dulce carmen vox perennis gaudii") None None None None
       None None None None None None false None None)
    [].
(* ================================================================== *)
(** * Properties *)

(** ** The result monad *)

Lemma bind_Ok {A B : Type} (m : result A) (k : A -> result B) (b : B) :
  bind m k = Ok b -> exists a, m = Ok a /\ k a = Ok b.
Proof.
  destruct m as [a|e]; simpl; intros H.
  - exists a. split; [reflexivity | exact H].
  - discriminate H.
Qed.

Lemma bind_ext {A B : Type} (m m' : result A) (k k' : A -> result B) :
  m = m' -> (forall a, k a = k' a) -> bind m k = bind m' k'.
Proof. intros <- H. destruct m; simpl; [apply H | reflexivity]. Qed.

Tactic Notation "inv_bind" hyp(H) "as" ident(a) ident(Ha) :=
  apply bind_Ok in H; destruct H as (a & Ha & H).

(** ** Sorting *)

Section SortFacts.
Context {A : Type} (leb : A -> A -> bool).

Lemma insert_perm (x : A) (l : list A) :
  Permutation (insert leb x l) (x :: l).
Proof.
  induction l as [|y l IH]; simpl.
  - apply Permutation_refl.
  - destruct (leb x y).
    + apply Permutation_refl.
    + eapply perm_trans; [apply perm_skip, IH | apply perm_swap].
Qed.

Lemma sort_perm (l : list A) : Permutation (sort leb l) l.
Proof.
  induction l as [|x l IH]; simpl.
  - constructor.
  - eapply perm_trans; [apply insert_perm | apply perm_skip, IH].
Qed.

Lemma sort_In (l : list A) (x : A) : In x (sort leb l) <-> In x l.
Proof.
  split; apply Permutation_in;
    [apply sort_perm | apply Permutation_sym, sort_perm].
Qed.

Lemma sort_length (l : list A) : List.length (sort leb l) = List.length l.
Proof. apply Permutation_length, sort_perm. Qed.

Hypothesis leb_total : forall a b, leb a b = false -> leb b a = true.

Lemma insert_HdRel (a x : A) (l : list A) :
  leb a x = true -> HdRel (fun u v => leb u v = true) a l ->
  HdRel (fun u v => leb u v = true) a (insert leb x l).
Proof.
  intros Hax Hl. destruct l as [|y l]; simpl.
  - constructor. exact Hax.
  - destruct (leb x y); constructor; [exact Hax|].
    inversion Hl; assumption.
Qed.

Lemma insert_sorted (x : A) (l : list A) :
  Sorted (fun u v => leb u v = true) l ->
  Sorted (fun u v => leb u v = true) (insert leb x l).
Proof.
  induction 1 as [|y l Hs IH Hd]; simpl.
  - repeat constructor.
  - destruct (leb x y) eqn:E.
    + constructor; [constructor; assumption | constructor; exact E].
    + constructor; [exact IH|].
      apply insert_HdRel; [apply leb_total, E | exact Hd].
Qed.

Lemma sort_sorted (l : list A) :
  Sorted (fun u v => leb u v = true) (sort leb l).
Proof.
  induction l as [|x l IH]; simpl.
  - constructor.
  - apply insert_sorted, IH.
Qed.
End SortFacts.

(** Stability: rows selected by [p] keep their order when every row the
    sort may move in front of a selected row is not selected. *)
Lemma filter_insert {A : Type} (leb : A -> A -> bool) (p : A -> bool)
  (x : A) (l : list A) :
  (p x = true -> forall y, leb x y = false -> p y = false) ->
  filter p (insert leb x l) = if p x then x :: filter p l else filter p l.
Proof.
  intros H. induction l as [|y l IH]; simpl.
  - destruct (p x); reflexivity.
  - destruct (leb x y) eqn:E; simpl.
    + destruct (p x); reflexivity.
    + rewrite IH. destruct (p x) eqn:Px.
      * rewrite (H eq_refl y E). reflexivity.
      * reflexivity.
Qed.

(** ** Querysets *)

Lemma QuerySet_filter_Ok (db : DB) (q : Q) (rows l : list Chant.t) :
  QuerySet_filter db q rows = Ok l ->
  exists p, resolve db q = Ok p /\ l = filter p rows.
Proof.
  unfold QuerySet_filter. intros H. inv_bind H as p Hp.
  exists p. split; [assumption | congruence].
Qed.

Lemma order_by_Ok (db : DB) (terms : list string) (rows l : list Chant.t) :
  order_by db terms rows = Ok l ->
  exists ks, order_terms db terms = Some ks /\ l = sort (leb_keys ks) rows.
Proof.
  unfold order_by. destruct (order_terms db terms) as [ks|]; [|discriminate].
  intros H. exists ks. split; [reflexivity | congruence].
Qed.

Lemma order_by_In (db : DB) (terms : list string) (rows l : list Chant.t) :
  order_by db terms rows = Ok l -> forall c, In c l <-> In c rows.
Proof.
  intros H c. apply order_by_Ok in H. destruct H as (ks & _ & ->).
  apply sort_In.
Qed.

Lemma option_Z_eqb_eq (o : option Z) (n : Z) :
  option_Z_eqb o n = true <-> o = Some n.
Proof.
  destruct o as [m|]; simpl.
  - rewrite Z.eqb_eq. split; congruence.
  - split; discriminate.
Qed.


(** ** Visibility *)

Lemma visible_false_published (db : DB) (c : Chant.t) :
  In c (visible false db) -> source__published db c = true.
Proof.
  unfold visible. rewrite in_app_iff, !filter_In. tauto.
Qed.

Lemma filter_visible (auth : bool) (db : DB) (p : Chant.t -> bool)
  (c : Chant.t) :
  In c (filter p
          (if auth then Chant_objects db
           else filter (source__published db) (Chant_objects db)) ++
        filter p
          (if auth then Sequence_objects db
           else filter (source__published db) (Sequence_objects db)))%list <->
  In c (visible auth db) /\ p c = true.
Proof.
  unfold visible. destruct auth; rewrite !in_app_iff, !filter_In; tauto.
Qed.

Lemma negb_if {A : Type} (b : bool) (x y : A) :
  (if negb b then x else y) = if b then y else x.
Proof. destruct b; reflexivity. Qed.


Lemma Source_find_id (db : DB) (pk : Z) (s : Source.t) :
  Source_find db pk = Some s -> Source.id s = pk.
Proof.
  unfold Source_find. intros H. apply find_some in H.
  destruct H as (_ & H). apply Z.eqb_eq, H.
Qed.


(* ------------------------------------------------------------------ *)
(** ** Text matching *)

Lemma startswith_spec (s p : string) :
  startswith s p = true <-> exists t, s = p ++ t.
Proof.
  revert s. induction p as [|a p IH]; intros s.
  - split; [intros _; exists s; reflexivity | destruct s; reflexivity].
  - destruct s as [|b s]; simpl.
    + split; [discriminate | intros (t & H); discriminate].
    + rewrite andb_true_iff, Ascii.eqb_eq, IH. split.
      * intros (-> & t & ->). exists t. reflexivity.
      * intros (t & H). injection H as -> ->. split; [reflexivity|].
        exists t. reflexivity.
Qed.

Lemma contains_spec (s p : string) :
  contains s p = true <-> exists a b, s = a ++ p ++ b.
Proof.
  induction s as [|c s IH].
  - change (contains "" p) with (startswith "" p || false).
    rewrite orb_false_r, startswith_spec. split.
    + intros (t & H). exists "", t. exact H.
    + intros (a & b & H). destruct a; [exists b; exact H | discriminate].
  - change (contains (String c s) p)
      with (startswith (String c s) p || contains s p).
    rewrite orb_true_iff, startswith_spec, IH. split.
    + intros [(t & H) | (a & b & H)].
      * exists "", t. exact H.
      * exists (String c a), b. simpl. rewrite H. reflexivity.
    + intros (a & b & H). destruct a as [|c' a].
      * left. exists b. exact H.
      * right. injection H as -> ->. exists a, b. reflexivity.
Qed.

Lemma lookup_icontains_spec (field : option string) (v : string) :
  lookup_icontains field v = true <-> isubstring v field.
Proof.
  unfold lookup_icontains, isubstring. destruct field as [s|].
  - rewrite contains_spec. split.
    + intros (a & b & H). exists s, a, b. auto.
    + intros (s' & a & b & [= <-] & H). exists a, b. exact H.
  - split; [discriminate | intros (s & a & b & H & _); discriminate].
Qed.

Lemma lookup_istartswith_spec (field : option string) (v : string) :
  lookup_istartswith field v = true <-> iprefix v field.
Proof.
  unfold lookup_istartswith, iprefix. destruct field as [s|].
  - rewrite startswith_spec. split.
    + intros (t & H). exists s, t. auto.
    + intros (s' & t & [= <-] & H). exists t. exact H.
  - split; [discriminate | intros (s & t & H & _); discriminate].
Qed.

Lemma option_string_eqb_eq (o : option string) (s : string) :
  option_string_eqb o s = true <-> o = Some s.
Proof.
  destruct o as [t|]; simpl.
  - rewrite String.eqb_eq. split; congruence.
  - split; discriminate.
Qed.

Lemma lookup_isnull_false {A : Type} (field : option A) :
  lookup_isnull field false = true <-> field <> None.
Proof. destruct field; simpl; split; congruence. Qed.

Lemma lookup_isnull_true {A : Type} (field : option A) :
  lookup_isnull field true = true <-> field = None.
Proof. destruct field; simpl; split; congruence. Qed.

(** ** The keyword filter *)

(** The row predicate the keyword filter resolves to. *)
Lemma keyword_filter_resolve (db : DB) (op : option string) (kw : string) :
  exists p,
    resolve db (keyword_filter op kw) = Ok p /\
    forall c, p c = true <-> keyword_matches op kw c.
Proof.
  unfold keyword_filter, keyword_matches.
  destruct op as [o|]; [destruct (String.eqb_spec o "contains") as [->|Hne]|];
    simpl; eexists; (split; [reflexivity|]); intros c;
    rewrite !orb_true_iff;
    rewrite ?lookup_icontains_spec, ?lookup_istartswith_spec.
  - split.
    + intros [[H|H]|H]; eexists; (split; [|split; [intros _; exact H|congruence]]);
        simpl; auto.
    + intros (f & Hf & H & _). specialize (H eq_refl).
      simpl in Hf. destruct Hf as [<-|[<-|[<-|[]]]]; auto.
  - assert (Hop : Some o <> Some "contains") by congruence. split.
    + intros [[H|H]|H]; eexists; (split; [|split; [congruence|intros _; exact H]]);
        simpl; auto.
    + intros (f & Hf & _ & H). specialize (H Hop).
      simpl in Hf. destruct Hf as [<-|[<-|[<-|[]]]]; auto.
  - split.
    + intros [[H|H]|H]; eexists; (split; [|split; [discriminate|intros _; exact H]]);
        simpl; auto.
    + intros (f & Hf & _ & H). assert (Hop : @None string <> Some "contains") by discriminate.
      specialize (H Hop).
      simpl in Hf. destruct Hf as [<-|[<-|[<-|[]]]]; auto.
Qed.

(** ** What the form filters denote *)

Lemma denotes_Q_all (db : DB) : denotes db Q_all (fun _ => True).
Proof. intros p [= <-] c. tauto. Qed.

Lemma denotes_Q_and (db : DB) (a b : Q) (P R : Chant.t -> Prop) :
  denotes db a P -> denotes db b R ->
  denotes db (Q_and a b) (fun c => P c /\ R c).
Proof.
  intros Ha Hb p H c. simpl in H.
  inv_bind H as pa Hpa. inv_bind H as pb Hpb. injection H as <-.
  rewrite andb_true_iff, (Ha pa Hpa c), (Hb pb Hpb c). tauto.
Qed.

Lemma denotes_Q_and_if (db : DB) (q : Q) (o : option string)
  (f : string -> Q) (P : Chant.t -> Prop) (S : string -> Chant.t -> Prop) :
  denotes db q P -> (forall v, denotes db (f v) (S v)) ->
  denotes db (Q_and_if q o f)
    (fun c => P c /\ when_given o (fun v => S v c)).
Proof.
  intros Hq Hf. unfold Q_and_if, when_given. destruct o as [v|].
  - intros p H c. rewrite (denotes_Q_and db q (f v) P (S v) Hq (Hf v) p H c).
    split.
    + intros (HP & HS). split; [exact HP|]. intros v' [= <-]. exact HS.
    + intros (HP & HS). split; [exact HP | apply HS; reflexivity].
  - intros p H c. rewrite (Hq p H c). split; [|tauto].
    intros HP. split; [exact HP | discriminate].
Qed.

Lemma denotes_service__id (db : DB) (v : string) :
  denotes db (service__id v) (fun c => has_id (Chant.service c) v).
Proof.
  intros p H c. simpl in H. inv_bind H as n Hn. injection H as <-.
  rewrite option_Z_eqb_eq. unfold has_id. split.
  - intros E. exists n. auto.
  - intros (m & Hm & E). congruence.
Qed.

Lemma denotes_genre__id (db : DB) (v : string) (n : Z) :
  int v = Ok n ->
  denotes db (genre__id n) (fun c => has_id (Chant.genre c) v).
Proof.
  intros Hn p [= <-] c. rewrite option_Z_eqb_eq. unfold has_id. split.
  - intros E. exists n. auto.
  - intros (m & Hm & E). congruence.
Qed.

Lemma denotes_cantus_id__icontains (db : DB) (v : string) :
  denotes db (cantus_id__icontains v)
    (fun c => isubstring v (Chant.cantus_id c)).
Proof. intros p [= <-] c. apply lookup_icontains_spec. Qed.

Lemma denotes_mode__exact (db : DB) (v : string) :
  denotes db (mode__exact v) (fun c => Chant.mode c = Some v).
Proof. intros p [= <-] c. apply option_string_eqb_eq. Qed.

Lemma denotes_position__exact (db : DB) (v : string) :
  denotes db (position__exact v) (fun c => Chant.position c = Some v).
Proof. intros p [= <-] c. apply option_string_eqb_eq. Qed.

Lemma denotes_feast__name__icontains (db : DB) (v : string) :
  denotes db (feast__name__icontains v)
    (fun c => isubstring v (feast__name db c)).
Proof. intros p [= <-] c. apply lookup_icontains_spec. Qed.

Lemma denotes_volpiano__isnull_false (db : DB) :
  denotes db (volpiano__isnull false) (fun c => Chant.volpiano c <> None).
Proof. intros p [= <-] c. apply lookup_isnull_false. Qed.

Lemma denotes_volpiano__isnull_true (db : DB) :
  denotes db (volpiano__isnull true) (fun c => Chant.volpiano c = None).
Proof. intros p [= <-] c. apply lookup_isnull_true. Qed.

Lemma denotes_iff (db : DB) (q : Q) (P R : Chant.t -> Prop) :
  (forall c, P c <-> R c) -> denotes db q P -> denotes db q R.
Proof. intros E H p Hp c. rewrite (H p Hp c). apply E. Qed.

(** The genre step, which coerces the parameter while building. *)
Lemma denotes_genre_step (db : DB) (q q' : Q) (o : option string)
  (P : Chant.t -> Prop) :
  match o with
  | Some genre_id => n <- int genre_id ;; Ok (Q_and q (genre__id n))
  | None => Ok q
  end = Ok q' ->
  denotes db q P ->
  denotes db q'
    (fun c => P c /\ when_given o (has_id (Chant.genre c))).
Proof.
  intros H Hq. unfold when_given. destruct o as [v|].
  - inv_bind H as n Hn. injection H as <-.
    eapply denotes_iff;
      [|apply denotes_Q_and; [exact Hq | apply (denotes_genre__id db v n Hn)]].
    intros c. split.
    + intros (HP & HS). split; [exact HP|]. intros v' [= <-]. exact HS.
    + intros (HP & HS). split; [exact HP | apply HS; reflexivity].
  - injection H as <-. eapply denotes_iff; [|exact Hq].
    intros c. split; [|tauto]. intros HP. split; [exact HP | discriminate].
Qed.

Lemma ChantSearchView_q_obj_filter_denotes (GET : QueryDict) (db : DB) (q : Q) :
  ChantSearchView_q_obj_filter GET = Ok q ->
  denotes db q
    (fun c =>
       when_given (param GET "service") (has_id (Chant.service c)) /\
       when_given (param GET "genre") (has_id (Chant.genre c)) /\
       when_given (param GET "cantus_id")
         (fun v => isubstring v (Chant.cantus_id c)) /\
       when_given (param GET "mode") (fun v => Chant.mode c = Some v) /\
       when_given (param GET "position")
         (fun v => Chant.position c = Some v) /\
       when_given (param GET "melodies")
         (fun v => v = "true" -> Chant.volpiano c <> None) /\
       when_given (param GET "feast")
         (fun v => isubstring v (feast__name db c))).
Proof.
  unfold ChantSearchView_q_obj_filter. intros H.
  inv_bind H as q1 Hq1. injection H as <-.
  pose proof (denotes_Q_and_if db Q_all (param GET "service") service__id _ _
                (denotes_Q_all db) (denotes_service__id db)) as D0.
  pose proof (denotes_genre_step db _ _ _ _ Hq1 D0) as D1.
  pose proof (denotes_Q_and_if db q1 (param GET "cantus_id")
                cantus_id__icontains _ _ D1
                (denotes_cantus_id__icontains db)) as D2.
  pose proof (denotes_Q_and_if db _ (param GET "mode") mode__exact _ _ D2
                (denotes_mode__exact db)) as D3.
  pose proof (denotes_Q_and_if db _ (param GET "position") position__exact
                _ _ D3 (denotes_position__exact db)) as D4.
  match type of D4 with denotes _ ?q4 ?P4 =>
    assert (D5 : denotes db
                   match param GET "melodies" with
                   | Some melodies =>
                       if String.eqb melodies "true"
                       then Q_and q4 (volpiano__isnull false) else q4
                   | None => q4
                   end
                   (fun c => P4 c /\
                             when_given (param GET "melodies")
                               (fun v => v = "true" ->
                                         Chant.volpiano c <> None)))
  end.
  { unfold when_given. destruct (param GET "melodies") as [m|].
    - destruct (String.eqb_spec m "true") as [->|Hne].
      + eapply denotes_iff;
          [|apply denotes_Q_and;
            [exact D4 | apply denotes_volpiano__isnull_false]].
        intros c. simpl. split.
        * intros (HP & HV). split; [exact HP|]. intros v [= <-] _. exact HV.
        * intros (HP & HV). split; [exact HP | apply (HV "true"); reflexivity].
      + eapply denotes_iff; [|exact D4]. intros c. simpl. split; [|tauto].
        intros HP. split; [exact HP|]. intros v [= <-] E. contradiction.
    - eapply denotes_iff; [|exact D4]. intros c. simpl. split; [|tauto].
      intros HP. split; [exact HP | discriminate]. }
  pose proof (denotes_Q_and_if db _ (param GET "feast")
                feast__name__icontains _ _ D5
                (denotes_feast__name__icontains db)) as D6.
  eapply denotes_iff; [|exact D6]. intros c. simpl. tauto.
Qed.

(** ** When the form filters resolve *)

Lemma resolves_Q_and (db : DB) (a b : Q) :
  resolves db a -> resolves db b -> resolves db (Q_and a b).
Proof.
  intros (pa & Ha) (pb & Hb). eexists. simpl. rewrite Ha, Hb. reflexivity.
Qed.

Lemma resolves_Q_and_if (db : DB) (q : Q) (o : option string)
  (f : string -> Q) :
  resolves db q -> (forall v, o = Some v -> resolves db (f v)) ->
  resolves db (Q_and_if q o f).
Proof.
  intros Hq Hf. unfold Q_and_if. destruct o as [v|]; [|exact Hq].
  apply resolves_Q_and; [exact Hq | apply Hf; reflexivity].
Qed.

Lemma resolves_service__id (db : DB) (v : string) :
  (exists n, int v = Ok n) -> resolves db (service__id v).
Proof. intros (n & Hn). eexists. simpl. rewrite Hn. reflexivity. Qed.

Ltac resolves_leaf := intros; eexists; reflexivity.

Lemma resolves_keyword_filter (db : DB) (op : option string) (kw : string) :
  resolves db (keyword_filter op kw).
Proof.
  destruct (keyword_filter_resolve db op kw) as (p & Hp & _).
  exists p. exact Hp.
Qed.

Lemma ChantSearchView_q_obj_filter_Ok (GET : QueryDict) (db : DB) :
  numeric_ids GET ->
  exists q, ChantSearchView_q_obj_filter GET = Ok q /\ resolves db q.
Proof.
  intros (Hservice & Hgenre). unfold ChantSearchView_q_obj_filter.
  assert (R0 : resolves db (Q_and_if Q_all (param GET "service") service__id)).
  { apply resolves_Q_and_if; [resolves_leaf|].
    intros v Hv. apply resolves_service__id, Hservice, Hv. }
  destruct (param GET "genre") as [g|] eqn:Eg.
  - destruct (Hgenre g eq_refl) as (n & Hn). rewrite Hn. simpl.
    eexists. split; [reflexivity|].
    apply resolves_Q_and_if; [|resolves_leaf].
    assert (R : resolves db
                  (Q_and_if
                     (Q_and_if
                        (Q_and_if
                           (Q_and (Q_and_if Q_all (param GET "service") service__id)
                                  (genre__id n))
                           (param GET "cantus_id") cantus_id__icontains)
                        (param GET "mode") mode__exact)
                     (param GET "position") position__exact)).
    { repeat (apply resolves_Q_and_if; [|resolves_leaf]).
      apply resolves_Q_and; [exact R0 | resolves_leaf]. }
    destruct (param GET "melodies") as [m|]; [|exact R].
    destruct (String.eqb m "true"); [|exact R].
    apply resolves_Q_and; [exact R | resolves_leaf].
  - simpl. eexists. split; [reflexivity|].
    apply resolves_Q_and_if; [|resolves_leaf].
    assert (R : resolves db
                  (Q_and_if
                     (Q_and_if
                        (Q_and_if
                           (Q_and_if Q_all (param GET "service") service__id)
                           (param GET "cantus_id") cantus_id__icontains)
                        (param GET "mode") mode__exact)
                     (param GET "position") position__exact)).
    { repeat (apply resolves_Q_and_if; [|resolves_leaf]). exact R0. }
    destruct (param GET "melodies") as [m|]; [|exact R].
    destruct (String.eqb m "true"); [|exact R].
    apply resolves_Q_and; [exact R | resolves_leaf].
Qed.

Lemma ChantSearchMSView_q_obj_filter_denotes (GET : QueryDict) (db : DB)
  (q : Q) :
  ChantSearchMSView_q_obj_filter GET = Ok q ->
  denotes db q
    (fun c =>
       when_given (param GET "service") (has_id (Chant.service c)) /\
       when_given (param GET "genre") (has_id (Chant.genre c)) /\
       when_given (param GET "cantus_id")
         (fun v => isubstring v (Chant.cantus_id c)) /\
       when_given (param GET "mode") (fun v => Chant.mode c = Some v) /\
       source_melodies_criterion GET c /\
       when_given (param GET "feast")
         (fun v => isubstring v (feast__name db c))).
Proof.
  unfold ChantSearchMSView_q_obj_filter. intros H.
  inv_bind H as q1 Hq1. injection H as <-.
  pose proof (denotes_Q_and_if db Q_all (param GET "service") service__id _ _
                (denotes_Q_all db) (denotes_service__id db)) as D0.
  pose proof (denotes_genre_step db _ _ _ _ Hq1 D0) as D1.
  pose proof (denotes_Q_and_if db q1 (param GET "cantus_id")
                cantus_id__icontains _ _ D1
                (denotes_cantus_id__icontains db)) as D2.
  pose proof (denotes_Q_and_if db _ (param GET "mode") mode__exact _ _ D2
                (denotes_mode__exact db)) as D3.
  match type of D3 with denotes _ ?q3 ?P3 =>
    assert (D4 : denotes db
                   match param GET "melodies" with
                   | Some melodies =>
                       let q_obj_filter :=
                         if String.eqb melodies "true"
                         then Q_and q3 (volpiano__isnull false) else q3 in
                       if String.eqb melodies "false"
                       then Q_and q_obj_filter (volpiano__isnull true)
                       else q_obj_filter
                   | None => q3
                   end
                   (fun c => P3 c /\ source_melodies_criterion GET c))
  end.
  { unfold source_melodies_criterion, when_given.
    destruct (param GET "melodies") as [m|]; cbv zeta.
    - destruct (String.eqb_spec m "true") as [->|Hnt].
      + simpl. eapply denotes_iff;
          [|apply denotes_Q_and;
            [exact D3 | apply denotes_volpiano__isnull_false]].
        intros c. simpl. split.
        * intros (HP & HV). split; [exact HP|]. intros v [= <-].
          split; [intros _; exact HV | discriminate].
        * intros (HP & HV). split; [exact HP|].
          apply (HV "true"); reflexivity.
      + destruct (String.eqb_spec m "false") as [->|Hnf].
        * eapply denotes_iff;
            [|apply denotes_Q_and;
              [exact D3 | apply denotes_volpiano__isnull_true]].
          intros c. simpl. split.
          -- intros (HP & HV). split; [exact HP|]. intros v [= <-].
             split; [discriminate | intros _; exact HV].
          -- intros (HP & HV). split; [exact HP|].
             apply (HV "false"); reflexivity.
        * eapply denotes_iff; [|exact D3]. intros c. simpl. split; [|tauto].
          intros HP. split; [exact HP|]. intros v [= <-].
          split; intros E; contradiction.
    - eapply denotes_iff; [|exact D3]. intros c. simpl. split; [|tauto].
      intros HP. split; [exact HP | discriminate]. }
  pose proof (denotes_Q_and_if db _ (param GET "feast")
                feast__name__icontains _ _ D4
                (denotes_feast__name__icontains db)) as D5.
  eapply denotes_iff; [|exact D5]. intros c. simpl. tauto.
Qed.

Lemma ChantSearchMSView_q_obj_filter_Ok (GET : QueryDict) (db : DB) :
  numeric_ids GET ->
  exists q, ChantSearchMSView_q_obj_filter GET = Ok q /\ resolves db q.
Proof.
  intros (Hservice & Hgenre). unfold ChantSearchMSView_q_obj_filter.
  assert (R0 : resolves db (Q_and_if Q_all (param GET "service") service__id)).
  { apply resolves_Q_and_if; [resolves_leaf|].
    intros v Hv. apply resolves_service__id, Hservice, Hv. }
  assert (Hmel : forall q3, resolves db q3 ->
            resolves db
              match param GET "melodies" with
              | Some melodies =>
                  let q_obj_filter :=
                    if String.eqb melodies "true"
                    then Q_and q3 (volpiano__isnull false) else q3 in
                  if String.eqb melodies "false"
                  then Q_and q_obj_filter (volpiano__isnull true)
                  else q_obj_filter
              | None => q3
              end).
  { intros q3 R. destruct (param GET "melodies") as [m|]; [|exact R].
    cbv zeta.
    destruct (String.eqb m "true"), (String.eqb m "false");
      repeat (apply resolves_Q_and; [|resolves_leaf]); exact R. }
  destruct (param GET "genre") as [g|] eqn:Eg.
  - destruct (Hgenre g eq_refl) as (n & Hn). rewrite Hn. simpl.
    eexists. split; [reflexivity|].
    apply resolves_Q_and_if; [|resolves_leaf]. apply Hmel.
    repeat (apply resolves_Q_and_if; [|resolves_leaf]).
    apply resolves_Q_and; [exact R0 | resolves_leaf].
  - simpl. eexists. split; [reflexivity|].
    apply resolves_Q_and_if; [|resolves_leaf]. apply Hmel.
    repeat (apply resolves_Q_and_if; [|resolves_leaf]). exact R0.
Qed.

(* ------------------------------------------------------------------ *)
(** ** Ordering *)

Lemma compare_value_antisym (a b : value) :
  compare_value b a = CompOpp (compare_value a b).
Proof.
  destruct a, b; simpl; try reflexivity.
  - apply Z.compare_antisym.
  - apply String.compare_antisym.
Qed.

Lemma compare_key_antisym (k : order_key) (a b : Chant.t) :
  compare_key k b a = CompOpp (compare_key k a b).
Proof.
  destruct k as [[|] col]; simpl; apply compare_value_antisym.
Qed.

Lemma compare_keys_antisym (ks : list order_key) (a b : Chant.t) :
  compare_keys ks b a = CompOpp (compare_keys ks a b).
Proof.
  induction ks as [|k ks IH]; simpl; [reflexivity|].
  rewrite (compare_key_antisym k a b).
  destruct (compare_key k a b); simpl; [exact IH | reflexivity | reflexivity].
Qed.

Lemma leb_keys_total (ks : list order_key) (a b : Chant.t) :
  leb_keys ks a b = false -> leb_keys ks b a = true.
Proof.
  unfold leb_keys. rewrite (compare_keys_antisym ks a b).
  destruct (compare_keys ks a b); simpl; congruence.
Qed.

Lemma leb_keys_ordered_before (desc : bool) (col : Chant.t -> value)
  (a b : Chant.t) :
  leb_keys [(desc, col); (false, id_column)] a b = true <->
  ordered_before desc col a b.
Proof.
  unfold leb_keys, ordered_before, id_column. simpl.
  destruct (if desc then compare_value (col b) (col a)
            else compare_value (col a) (col b)) eqn:E.
  - destruct (Chant.id a ?= Chant.id b) eqn:C.
    + apply Z.compare_eq in C. split; [|reflexivity].
      intros _. right. split; [reflexivity | lia].
    + rewrite Z.compare_lt_iff in C. split; [|reflexivity].
      intros _. right. split; [reflexivity | lia].
    + rewrite Z.compare_gt_iff in C. split; [discriminate|].
      intros [H|(_ & H)]; [discriminate | lia].
  - split; [intros _; left; reflexivity | reflexivity].
  - split; [discriminate|]. intros [H|(H & _)]; discriminate.
Qed.

Lemma assoc_In {A : Type} (k : string) (l : list (string * A)) (a : A) :
  assoc k l = Some a -> In (k, a) l.
Proof.
  induction l as [|[k' a'] l IH]; simpl; [discriminate|].
  destruct (String.eqb_spec k k') as [->|_].
  - intros [= ->]. left. reflexivity.
  - intros H. right. apply IH, H.
Qed.

(** A column name, plain or with "-" in front, is an ordering term. *)
Lemma order_term_column (db : DB) (name : string)
  (col : DB -> Chant.t -> value) (desc : bool) :
  assoc name columns = Some col ->
  order_term db (if desc then "-" ++ name else name) = Some (desc, col db).
Proof.
  intros H. apply assoc_In in H. unfold columns in H. simpl in H.
  repeat (destruct H as [[= <- <-]|H]; [destruct desc; reflexivity|]).
  destruct H.
Qed.

Lemma order_terms_with_id (db : DB) (name : string)
  (col : DB -> Chant.t -> value) (desc : bool) :
  assoc name columns = Some col ->
  order_terms db [if desc then "-" ++ name else name; "id"]
  = Some [(desc, col db); (false, id_column)].
Proof.
  intros H. cbn [order_terms].
  rewrite (order_term_column db name col desc H). reflexivity.
Qed.

Ltac solve_order_case :=
  eexists _, _; (split; [|split]); cycle 1;
  [ reflexivity
  | intros Hn; exfalso; apply Hn; eexists; split; [reflexivity|];
    simpl; tauto
  | reflexivity ].

Ltac solve_order_fallback :=
  eexists _, _; (split; [|split]); cycle 1;
  [ reflexivity | reflexivity | reflexivity ].

Lemma ChantSearchView_order_spec (GET : QueryDict) :
  exists name col,
    assoc name columns = Some col /\
    ChantSearchView_order GET
      = (if sort_desc GET then "-" ++ name else name) /\
    (~ recognized ChantSearchView_keys GET ->
     name = "source__holding_institution__siglum").
Proof.
  unfold ChantSearchView_order, sort_desc, recognized, ChantSearchView_keys.
  assert (Hdir : forall order : string,
             match QueryDict_get GET "sort" with
             | Some sort => if String.eqb sort "desc" then "-" ++ order else order
             | None => order
             end
             = if match QueryDict_get GET "sort" with
                  | Some s => String.eqb s "desc"
                  | None => false
                  end
               then "-" ++ order else order).
  { intros order. destruct (QueryDict_get GET "sort") as [s|];
      [destruct (String.eqb s "desc")|]; reflexivity. }
  rewrite Hdir. clear Hdir.
  destruct (QueryDict_get GET "sort") as [s|]; [destruct (String.eqb s "desc")|];
  (destruct (QueryDict_get GET "order") as [o|];
   [ destruct (existsb (String.eqb o) order_param_options) eqn:Ex;
     [ apply existsb_exists in Ex; destruct Ex as (x & Hin & Heq);
       apply String.eqb_eq in Heq; subst x; simpl in Hin;
       repeat (destruct Hin as [<-|Hin]; [solve_order_case|]); destruct Hin
     | solve_order_fallback ]
   | solve_order_fallback ]).
Qed.

Lemma ChantSearchMSView_order_spec (GET : QueryDict) :
  exists name col,
    assoc name columns = Some col /\
    ChantSearchMSView_order GET
      = (if sort_desc GET then "-" ++ name else name) /\
    (~ recognized ChantSearchMSView_keys GET -> name = "siglum").
Proof.
  unfold ChantSearchMSView_order, sort_desc, recognized, ChantSearchMSView_keys.
  assert (Hdir : forall order : string,
             match param GET "sort" with
             | Some sort => if String.eqb sort "desc" then "-" ++ order else order
             | None => order
             end
             = if match QueryDict_get GET "sort" with
                  | Some s => String.eqb s "desc"
                  | None => false
                  end
               then "-" ++ order else order).
  { intros order. unfold param.
    destruct (QueryDict_get GET "sort") as [s|]; [|reflexivity].
    destruct (String.eqb_spec s "") as [->|_]; [reflexivity|].
    destruct (String.eqb s "desc"); reflexivity. }
  rewrite Hdir. clear Hdir.
  destruct (QueryDict_get GET "sort") as [s|]; [destruct (String.eqb s "desc")|];
  (destruct (QueryDict_get GET "order") as [o|];
   [ destruct (existsb (String.eqb o)
                 ["siglum"; "incipit"; "genre"; "cantus_id"; "mode"; "feast";
                  "service"]) eqn:Ex;
     [ apply existsb_exists in Ex; destruct Ex as (x & Hin & Heq);
       apply String.eqb_eq in Heq; subst x; simpl in Hin;
       repeat (destruct Hin as [<-|Hin]; [solve_order_case|]); destruct Hin
     | destruct (String.eqb_spec o "has_fulltext") as [->|_];
       [ solve_order_case |];
       destruct (String.eqb_spec o "has_melody") as [->|_];
       [ solve_order_case |];
       destruct (String.eqb_spec o "has_image") as [->|_];
       [ solve_order_case |];
       solve_order_fallback ]
   | solve_order_fallback ]).
Qed.

(* ------------------------------------------------------------------ *)
(** ** The search results, by membership *)

Lemma ChantSearchView_search_members
  (auth : bool) (GET : QueryDict) (db : DB) (l : list Chant.t) :
  QueryDict_empty GET = false ->
  param GET "search_bar" = None ->
  ChantSearchView_get_queryset auth GET db = Ok l ->
  forall c, In c l <-> In c (visible auth db) /\ search_criteria GET db c.
Proof.
  intros Hne Hsb H c. unfold ChantSearchView_get_queryset in H.
  rewrite Hne, Hsb in H. inv_bind H as queryset Hq.
  rewrite (order_by_In _ _ _ _ H c). clear H.
  inv_bind Hq as q Hq0. inv_bind Hq as cs Hcs. inv_bind Hq as ss Hss.
  rewrite !negb_if in Hcs, Hss.
  apply QuerySet_filter_Ok in Hcs, Hss.
  destruct Hcs as (p & Hp & ->), Hss as (p' & Hp' & ->).
  assert (p' = p) by congruence; subst p'.
  pose proof (ChantSearchView_q_obj_filter_denotes GET db q Hq0 p Hp c) as Dq.
  inv_bind Hq as sets Hsets. destruct sets as [cs ss]. injection Hq as <-.
  unfold union_all, search_criteria.
  destruct (param GET "keyword") as [keyword|] eqn:Ek.
  - inv_bind Hsets as cs' Hcs'. inv_bind Hsets as ss' Hss'.
    apply QuerySet_filter_Ok in Hcs', Hss'.
    destruct Hcs' as (k & Hk & ->), Hss' as (k' & Hk' & ->).
    assert (k' = k) by congruence; subst k'.
    injection Hsets as <- <-.
    destruct (keyword_filter_resolve db (QueryDict_get GET "op") keyword)
      as (k0 & Hk0 & Dk).
    assert (k0 = k) by congruence; subst k0.
    specialize (Dk c).
    pose proof (filter_visible auth db p c) as V.
    rewrite in_app_iff, !filter_In in V. rewrite in_app_iff, !filter_In.
    unfold when_given. split.
    + intros Hin.
      assert (Hv : In c (visible auth db) /\ p c = true) by tauto.
      assert (Hkc : k c = true) by tauto.
      destruct Hv as (Hv & Hpc). apply Dq in Hpc. apply Dk in Hkc.
      repeat split; try tauto. intros v [= <-]. exact Hkc.
    + intros (Hv & Hcrit).
      assert (Hpc : p c = true) by (apply Dq; tauto).
      assert (Hkc : k c = true).
      { apply Dk. apply Hcrit. reflexivity. }
      tauto.
  - injection Hsets as <- <-.
    rewrite (filter_visible auth db p c), Dq. unfold when_given.
    split.
    + intros (Hv & Hcrit). repeat split; try tauto. discriminate.
    + intros (Hv & Hcrit). tauto.
Qed.

Lemma ChantSearchView_search_Ok
  (auth : bool) (GET : QueryDict) (db : DB) :
  QueryDict_empty GET = false ->
  param GET "search_bar" = None ->
  numeric_ids GET ->
  exists l, ChantSearchView_get_queryset auth GET db = Ok l.
Proof.
  intros Hne Hsb Hnum. unfold ChantSearchView_get_queryset.
  rewrite Hne, Hsb.
  destruct (ChantSearchView_q_obj_filter_Ok GET db Hnum) as (q & Hq & p & Hp).
  rewrite Hq. simpl. unfold QuerySet_filter at 1 2. rewrite Hp. simpl.
  destruct (ChantSearchView_order_spec GET) as (name & col & Hcol & Ho & _).
  rewrite Ho.
  destruct (param GET "keyword") as [keyword|].
  - destruct (resolves_keyword_filter db (QueryDict_get GET "op") keyword)
      as (k & Hk).
    unfold QuerySet_filter. rewrite Hk. simpl.
    unfold order_by. rewrite (order_terms_with_id db name col _ Hcol).
    eexists. reflexivity.
  - simpl. unfold order_by. rewrite (order_terms_with_id db name col _ Hcol).
    eexists. reflexivity.
Qed.

Lemma not_excluded (source_pk : Z) (GET : QueryDict) :
  ~ excluded source_pk GET ->
  match QueryDict_get GET "melodies" with
  | Some m => String.eqb m "true"
  | None => false
  end && (source_pk =? 680970) = false.
Proof.
  unfold excluded. intros H.
  destruct (QueryDict_get GET "melodies") as [m|]; [|reflexivity].
  destruct (String.eqb_spec m "true") as [->|_]; [|reflexivity].
  destruct (Z.eqb_spec source_pk 680970) as [->|_]; [|reflexivity].
  exfalso. apply H. split; reflexivity.
Qed.

Lemma indexing_notes_filter_resolve (db : DB) (op : option string)
  (notes : string) :
  exists p,
    resolve db
      (if match op with
          | Some o => String.eqb o "contains"
          | None => false
          end
       then indexing_notes__icontains notes
       else indexing_notes__istartswith notes) = Ok p /\
    forall c,
      p c = true <->
      (op = Some "contains" -> isubstring notes (Chant.indexing_notes c)) /\
      (op <> Some "contains" -> iprefix notes (Chant.indexing_notes c)).
Proof.
  destruct op as [o|]; [destruct (String.eqb_spec o "contains") as [->|Hne]|];
    simpl; eexists; (split; [reflexivity|]); intros c;
    rewrite ?lookup_icontains_spec, ?lookup_istartswith_spec.
  - split; [intros H; split; [intros _; exact H | congruence] |].
    intros (H & _). apply H. reflexivity.
  - split; [intros H; split; [congruence | intros _; exact H] |].
    intros (_ & H). apply H. congruence.
  - split; [intros H; split; [discriminate | intros _; exact H] |].
    intros (_ & H). apply H. discriminate.
Qed.

Lemma ChantSearchMSView_search_members
  (source_pk : Z) (GET : QueryDict) (db : DB) (l : list Chant.t) :
  QueryDict_empty GET = false ->
  ~ excluded source_pk GET ->
  ChantSearchMSView_get_queryset source_pk GET db = Ok l ->
  forall c,
    In c l <->
    In c (source_records db source_pk) /\
    source_search_criteria GET db c /\
    source_melodies_criterion GET c /\
    keyword_criterion GET c.
Proof.
  intros Hne Hex H c. unfold ChantSearchMSView_get_queryset in H.
  rewrite Hne, (not_excluded _ _ Hex) in H.
  inv_bind H as q Hq. inv_bind H as source Hsource.
  inv_bind H as segment_id Hseg. inv_bind H as qs Hqs.
  inv_bind H as qs1 Hqs1. inv_bind H as qs2 Hqs2.
  rewrite (order_by_In _ _ _ _ H c). clear H.
  unfold source_records.
  destruct (Source_find db source_pk) as [s|] eqn:Es; [|discriminate].
  injection Hsource as <-.
  destruct (Source.segment s) as [seg|]; [|discriminate].
  injection Hseg as <-.
  rewrite (Source_find_id _ _ _ Es) in Hqs.
  apply QuerySet_filter_Ok in Hqs. destruct Hqs as (p & Hp & ->).
  pose proof (ChantSearchMSView_q_obj_filter_denotes GET db q Hq p Hp c) as Dq.
  assert (D1 : In c qs1 <->
               In c (filter p
                       (filter (fun c0 => option_Z_eqb (Chant.source c0) source_pk)
                          (if seg =? 4064 then Sequence_objects db
                           else Chant_objects db))) /\
               keyword_criterion GET c).
  { unfold keyword_criterion, when_given.
    destruct (param GET "keyword") as [keyword|].
    - destruct (keyword_filter_resolve db (QueryDict_get GET "op") keyword)
        as (k & Hk & Dk).
      unfold QuerySet_filter in Hqs1. rewrite Hk in Hqs1. simpl in Hqs1.
      injection Hqs1 as <-. rewrite filter_In, (Dk c). split.
      + intros (Hin & Hm). split; [exact Hin|]. intros v [= <-]. exact Hm.
      + intros (Hin & Hm). split; [exact Hin | apply Hm; reflexivity].
    - injection Hqs1 as <-. split; [|tauto].
      intros Hin. split; [exact Hin | discriminate]. }
  assert (D2 : In c qs2 <->
               In c qs1 /\
               when_given (param GET "indexing_notes")
                 (fun v =>
                    (QueryDict_get GET "indexing_notes_op" = Some "contains" ->
                     isubstring v (Chant.indexing_notes c)) /\
                    (QueryDict_get GET "indexing_notes_op" <> Some "contains" ->
                     iprefix v (Chant.indexing_notes c)))).
  { unfold when_given. destruct (param GET "indexing_notes") as [notes|].
    - destruct (indexing_notes_filter_resolve db
                  (QueryDict_get GET "indexing_notes_op") notes)
        as (k & Hk & Dk).
      unfold QuerySet_filter in Hqs2. rewrite Hk in Hqs2. simpl in Hqs2.
      injection Hqs2 as <-. rewrite filter_In, (Dk c). split.
      + intros (Hin & Hm). split; [exact Hin|]. intros v [= <-]. exact Hm.
      + intros (Hin & Hm). split; [exact Hin | apply Hm; reflexivity].
    - injection Hqs2 as <-. split; [|tauto].
      intros Hin. split; [exact Hin | discriminate]. }
  rewrite D2, D1, filter_In, Dq. unfold source_search_criteria. tauto.
Qed.

Lemma ChantSearchMSView_search_Ok
  (source_pk : Z) (GET : QueryDict) (db : DB) (s : Source.t) (seg : Z) :
  QueryDict_empty GET = false ->
  ~ excluded source_pk GET ->
  numeric_ids GET ->
  Source_find db source_pk = Some s ->
  Source.segment s = Some seg ->
  exists l, ChantSearchMSView_get_queryset source_pk GET db = Ok l.
Proof.
  intros Hne Hex Hnum Hs Hseg. unfold ChantSearchMSView_get_queryset.
  rewrite Hne, (not_excluded _ _ Hex).
  destruct (ChantSearchMSView_q_obj_filter_Ok GET db Hnum)
    as (q & Hq & p & Hp).
  rewrite Hq, Hs. simpl. rewrite Hseg. simpl.
  unfold QuerySet_filter at 1. rewrite Hp. simpl.
  destruct (ChantSearchMSView_order_spec GET) as (name & col & Hcol & Ho & _).
  rewrite Ho. unfold order_by.
  rewrite (order_terms_with_id db name col _ Hcol).
  destruct (param GET "keyword") as [keyword|];
    [ destruct (resolves_keyword_filter db (QueryDict_get GET "op") keyword)
        as (k & Hk);
      unfold QuerySet_filter at 1; rewrite Hk; simpl | simpl ];
    (destruct (param GET "indexing_notes") as [notes|];
     [ destruct (indexing_notes_filter_resolve db
                   (QueryDict_get GET "indexing_notes_op") notes)
         as (k' & Hk' & _);
       unfold QuerySet_filter; rewrite Hk'; simpl | simpl ]);
    eexists; reflexivity.
Qed.

(* ------------------------------------------------------------------ *)
(** ** Visibility of unpublished sources *)

Lemma source__published_spec (db : DB) (c : Chant.t) :
  source__published db c = true <-> owning_source_published db c.
Proof.
  unfold source__published, owning_source_published.
  destruct (Chant_source db c) as [s|]; split.
  - intros H. exists s. auto.
  - intros (s' & E & H). congruence.
  - discriminate.
  - intros (s' & E & _). discriminate.
Qed.

(** The search result is drawn from the rows the caller may see. *)
Lemma ChantSearchView_get_queryset_visible
  (auth : bool) (GET : QueryDict) (db : DB) (l : list Chant.t) :
  ChantSearchView_get_queryset auth GET db = Ok l ->
  forall c, In c l -> In c (visible auth db).
Proof.
  unfold ChantSearchView_get_queryset.
  destruct (QueryDict_empty GET); [intros [= <-] c []|].
  intros H c Hc. inv_bind H as queryset Hq.
  apply (order_by_In _ _ _ _ H) in Hc. clear H.
  destruct (param GET "search_bar") as [search_bar|].
  - destruct (existsb isdigit (list_ascii_of_string search_bar));
      inv_bind Hq as cs Hcs; inv_bind Hq as ss Hss;
      apply QuerySet_filter_Ok in Hcs, Hss;
      destruct Hcs as (p & Hp & ->), Hss as (p' & Hp' & ->);
      assert (p' = p) by congruence; subst p';
      injection Hq as <-; unfold union_all in Hc;
      apply filter_visible in Hc; tauto.
  - inv_bind Hq as q Hgenre. inv_bind Hq as cs Hcs. inv_bind Hq as ss Hss.
    rewrite !negb_if in Hcs, Hss.
    apply QuerySet_filter_Ok in Hcs, Hss.
    destruct Hcs as (p & Hp & ->), Hss as (p' & Hp' & ->).
    assert (p' = p) by congruence; subst p'.
    inv_bind Hq as sets Hsets. destruct sets as [cs ss]. injection Hq as <-.
    assert (Hsub : forall x, In x (union_all cs ss) ->
                     In x (visible auth db)).
    { destruct (param GET "keyword") as [keyword|].
      - inv_bind Hsets as cs' Hcs'. inv_bind Hsets as ss' Hss'.
        apply QuerySet_filter_Ok in Hcs', Hss'.
        destruct Hcs' as (k & Hk & ->), Hss' as (k' & Hk' & ->).
        injection Hsets as <- <-. intros x Hx. unfold union_all in Hx.
        eapply proj1, (filter_visible auth db p x).
        apply in_app_or in Hx. apply in_or_app.
        destruct Hx as [Hx|Hx]; apply filter_In in Hx; tauto.
      - injection Hsets as <- <-. intros x Hx.
        eapply proj1, (filter_visible auth db p x). exact Hx. }
    apply Hsub, Hc.
Qed.

Lemma Paginator_page_Ok {A : Type} (per_page : nat) (rows page : list A)
  (number : Z) :
  Paginator_page per_page rows number = Ok page ->
  1 <= number /\
  page = firstn per_page (skipn ((Z.to_nat number - 1) * per_page) rows).
Proof.
  unfold Paginator_page.
  destruct (number <? 1) eqn:E1; [discriminate|].
  destruct (_ <? number); [discriminate|].
  intros [= <-]. apply Z.ltb_ge in E1. split; [exact E1 | reflexivity].
Qed.

Lemma paginate_queryset_Ok {A : Type} (GET : QueryDict) (rows page : list A) :
  paginate_queryset GET rows = Ok page ->
  exists number,
    Paginator_page paginate_by rows number = Ok page.
Proof.
  unfold paginate_queryset.
  destruct (param GET "page") as [p|]; [|intros H; exists 1; exact H].
  destruct (int p) as [n|e]; [intros H; exists n; exact H|].
  destruct (String.eqb p "last"); [|discriminate].
  intros H. eexists. exact H.
Qed.

Lemma In_firstn {A : Type} (n : nat) (l : list A) (x : A) :
  In x (firstn n l) -> In x l.
Proof.
  intros H. rewrite <- (firstn_skipn n l). apply in_or_app. left. exact H.
Qed.

Lemma In_skipn {A : Type} (n : nat) (l : list A) (x : A) :
  In x (skipn n l) -> In x l.
Proof.
  intros H. rewrite <- (firstn_skipn n l). apply in_or_app. right. exact H.
Qed.

Lemma paginate_queryset_incl {A : Type} (GET : QueryDict)
  (rows page : list A) :
  paginate_queryset GET rows = Ok page -> incl page rows.
Proof.
  intros H. apply paginate_queryset_Ok in H. destruct H as (n & H).
  apply Paginator_page_Ok in H. destruct H as (_ & ->).
  intros x Hx. apply In_firstn in Hx.
  eapply In_skipn, Hx.
Qed.

Lemma ChantByCantusIDView_get_queryset_visible
  (auth : bool) (cantus_id : string) (db : DB) (l : list Chant.t) :
  ChantByCantusIDView_get_queryset auth cantus_id db = Ok l ->
  forall c, In c l -> In c (visible auth db).
Proof.
  unfold ChantByCantusIDView_get_queryset. intros H c Hc.
  apply (order_by_In _ _ _ _ H) in Hc. clear H.
  unfold union in Hc. apply nodup_In in Hc.
  unfold visible. destruct auth; simpl in Hc;
    rewrite in_app_iff, ?filter_In in *; tauto.
Qed.

(** The rows of the per-source search belong to the source searched. *)
Lemma ChantSearchMSView_get_queryset_source
  (source_pk : Z) (GET : QueryDict) (db : DB) (l : list Chant.t) :
  ChantSearchMSView_get_queryset source_pk GET db = Ok l ->
  forall c, In c l -> Chant.source c = Some source_pk.
Proof.
  unfold ChantSearchMSView_get_queryset.
  destruct (QueryDict_empty GET); [intros [= <-] c []|].
  destruct (_ && _); [intros [= <-] c []|].
  intros H c Hc.
  inv_bind H as q Hq. inv_bind H as source Hsource.
  inv_bind H as segment_id Hseg. inv_bind H as qs Hqs.
  inv_bind H as qs1 Hqs1. inv_bind H as qs2 Hqs2.
  apply (order_by_In _ _ _ _ H) in Hc. clear H.
  assert (Hin2 : In c qs1).
  { destruct (param GET "indexing_notes").
    - apply QuerySet_filter_Ok in Hqs2. destruct Hqs2 as (p & _ & ->).
      apply filter_In in Hc. tauto.
    - congruence. }
  assert (Hin1 : In c qs).
  { destruct (param GET "keyword").
    - apply QuerySet_filter_Ok in Hqs1. destruct Hqs1 as (p & _ & ->).
      apply filter_In in Hin2. tauto.
    - congruence. }
  apply QuerySet_filter_Ok in Hqs. destruct Hqs as (p & _ & ->).
  apply filter_In in Hin1. destruct Hin1 as (Hin1 & _).
  apply filter_In in Hin1. destruct Hin1 as (_ & Hs).
  apply option_Z_eqb_eq in Hs. rewrite Hs. f_equal.
  destruct (Source_find db source_pk) as [s|] eqn:E; [|discriminate].
  injection Hsource as <-. apply Source_find_id in E. exact E.
Qed.

Lemma resolve_published_db (db : DB) (q : Q) :
  resolve (published_db db) q = resolve db q.
Proof.
  induction q; simpl; try reflexivity; rewrite IHq1, IHq2; reflexivity.
Qed.

Lemma QuerySet_filter_published_db (db : DB) (q : Q) (rows : list Chant.t) :
  QuerySet_filter (published_db db) q rows = QuerySet_filter db q rows.
Proof. unfold QuerySet_filter. rewrite resolve_published_db. reflexivity. Qed.

Lemma order_term_published_db (db : DB) (term : string) :
  order_term (published_db db) term = order_term db term.
Proof.
  unfold order_term.
  destruct (match term with String "-" name => (true, name) | _ => (false, term) end)
    as [desc name].
  unfold columns, assoc.
  repeat (destruct (String.eqb name _); [reflexivity|]).
  reflexivity.
Qed.

Lemma order_by_published_db (db : DB) (terms : list string)
  (rows : list Chant.t) :
  order_by (published_db db) terms rows = order_by db terms rows.
Proof.
  unfold order_by.
  assert (E : order_terms (published_db db) terms = order_terms db terms).
  { induction terms as [|t ts IH]; simpl; [reflexivity|].
    rewrite order_term_published_db, IH. reflexivity. }
  rewrite E. reflexivity.
Qed.

Lemma filter_comm {A : Type} (p q : A -> bool) (l : list A) :
  filter p (filter q l) = filter q (filter p l).
Proof.
  induction l as [|x l IH]; simpl; [reflexivity|].
  destruct (q x) eqn:Q, (p x) eqn:P; simpl; rewrite ?Q, ?P, IH; reflexivity.
Qed.

Lemma ChantSearchView_prefiltered (GET : QueryDict) (db : DB) :
  ChantSearchView_get_queryset false GET db =
  ChantSearchView_get_queryset true GET (published_db db).
Proof.
  unfold ChantSearchView_get_queryset.
  destruct (QueryDict_empty GET); [reflexivity|].
  apply bind_ext; [|intros; symmetry; apply order_by_published_db].
  destruct (param GET "search_bar") as [search_bar|].
  - destruct (existsb isdigit (list_ascii_of_string search_bar));
      (apply bind_ext;
       [symmetry; apply QuerySet_filter_published_db | intros cs]);
      (apply bind_ext;
       [symmetry; apply QuerySet_filter_published_db | reflexivity]).
  - apply bind_ext; [reflexivity | intros q]. simpl.
    apply bind_ext;
      [symmetry; apply QuerySet_filter_published_db | intros cs].
    apply bind_ext;
      [symmetry; apply QuerySet_filter_published_db | intros ss].
    apply bind_ext; [|reflexivity].
    destruct (param GET "keyword"); [|reflexivity].
    apply bind_ext;
      [symmetry; apply QuerySet_filter_published_db | intros cs'].
    apply bind_ext;
      [symmetry; apply QuerySet_filter_published_db | reflexivity].
Qed.

Lemma ChantByCantusIDView_prefiltered (cantus_id : string) (db : DB) :
  ChantByCantusIDView_get_queryset false cantus_id db =
  ChantByCantusIDView_get_queryset true cantus_id (published_db db).
Proof.
  unfold ChantByCantusIDView_get_queryset. simpl.
  rewrite order_by_published_db.
  rewrite (filter_comm _ _ (Chant_objects db)).
  rewrite (filter_comm _ _ (Sequence_objects db)). reflexivity.
Qed.

Lemma Forall_published_of_visible (db : DB) (l : list Chant.t) :
  (forall c, In c l -> In c (visible false db)) ->
  Forall (owning_source_published db) l.
Proof.
  intros H. apply Forall_forall. intros c Hc.
  apply source__published_spec, visible_false_published, H, Hc.
Qed.

(** C1.  An unauthenticated caller receives no record of an unpublished
    source: every record of the global search, of the by-Cantus-ID listing
    and of the page a per-source search answers with belongs to a published
    source, whatever the request parameters.  For the two views that merge
    chants and sequences the restriction comes first: the unauthenticated
    result is the result computed over the two collections cut down to the
    records of published sources. *)
Theorem unauthenticated_published_only (GET : QueryDict) (db : DB) :
  (forall l,
      ChantSearchView_get_queryset false GET db = Ok l ->
      Forall (owning_source_published db) l) /\
  (forall page,
      ChantSearchView_get false GET db = Ok page ->
      Forall (owning_source_published db) page) /\
  (forall source_pk path ctx,
      ChantSearchMSView_get false source_pk path GET db = Ok ctx ->
      Forall (owning_source_published db) (Context.chants ctx)) /\
  (forall cantus_id l,
      ChantByCantusIDView_get_queryset false cantus_id db = Ok l ->
      Forall (owning_source_published db) l) /\
  (forall cantus_id page,
      ChantByCantusIDView_get false cantus_id GET db = Ok page ->
      Forall (owning_source_published db) page) /\
  ChantSearchView_get_queryset false GET db =
    ChantSearchView_get_queryset true GET (published_db db) /\
  (forall cantus_id,
      ChantByCantusIDView_get_queryset false cantus_id db =
      ChantByCantusIDView_get_queryset true cantus_id (published_db db)).
Proof.
  repeat split.
  - intros l H. apply Forall_published_of_visible.
    apply (ChantSearchView_get_queryset_visible _ _ _ _ H).
  - intros page H. unfold ChantSearchView_get in H.
    inv_bind H as l Hl. apply Forall_published_of_visible. intros c Hc.
    apply (ChantSearchView_get_queryset_visible _ _ _ _ Hl).
    apply (paginate_queryset_incl _ _ _ H), Hc.
  - intros source_pk path ctx H. unfold ChantSearchMSView_get in H.
    inv_bind H as l Hl. unfold ChantSearchMSView_get_context_data in H.
    inv_bind H as page Hpage. inv_bind H as s Hs.
    destruct (Source_find db source_pk) as [s'|] eqn:E; [|discriminate].
    injection Hs as ->.
    destruct (Source.published s) eqn:P; simpl in H; [|discriminate].
    injection H as <-. simpl. apply Forall_forall. intros c Hc.
    exists s. split; [|exact P].
    unfold Chant_source.
    rewrite (ChantSearchMSView_get_queryset_source _ _ _ _ Hl c).
    + exact E.
    + apply (paginate_queryset_incl _ _ _ Hpage), Hc.
  - intros cantus_id l H. apply Forall_published_of_visible.
    apply (ChantByCantusIDView_get_queryset_visible _ _ _ _ H).
  - intros cantus_id page H. unfold ChantByCantusIDView_get in H.
    inv_bind H as l Hl. apply Forall_published_of_visible. intros c Hc.
    apply (ChantByCantusIDView_get_queryset_visible _ _ _ _ Hl).
    apply (paginate_queryset_incl _ _ _ H), Hc.
  - apply ChantSearchView_prefiltered.
  - intros cantus_id. apply ChantByCantusIDView_prefiltered.
Qed.

Lemma unauthenticated_published_only_witness :
  ChantSearchView_get_queryset false [("keyword", "b"); ("op", "contains")]
    example_db = Ok [] /\
  ChantSearchView_get_queryset true [("keyword", "b"); ("op", "contains")]
    example_db = Ok [chant_3] /\
  ChantSearchView_get_queryset false [("keyword", "alleluia")] example_db
    = Ok [chant_1; sequence_1] /\
  Forall (owning_source_published example_db) [chant_1; sequence_1] /\
  ChantSearchMSView_get false 11 "/chant-search-ms/11" [("mode", "1")]
    example_db = Raise PermissionDenied /\
  exists ctx,
    ChantSearchMSView_get false 10 "/chant-search-ms/10"
      [("melodies", "true")] example_db = Ok ctx /\
    Context.chants ctx = [chant_1] /\
    Forall (owning_source_published example_db) (Context.chants ctx).
Proof.
  split; [vm_compute; reflexivity|].
  split; [vm_compute; reflexivity|].
  split; [vm_compute; reflexivity|].
  split.
  { apply (proj1 (unauthenticated_published_only
                    [("keyword", "alleluia")] example_db)).
    vm_compute. reflexivity. }
  split; [vm_compute; reflexivity|].
  eexists. split; [vm_compute; reflexivity|].
  split; [reflexivity|].
  apply (proj1 (proj2 (proj2 (unauthenticated_published_only
                                [("melodies", "true")] example_db)))
           10 "/chant-search-ms/10").
  vm_compute. reflexivity.
Defined.

(* ------------------------------------------------------------------ *)
(** ** The global search returns the conjunction of the criteria *)

Lemma QueryDict_get_nonempty (GET : QueryDict) (k v : string) :
  QueryDict_get GET k = Some v -> QueryDict_empty GET = false.
Proof. destruct GET; [discriminate | reflexivity]. Qed.

Lemma param_QueryDict_get (GET : QueryDict) (k v : string) :
  param GET k = Some v -> QueryDict_get GET k = Some v.
Proof.
  unfold param. destruct (QueryDict_get GET k) as [w|]; [|discriminate].
  destruct (String.eqb w ""); [discriminate | trivial].
Qed.

(** C2, as stated, fails at three kinds of request: with no GET parameter
    at all the search returns nothing although no criterion is given; with
    the search_bar parameter the other parameters are not applied; with a
    genre that is no number the search raises instead of returning. *)
Lemma search_returns_conjunction_counterexample :
  (exists l,
      ChantSearchView_get_queryset true [] example_db = Ok l /\
      ~ (forall c, In c l <->
                   In c (visible true example_db) /\
                   search_criteria [] example_db c)) /\
  (exists l,
      ChantSearchView_get_queryset true
        [("search_bar", "cantate"); ("feast", "nativitas")] example_db = Ok l /\
      ~ (forall c, In c l <->
                   In c (visible true example_db) /\
                   search_criteria
                     [("search_bar", "cantate"); ("feast", "nativitas")]
                     example_db c)) /\
  ChantSearchView_get_queryset true [("genre", "antiphon")] example_db
    = Raise ValueError.
Proof.
  split; [|split].
  - exists []. split; [reflexivity|]. intros H.
    apply (proj2 (H chant_1)). split.
    + left. reflexivity.
    + unfold search_criteria, when_given. simpl.
      repeat split; discriminate.
  - exists [chant_2]. split; [vm_compute; reflexivity|]. intros H.
    assert (Hin : In chant_2 [chant_2]) by (left; reflexivity).
    apply H in Hin. destruct Hin as (_ & Hc).
    destruct Hc as (_ & _ & _ & _ & _ & _ & Hfeast & _).
    specialize (Hfeast "nativitas" eq_refl).
    apply lookup_icontains_spec in Hfeast. vm_compute in Hfeast.
    discriminate.
  - vm_compute. reflexivity.
Qed.

(** C2, amended.  For a request with at least one GET parameter, without
    search_bar, whose service and genre parameters (when given) are
    numbers, the global search returns exactly the records of the unfiltered
    set (those the caller may see) that satisfy the conjunction of the
    sub-predicates of the parameters given, an absent parameter constraining
    nothing and melodies constraining only with the value "true"; so the
    result lies within the unfiltered set. *)
Theorem search_returns_conjunction
  (auth : bool) (GET : QueryDict) (db : DB) :
  QueryDict_empty GET = false ->
  param GET "search_bar" = None ->
  numeric_ids GET ->
  exists l,
    ChantSearchView_get_queryset auth GET db = Ok l /\
    (forall c, In c l <->
               In c (visible auth db) /\ search_criteria GET db c) /\
    incl l (visible auth db).
Proof.
  intros Hne Hsb Hnum.
  destruct (ChantSearchView_search_Ok auth GET db Hne Hsb Hnum) as (l & Hl).
  exists l. split; [exact Hl|].
  pose proof (ChantSearchView_search_members auth GET db l Hne Hsb Hl) as M.
  split; [exact M|]. intros c Hc. apply M in Hc. tauto.
Qed.

Lemma search_returns_conjunction_witness :
  exists l,
    ChantSearchView_get_queryset true
      [("feast", "nativ"); ("melodies", "true")] example_db = Ok l /\
    (forall c, In c l <->
               In c (visible true example_db) /\
               search_criteria [("feast", "nativ"); ("melodies", "true")]
                 example_db c) /\
    incl l (visible true example_db).
Proof.
  apply search_returns_conjunction.
  - reflexivity.
  - reflexivity.
  - split; intros v H; vm_compute in H; discriminate H.
Defined.

(* ------------------------------------------------------------------ *)
(** ** Ordering of the search results *)

Lemma Sorted_weaken {A : Type} (R R' : A -> A -> Prop) (l : list A) :
  (forall a b, R a b -> R' a b) -> Sorted R l -> Sorted R' l.
Proof.
  intros HR. induction 1 as [|a l Hs IH Hd]; constructor.
  - exact IH.
  - destruct Hd; constructor. apply HR. assumption.
Qed.

Lemma order_by_sorted (db : DB) (name : string)
  (col : DB -> Chant.t -> value) (desc : bool) (rows l : list Chant.t) :
  assoc name columns = Some col ->
  order_by db [if desc then "-" ++ name else name; "id"] rows = Ok l ->
  Sorted (ordered_before desc (col db)) l.
Proof.
  intros Hcol H. unfold order_by in H.
  rewrite (order_terms_with_id db name col desc Hcol) in H.
  injection H as <-.
  eapply Sorted_weaken;
    [|apply sort_sorted; intros a b; apply leb_keys_total].
  intros a b Hab. apply leb_keys_ordered_before, Hab.
Qed.

Lemma institution_siglum_columns :
  assoc "source__holding_institution__siglum" columns
    = Some institution_siglum /\
  assoc "siglum" columns = Some institution_siglum.
Proof. split; reflexivity. Qed.

(** C3.  The result of either search view is ordered by a primary column
    and then by id: neighbours are in the order of the primary column taken
    in the direction asked for (reversed for sort = "desc"), or tie on it and
    have ascending ids, in both directions.  When the order parameter is
    missing or is not one of the keys the view knows, the primary column is
    the siglum of the institution holding the record's source.  The terms
    the views hand to [order_by] are always columns, the second one "id". *)
Theorem ordering_fallback_and_tiebreak (GET : QueryDict) (db : DB) :
  (exists primary,
      order_terms db [ChantSearchView_order GET; "id"]
        = Some [(sort_desc GET, primary); (false, id_column)] /\
      (~ recognized ChantSearchView_keys GET ->
       primary = institution_siglum db) /\
      forall auth l,
        ChantSearchView_get_queryset auth GET db = Ok l ->
        Sorted (ordered_before (sort_desc GET) primary) l) /\
  (exists primary,
      order_terms db [ChantSearchMSView_order GET; "id"]
        = Some [(sort_desc GET, primary); (false, id_column)] /\
      (~ recognized ChantSearchMSView_keys GET ->
       primary = institution_siglum db) /\
      forall source_pk l,
        ChantSearchMSView_get_queryset source_pk GET db = Ok l ->
        Sorted (ordered_before (sort_desc GET) primary) l).
Proof.
  split.
  - destruct (ChantSearchView_order_spec GET) as (name & col & Hcol & Ho & Hf).
    exists (col db). split; [|split].
    + rewrite Ho. apply order_terms_with_id, Hcol.
    + intros Hn. rewrite (Hf Hn) in Hcol.
      destruct institution_siglum_columns as (E & _).
      rewrite E in Hcol. injection Hcol as <-. reflexivity.
    + intros auth l H. unfold ChantSearchView_get_queryset in H.
      destruct (QueryDict_empty GET); [injection H as <-; constructor|].
      inv_bind H as queryset Hq. rewrite Ho in H.
      apply (order_by_sorted db name col _ _ _ Hcol H).
  - destruct (ChantSearchMSView_order_spec GET)
      as (name & col & Hcol & Ho & Hf).
    exists (col db). split; [|split].
    + rewrite Ho. apply order_terms_with_id, Hcol.
    + intros Hn. rewrite (Hf Hn) in Hcol.
      destruct institution_siglum_columns as (_ & E).
      rewrite E in Hcol. injection Hcol as <-. reflexivity.
    + intros source_pk l H. unfold ChantSearchMSView_get_queryset in H.
      destruct (QueryDict_empty GET); [injection H as <-; constructor|].
      destruct (_ && _); [injection H as <-; constructor|].
      inv_bind H as q Hq. inv_bind H as source Hsource.
      inv_bind H as segment_id Hseg. inv_bind H as qs Hqs.
      inv_bind H as qs1 Hqs1. inv_bind H as qs2 Hqs2.
      rewrite Ho in H.
      apply (order_by_sorted db name col _ _ _ Hcol H).
Qed.

Lemma ordering_fallback_and_tiebreak_witness :
  ChantSearchView_get_queryset true [("order", "folio"); ("sort", "desc")]
    example_db = Ok [chant_1; sequence_1; chant_2; chant_3] /\
  Sorted (ordered_before true (institution_siglum example_db))
         [chant_1; sequence_1; chant_2; chant_3].
Proof.
  split; [vm_compute; reflexivity|].
  destruct (proj1 (ordering_fallback_and_tiebreak
                     [("order", "folio"); ("sort", "desc")] example_db))
    as (primary & _ & Hfallback & Hsorted).
  rewrite <- Hfallback.
  - apply (Hsorted true). vm_compute. reflexivity.
  - intros (k & Hk & Hin). vm_compute in Hk. injection Hk as <-.
    simpl in Hin. repeat (destruct Hin as [Hin|Hin]; [discriminate Hin|]).
    destruct Hin.
Defined.

(* ------------------------------------------------------------------ *)
(** ** Pagination *)

Lemma QueryDict_get_app (GET : QueryDict) (k0 v k : string) :
  QueryDict_get (GET ++ [(k0, v)])%list k
  = if String.eqb k0 k then Some v else QueryDict_get GET k.
Proof.
  induction GET as [|[k1 v1] GET IH]; simpl.
  - reflexivity.
  - rewrite IH. destruct (String.eqb k0 k); reflexivity.
Qed.

Lemma QueryDict_empty_app (GET : QueryDict) (kv : string * string) :
  QueryDict_empty (GET ++ [kv])%list = false.
Proof. destruct GET; reflexivity. Qed.

(** The page parameter does not enter the queryset. *)
Lemma ChantSearchView_get_queryset_page
  (auth : bool) (GET : QueryDict) (db : DB) (p p' : string) :
  ChantSearchView_get_queryset auth (with_page GET p) db
  = ChantSearchView_get_queryset auth (with_page GET p') db.
Proof.
  unfold ChantSearchView_get_queryset, ChantSearchView_q_obj_filter,
    ChantSearchView_order, param, with_page.
  rewrite !QueryDict_empty_app, !QueryDict_get_app. simpl. reflexivity.
Qed.

Lemma param_page (GET : QueryDict) (p : string) (n : Z) :
  int p = Ok n -> param (with_page GET p) "page" = Some p.
Proof.
  intros H. unfold param, with_page. rewrite QueryDict_get_app. simpl.
  destruct (String.eqb_spec p "") as [->|_]; [discriminate H | reflexivity].
Qed.

Lemma num_pages_bound (count : nat) (n : Z) :
  1 <= n ->
  (Z.of_nat (num_pages paginate_by count) <? n + 1) = false ->
  (Z.to_nat n * paginate_by < count)%nat.
Proof.
  unfold num_pages, paginate_by. intros Hn H. apply Z.ltb_ge in H.
  assert (Hdiv : (Z.to_nat n + 1 <= (Nat.max 1 count + 100 - 1) / 100)%nat)
    by lia.
  assert (Hmul : ((Z.to_nat n + 1) * 100 <= Nat.max 1 count + 100 - 1)%nat).
  { pose proof (Nat.div_mod_eq (Nat.max 1 count + 100 - 1) 100) as E.
    nia. }
  lia.
Qed.

Lemma NoDup_app_disjoint {A : Type} (a b : list A) (x : A) :
  NoDup (a ++ b) -> In x a -> ~ In x b.
Proof.
  induction a as [|y a IH]; simpl; [tauto|].
  intros H. inversion H as [|? ? Hy Hn]; subst.
  intros [->|Hx] Hb.
  - apply Hy, in_or_app. right. exact Hb.
  - exact (IH Hn Hx Hb).
Qed.

Lemma NoDup_filter_app {A : Type} (f g : A -> bool) (a b : list A) :
  NoDup (a ++ b) -> NoDup (filter f a ++ filter g b).
Proof.
  induction a as [|x a IH]; simpl.
  - apply NoDup_filter.
  - intros H. inversion H as [|? ? Hx Hn]; subst.
    destruct (f x); [|apply IH, Hn].
    simpl. constructor; [|apply IH, Hn].
    intros Hin. apply Hx. apply in_app_or in Hin. apply in_or_app.
    destruct Hin as [Hin|Hin]; apply filter_In in Hin; tauto.
Qed.

Lemma NoDup_sort {A : Type} (leb : A -> A -> bool) (l : list A) :
  NoDup l -> NoDup (sort leb l).
Proof.
  apply Permutation_NoDup, Permutation_sym, sort_perm.
Qed.

(** Distinct stored rows give a result without repetition. *)
Lemma ChantSearchView_get_queryset_NoDup
  (auth : bool) (GET : QueryDict) (db : DB) (l : list Chant.t) :
  NoDup (Chant_objects db ++ Sequence_objects db) ->
  ChantSearchView_get_queryset auth GET db = Ok l -> NoDup l.
Proof.
  intros Hnd. unfold ChantSearchView_get_queryset.
  destruct (QueryDict_empty GET); [intros [= <-]; constructor|].
  intros H. inv_bind H as queryset Hq.
  apply order_by_Ok in H. destruct H as (ks & _ & ->).
  apply NoDup_sort.
  assert (Hbase : NoDup
            ((if auth then Chant_objects db
              else filter (source__published db) (Chant_objects db)) ++
             (if auth then Sequence_objects db
              else filter (source__published db) (Sequence_objects db)))).
  { destruct auth; [exact Hnd | apply NoDup_filter_app, Hnd]. }
  destruct (param GET "search_bar") as [search_bar|].
  - destruct (existsb isdigit (list_ascii_of_string search_bar));
      inv_bind Hq as cs Hcs; inv_bind Hq as ss Hss;
      apply QuerySet_filter_Ok in Hcs, Hss;
      destruct Hcs as (p & Hp & ->), Hss as (p' & Hp' & ->);
      injection Hq as <-; apply NoDup_filter_app, Hbase.
  - inv_bind Hq as q Hq0. inv_bind Hq as cs Hcs. inv_bind Hq as ss Hss.
    rewrite !negb_if in Hcs, Hss.
    apply QuerySet_filter_Ok in Hcs, Hss.
    destruct Hcs as (p & Hp & ->), Hss as (p' & Hp' & ->).
    inv_bind Hq as sets Hsets. destruct sets as [cs ss]. injection Hq as <-.
    destruct (param GET "keyword") as [keyword|].
    + inv_bind Hsets as cs' Hcs'. inv_bind Hsets as ss' Hss'.
      apply QuerySet_filter_Ok in Hcs', Hss'.
      destruct Hcs' as (k & Hk & ->), Hss' as (k' & Hk' & ->).
      injection Hsets as <- <-.
      apply NoDup_filter_app, NoDup_filter_app, Hbase.
    + injection Hsets as <- <-. apply NoDup_filter_app, Hbase.
Qed.

Lemma consecutive_pages {A : Type} (l : list A) (n : nat) :
  (S n * paginate_by < List.length l)%nat ->
  let page_n := firstn paginate_by (skipn (n * paginate_by) l) in
  let page_n1 := firstn paginate_by (skipn (S n * paginate_by) l) in
  l = (firstn (n * paginate_by) l ++ page_n ++ page_n1 ++
       skipn paginate_by (skipn (S n * paginate_by) l))%list /\
  List.length (firstn (n * paginate_by) l) = (n * paginate_by)%nat /\
  List.length page_n = paginate_by.
Proof.
  intros Hlen. cbv zeta.
  rewrite (firstn_skipn paginate_by (skipn (S n * paginate_by) l)).
  replace (S n * paginate_by)%nat with (paginate_by + n * paginate_by)%nat
    by (simpl; lia).
  rewrite <- (skipn_skipn paginate_by (n * paginate_by) l).
  rewrite (firstn_skipn paginate_by (skipn (n * paginate_by) l)).
  rewrite (firstn_skipn (n * paginate_by) l).
  split; [reflexivity|].
  rewrite !length_firstn, length_skipn. unfold paginate_by in *. lia.
Qed.

(* ------------------------------------------------------------------ *)
(** ** The ordering with the id tiebreak is total *)

Lemma ascii_compare_lt_trans (a b c : ascii) :
  Ascii.compare a b = Lt -> Ascii.compare b c = Lt -> Ascii.compare a c = Lt.
Proof.
  unfold Ascii.compare. rewrite !N.compare_lt_iff. lia.
Qed.

Lemma string_compare_lt_trans (a b c : string) :
  String.compare a b = Lt -> String.compare b c = Lt ->
  String.compare a c = Lt.
Proof.
  revert b c. induction a as [|x a IH]; intros [|y b] [|z c]; simpl;
    try discriminate; try reflexivity.
  destruct (Ascii.compare x y) eqn:Exy; try discriminate;
    destruct (Ascii.compare y z) eqn:Eyz; try discriminate; intros Hab Hbc.
  - apply Ascii.compare_eq_iff in Exy, Eyz. subst y z.
    assert (E : Ascii.compare x x = Eq)
      by (unfold Ascii.compare; apply N.compare_refl).
    rewrite E. exact (IH b c Hab Hbc).
  - apply Ascii.compare_eq_iff in Exy. subst y. rewrite Eyz. reflexivity.
  - apply Ascii.compare_eq_iff in Eyz. subst z. rewrite Exy. reflexivity.
  - rewrite (ascii_compare_lt_trans x y z Exy Eyz). reflexivity.
Qed.

Lemma string_compare_refl (a : string) : String.compare a a = Eq.
Proof.
  induction a as [|x a IH]; simpl; [reflexivity|].
  assert (E : Ascii.compare x x = Eq)
    by (unfold Ascii.compare; apply N.compare_refl).
  rewrite E. exact IH.
Qed.

Lemma compare_value_eq (a b : value) : compare_value a b = Eq -> a = b.
Proof.
  destruct a, b; simpl; try discriminate; try reflexivity.
  - intros H. apply Z.compare_eq in H. congruence.
  - intros H. apply String.compare_eq_iff in H. congruence.
Qed.

Lemma compare_value_refl (a : value) : compare_value a a = Eq.
Proof.
  destruct a; simpl;
    [reflexivity | apply Z.compare_refl | apply string_compare_refl].
Qed.

Lemma compare_value_lt_trans (a b c : value) :
  compare_value a b = Lt -> compare_value b c = Lt -> compare_value a c = Lt.
Proof.
  destruct a, b, c; simpl; try discriminate; try reflexivity.
  - rewrite !Z.compare_lt_iff. lia.
  - apply string_compare_lt_trans.
Qed.

Lemma compare_key_eq (k : order_key) (a b : Chant.t) :
  compare_key k a b = Eq -> snd k a = snd k b.
Proof.
  destruct k as [[|] col]; simpl; intros H; apply compare_value_eq in H;
    congruence.
Qed.

Lemma compare_key_eq_l (k : order_key) (a b c : Chant.t) :
  compare_key k a b = Eq -> compare_key k a c = compare_key k b c.
Proof.
  intros H. apply compare_key_eq in H. destruct k as [[|] col]; simpl in *;
    rewrite H; reflexivity.
Qed.

Lemma compare_key_eq_r (k : order_key) (a b c : Chant.t) :
  compare_key k b c = Eq -> compare_key k a b = compare_key k a c.
Proof.
  intros H. apply compare_key_eq in H. destruct k as [[|] col]; simpl in *;
    rewrite H; reflexivity.
Qed.

Lemma compare_key_lt_trans (k : order_key) (a b c : Chant.t) :
  compare_key k a b = Lt -> compare_key k b c = Lt -> compare_key k a c = Lt.
Proof.
  destruct k as [[|] col]; simpl; intros H1 H2.
  - exact (compare_value_lt_trans _ _ _ H2 H1).
  - exact (compare_value_lt_trans _ _ _ H1 H2).
Qed.

Lemma compare_keys_eq_l (ks : list order_key) (a b c : Chant.t) :
  compare_keys ks a b = Eq -> compare_keys ks a c = compare_keys ks b c.
Proof.
  induction ks as [|k ks IH]; simpl; [reflexivity|].
  destruct (compare_key k a b) eqn:E; try discriminate.
  intros H. rewrite (compare_key_eq_l k a b c E), (IH H). reflexivity.
Qed.

Lemma compare_keys_eq_r (ks : list order_key) (a b c : Chant.t) :
  compare_keys ks b c = Eq -> compare_keys ks a b = compare_keys ks a c.
Proof.
  induction ks as [|k ks IH]; simpl; [reflexivity|].
  destruct (compare_key k b c) eqn:E; try discriminate.
  intros H. rewrite (compare_key_eq_r k a b c E), (IH H). reflexivity.
Qed.

Lemma compare_keys_lt_trans (ks : list order_key) (a b c : Chant.t) :
  compare_keys ks a b = Lt -> compare_keys ks b c = Lt ->
  compare_keys ks a c = Lt.
Proof.
  induction ks as [|k ks IH]; simpl; [discriminate|].
  destruct (compare_key k a b) eqn:Eab; try discriminate;
    destruct (compare_key k b c) eqn:Ebc; try discriminate; intros H1 H2.
  - rewrite (compare_key_eq_l k a b c Eab), Ebc. exact (IH H1 H2).
  - rewrite (compare_key_eq_l k a b c Eab), Ebc. reflexivity.
  - rewrite <- (compare_key_eq_r k a b c Ebc), Eab. reflexivity.
  - rewrite (compare_key_lt_trans k a b c Eab Ebc). reflexivity.
Qed.

Lemma leb_keys_trans (ks : list order_key) (a b c : Chant.t) :
  leb_keys ks a b = true -> leb_keys ks b c = true -> leb_keys ks a c = true.
Proof.
  unfold leb_keys.
  destruct (compare_keys ks a b) eqn:Eab; try discriminate;
    destruct (compare_keys ks b c) eqn:Ebc; try discriminate; intros _ _.
  - rewrite (compare_keys_eq_l ks a b c Eab), Ebc. reflexivity.
  - rewrite (compare_keys_eq_l ks a b c Eab), Ebc. reflexivity.
  - rewrite <- (compare_keys_eq_r ks a b c Ebc), Eab. reflexivity.
  - rewrite (compare_keys_lt_trans ks a b c Eab Ebc). reflexivity.
Qed.

(** Rows that tie on every term, the id among them, have the same id. *)
Lemma leb_keys_antisym_id (desc : bool) (col : Chant.t -> value)
  (a b : Chant.t) :
  leb_keys [(desc, col); (false, id_column)] a b = true ->
  leb_keys [(desc, col); (false, id_column)] b a = true ->
  Chant.id a = Chant.id b.
Proof.
  unfold leb_keys.
  rewrite (compare_keys_antisym [(desc, col); (false, id_column)] a b).
  destruct (compare_keys [(desc, col); (false, id_column)] a b) eqn:E;
    simpl; intros H1 H2; try discriminate.
  simpl in E.
  destruct (if desc then compare_value (col b) (col a)
            else compare_value (col a) (col b)); try discriminate.
  destruct (Chant.id a ?= Chant.id b) eqn:C; try discriminate.
  apply Z.compare_eq, C.
Qed.

(** A sorted list is determined by its elements when ties are equal. *)
Lemma sorted_perm_unique {A : Type} (R : A -> A -> Prop) (l l' : list A) :
  StronglySorted R l -> StronglySorted R l' -> Permutation l l' ->
  (forall a b, In a l -> In b l -> R a b -> R b a -> a = b) ->
  l = l'.
Proof.
  intros Hl. revert l'. induction Hl as [|a l Hs IH Ha]; intros l' Hl' P Hanti.
  - symmetry. apply Permutation_nil, P.
  - destruct l' as [|a' l'].
    + apply Permutation_sym, Permutation_nil in P. discriminate P.
    + inversion Hl' as [|? ? Hs' Ha']; subst.
      assert (E : a = a').
      { assert (Hin : In a (a' :: l'))
          by (apply (Permutation_in a P); left; reflexivity).
        assert (Hin' : In a' (a :: l))
          by (apply (Permutation_in a' (Permutation_sym P)); left;
              reflexivity).
        destruct Hin as [->|Hin]; [reflexivity|].
        destruct Hin' as [->|Hin']; [reflexivity|].
        apply Hanti.
        - left. reflexivity.
        - right. exact Hin'.
        - rewrite Forall_forall in Ha. apply Ha, Hin'.
        - rewrite Forall_forall in Ha'. apply Ha', Hin. }
      subst a'. f_equal. apply IH.
      * exact Hs'.
      * apply (Permutation_cons_inv P).
      * intros x y Hx Hy. apply Hanti; right; assumption.
Qed.

Lemma sort_unique {A : Type} (leb : A -> A -> bool) (l l' : list A) :
  (forall a b, leb a b = false -> leb b a = true) ->
  (forall a b c, leb a b = true -> leb b c = true -> leb a c = true) ->
  (forall a b, In a l -> In b l -> leb a b = true -> leb b a = true -> a = b) ->
  Permutation l l' ->
  sort leb l = sort leb l'.
Proof.
  intros Htot Htrans Hanti P.
  apply (sorted_perm_unique (fun a b => leb a b = true)).
  - apply Sorted_StronglySorted; [exact Htrans | apply sort_sorted, Htot].
  - apply Sorted_StronglySorted; [exact Htrans | apply sort_sorted, Htot].
  - eapply Permutation_trans; [apply sort_perm|].
    eapply Permutation_trans; [exact P | apply Permutation_sym, sort_perm].
  - intros a b Ha Hb. apply Hanti; apply (sort_In leb); assumption.
Qed.

(* ------------------------------------------------------------------ *)
(** ** The result does not depend on the order the store delivers rows *)

Lemma Permutation_filter' {A : Type} (f : A -> bool) (l l' : list A) :
  Permutation l l' -> Permutation (filter f l) (filter f l').
Proof.
  induction 1 as [|x l l' _ IH|x y l|l l' l'' _ IH1 _ IH2]; simpl.
  - constructor.
  - destruct (f x); [apply perm_skip|]; exact IH.
  - destruct (f x), (f y); try apply Permutation_refl. apply perm_swap.
  - eapply Permutation_trans; eassumption.
Qed.

Lemma NoDup_map_filter_app {A B : Type} (h : A -> B) (f g : A -> bool)
  (a b : list A) :
  NoDup (map h (a ++ b)) -> NoDup (map h (filter f a ++ filter g b)).
Proof.
  induction a as [|x a IH]; simpl.
  - induction b as [|y b IHb]; simpl; [constructor|].
    intros H. inversion H as [|? ? Hy Hn]; subst.
    destruct (g y); simpl; [|apply IHb, Hn].
    constructor; [|apply IHb, Hn].
    intros Hin. apply Hy. apply in_map_iff in Hin.
    destruct Hin as (z & Hz & Hin). apply filter_In in Hin.
    apply in_map_iff. exists z. tauto.
  - intros H. inversion H as [|? ? Hx Hn]; subst.
    destruct (f x); [|apply IH, Hn].
    simpl. constructor; [|apply IH, Hn].
    intros Hin. apply Hx. apply in_map_iff in Hin.
    destruct Hin as (z & Hz & Hin). apply in_map_iff. exists z.
    split; [exact Hz|]. apply in_app_or in Hin. apply in_or_app.
    destruct Hin as [Hin|Hin]; apply filter_In in Hin; tauto.
Qed.

Lemma NoDup_map_eq {A B : Type} (h : A -> B) (l : list A) (a b : A) :
  NoDup (map h l) -> In a l -> In b l -> h a = h b -> a = b.
Proof.
  induction l as [|x l IH]; simpl; [tauto|].
  intros H. inversion H as [|? ? Hx Hn]; subst.
  intros [->|Ha] [->|Hb] E.
  - reflexivity.
  - exfalso. apply Hx. rewrite E. apply in_map, Hb.
  - exfalso. apply Hx. rewrite <- E. apply in_map, Ha.
  - exact (IH Hn Ha Hb E).
Qed.

(** Sorting by a primary column and the id gives one answer for all the
    orders in which rows of distinct ids may arrive. *)
Lemma order_by_same_rows (db : DB) (name : string)
  (col : DB -> Chant.t -> value) (desc : bool) (rows rows' : list Chant.t) :
  assoc name columns = Some col ->
  NoDup (map Chant.id rows) ->
  Permutation rows rows' ->
  order_by db [if desc then "-" ++ name else name; "id"] rows
  = order_by db [if desc then "-" ++ name else name; "id"] rows'.
Proof.
  intros Hcol Hnd P. unfold order_by.
  rewrite (order_terms_with_id db name col desc Hcol). f_equal.
  apply sort_unique.
  - intros a b. apply leb_keys_total.
  - intros a b c. apply leb_keys_trans.
  - intros a b Ha Hb H1 H2.
    apply (NoDup_map_eq Chant.id rows a b Hnd Ha Hb).
    exact (leb_keys_antisym_id desc (col db) a b H1 H2).
  - exact P.
Qed.

Lemma resolve_rows (q : Q) (C S C' S' : list Chant.t)
  (So : list Source.t) (F : list Feast.t) :
  resolve (mkDB C' S' So F) q = resolve (mkDB C S So F) q.
Proof.
  induction q; simpl; try reflexivity; rewrite IHq1, IHq2; reflexivity.
Qed.

Lemma order_by_rows (terms : list string) (rows : list Chant.t)
  (C S C' S' : list Chant.t) (So : list Source.t) (F : list Feast.t) :
  order_by (mkDB C' S' So F) terms rows = order_by (mkDB C S So F) terms rows.
Proof.
  unfold order_by.
  assert (E : order_terms (mkDB C' S' So F) terms
              = order_terms (mkDB C S So F) terms).
  { induction terms as [|t ts IH]; simpl; [reflexivity|]. rewrite IH.
    assert (Et : order_term (mkDB C' S' So F) t
                 = order_term (mkDB C S So F) t).
    { unfold order_term.
      destruct (match t with
                | String "-" name => (true, name)
                | _ => (false, t)
                end) as [desc name].
      unfold columns, assoc.
      repeat (destruct (String.eqb name _); [reflexivity|]).
      reflexivity. }
    rewrite Et. reflexivity. }
  rewrite E. reflexivity.
Qed.

Lemma ChantSearchView_get_queryset_same_rows
  (auth : bool) (GET : QueryDict) (db db' : DB) :
  same_rows db db' ->
  NoDup (map Chant.id (Chant_objects db ++ Sequence_objects db)) ->
  ChantSearchView_get_queryset auth GET db'
  = ChantSearchView_get_queryset auth GET db.
Proof.
  destruct db as [C S So F], db' as [C' S' So' F'].
  unfold same_rows. simpl. intros (PC & PS & <- & <-) Hnd.
  unfold ChantSearchView_get_queryset.
  destruct (QueryDict_empty GET); [reflexivity|].
  destruct (ChantSearchView_order_spec GET) as (name & col & Hcol & Ho & _).
  rewrite Ho. cbn [Chant_objects Sequence_objects].
  set (db := mkDB C S So F). set (db' := mkDB C' S' So F).
  set (A := if auth then C else filter (source__published db) C).
  set (B := if auth then S else filter (source__published db) S).
  set (A' := if auth then C' else filter (source__published db') C').
  set (B' := if auth then S' else filter (source__published db') S').
  assert (PA : Permutation A A').
  { unfold A, A'. destruct auth; [exact PC|].
    apply (Permutation_filter' (source__published db) C C' PC). }
  assert (PB : Permutation B B').
  { unfold B, B'. destruct auth; [exact PS|].
    apply (Permutation_filter' (source__published db) S S' PS). }
  assert (HndAB : NoDup (map Chant.id (A ++ B))).
  { unfold A, B. destruct auth; [exact Hnd|].
    apply NoDup_map_filter_app, Hnd. }
  assert (Hsort : forall f g,
             order_by db' [if sort_desc GET then "-" ++ name else name; "id"]
               (union_all (filter g (filter f A')) (filter g (filter f B')))
             = order_by db [if sort_desc GET then "-" ++ name else name; "id"]
                 (union_all (filter g (filter f A)) (filter g (filter f B)))).
  { intros f g. unfold db', db. rewrite (order_by_rows _ _ C S C' S' So F).
    symmetry. apply (order_by_same_rows _ name col _ _ _ Hcol).
    - unfold union_all.
      apply NoDup_map_filter_app, NoDup_map_filter_app, HndAB.
    - unfold union_all. apply Permutation_app;
        apply Permutation_filter', Permutation_filter'; assumption. }
  assert (Hres : forall q, resolve db' q = resolve db q)
    by (intros q; apply resolve_rows).
  fold A B A' B'.
  destruct (param GET "search_bar") as [search_bar|].
  - destruct (existsb isdigit (list_ascii_of_string search_bar));
      unfold QuerySet_filter; rewrite Hres;
      (destruct (resolve db _) as [p|e]; [|reflexivity]); simpl;
      specialize (Hsort p (fun _ => true));
      assert (Eid : forall l : list Chant.t, filter (fun _ => true) l = l)
        by (induction l; simpl; congruence);
      rewrite !Eid in Hsort; exact Hsort.
  - destruct (ChantSearchView_q_obj_filter GET) as [q|e]; [|reflexivity].
    simpl. rewrite !negb_if. fold A B A' B'.
    unfold QuerySet_filter at 1 2 5 6. rewrite Hres.
    destruct (resolve db q) as [p|e]; [|reflexivity]. simpl.
    destruct (param GET "keyword") as [keyword|].
    + unfold QuerySet_filter. rewrite Hres.
      destruct (resolve db _) as [k|e]; [|reflexivity]. simpl.
      apply Hsort.
    + simpl. specialize (Hsort p (fun _ => true)).
      assert (Eid : forall l : list Chant.t, filter (fun _ => true) l = l)
        by (induction l; simpl; congruence).
      rewrite !Eid in Hsort. exact Hsort.
Qed.

(** The ordering by a primary column and then the id admits one order only
    of records with distinct ids. *)
Lemma ordered_before_unique (desc : bool) (col : Chant.t -> value)
  (rows l l' : list Chant.t) :
  NoDup (map Chant.id rows) ->
  (forall c, In c l -> In c rows) ->
  Sorted (ordered_before desc col) l ->
  Sorted (ordered_before desc col) l' ->
  Permutation l l' ->
  l = l'.
Proof.
  intros Hnd Hin Hl Hl' P.
  assert (Htrans : Relations_1.Transitive (ordered_before desc col)).
  { intros a b c Hab Hbc. apply leb_keys_ordered_before.
    apply leb_keys_ordered_before in Hab, Hbc.
    exact (leb_keys_trans _ a b c Hab Hbc). }
  apply (sorted_perm_unique (ordered_before desc col)).
  - apply Sorted_StronglySorted; assumption.
  - apply Sorted_StronglySorted; assumption.
  - exact P.
  - intros a b Ha Hb Hab Hba.
    apply leb_keys_ordered_before in Hab, Hba.
    apply (NoDup_map_eq Chant.id rows a b Hnd (Hin a Ha) (Hin b Hb)).
    exact (leb_keys_antisym_id desc col a b Hab Hba).
Qed.

Lemma visible_In (auth : bool) (db : DB) (c : Chant.t) :
  In c (visible auth db) -> In c (Chant_objects db ++ Sequence_objects db).
Proof.
  unfold visible. destruct auth; [tauto|].
  rewrite !in_app_iff, !filter_In. tauto.
Qed.

(** The result of the global search is in the order of its two terms. *)
Lemma ChantSearchView_get_queryset_sorted
  (auth : bool) (GET : QueryDict) (db : DB) (l : list Chant.t) :
  ChantSearchView_get_queryset auth GET db = Ok l ->
  exists primary,
    order_terms db [ChantSearchView_order GET; "id"]
    = Some [(sort_desc GET, primary); (false, id_column)] /\
    Sorted (ordered_before (sort_desc GET) primary) l.
Proof.
  intros H.
  destruct (ChantSearchView_order_spec GET) as (name & col & Hcol & Ho & _).
  exists (col db). split.
  - rewrite Ho. apply order_terms_with_id, Hcol.
  - unfold ChantSearchView_get_queryset in H.
    destruct (QueryDict_empty GET); [injection H as <-; constructor|].
    inv_bind H as queryset Hq. rewrite Ho in H.
    apply (order_by_sorted db name col _ _ _ Hcol H).
Qed.

Lemma many_chants_ids_NoDup : NoDup (map Chant.id many_chants).
Proof.
  unfold many_chants. rewrite map_map.
  change (NoDup (map Z.of_nat (seq 1 150))).
  apply Finite.Injective_map_NoDup; [exact Nat2Z.inj|apply seq_NoDup].
Qed.

(** C4, as stated, fails where a chant and a sequence share an id: the
    ordering key and the id then tie on the two records, and their places
    in the ordered result follow the order in which the merged rows
    arrive.  In [tie_db] all the records tie on the ordering key and chant
    100 ties with sequence 100 on the id too.  With the chants arriving
    first, page 1 is the 100 chants; with the sequence arriving first, the
    same rows under the same ordering give a page 2 that holds chant 100
    again; the sequence is on neither page. *)
Lemma pagination_stable_counterexample :
  exists l l' page_1 page_2,
    ChantSearchView_get_queryset true (with_page [] "1") tie_db = Ok l /\
    ChantSearchView_get true (with_page [] "1") tie_db = Ok page_1 /\
    order_by tie_db [ChantSearchView_order (with_page [] "2"); "id"]
      (Sequence_objects tie_db ++ Chant_objects tie_db) = Ok l' /\
    paginate_queryset (with_page [] "2") l' = Ok page_2 /\
    Permutation l l' /\
    In tie_chant page_1 /\ In tie_chant page_2 /\
    In tie_sequence l /\
    ~ In tie_sequence page_1 /\ ~ In tie_sequence page_2.
Proof.
  exists (firstn 99 many_chants ++ [tie_chant; tie_sequence])%list,
    (firstn 99 many_chants ++ [tie_sequence; tie_chant])%list,
    (firstn 99 many_chants ++ [tie_chant])%list,
    [tie_chant].
  split; [vm_compute; reflexivity|].
  split; [vm_compute; reflexivity|].
  split; [vm_compute; reflexivity|].
  split; [vm_compute; reflexivity|].
  split; [apply Permutation_app_head, perm_swap|].
  split; [apply in_or_app; right; left; reflexivity|].
  split; [left; reflexivity|].
  split; [apply in_or_app; right; right; left; reflexivity|].
  split.
  - intros H. apply in_app_or in H. destruct H as [H|[H|[]]].
    + apply In_firstn in H. unfold many_chants in H.
      apply in_map_iff in H. destruct H as (i & H & _). discriminate H.
    + discriminate H.
  - intros [H|[]]. discriminate H.
Qed.

(** C4, amended.  Take a request and ask for page N and for page N+1 of
    it, the other parameters the same.  Both pages are cut out of one and
    the same ordered result; when page N+1 exists, so does page N, it
    holds 100 records, and the two pages lie side by side in the ordered
    result: the result is the records before page N, then page N, then
    page N+1, then the rest, so no record between them is skipped and
    none is counted twice, and with pairwise distinct stored rows no
    record of page N is a record of page N+1.  The result is in the order
    of the ordering key and then the id.  When no two records of the
    merged chant and sequence collections share an id, the id tiebreak
    makes that order the only one: every arrangement of the same records
    that is in the order of the key and then the id is the result itself,
    and both pages come out the same whatever the order in which the
    store delivers its rows. *)
Theorem pagination_stable
  (auth : bool) (GET : QueryDict) (db : DB) (page page' : string) (n : Z)
  (page_n1 : list Chant.t) :
  int page = Ok n ->
  int page' = Ok (n + 1) ->
  1 <= n ->
  ChantSearchView_get auth (with_page GET page') db = Ok page_n1 ->
  exists l page_n before rest primary,
    ChantSearchView_get_queryset auth (with_page GET page) db = Ok l /\
    ChantSearchView_get_queryset auth (with_page GET page') db = Ok l /\
    ChantSearchView_get auth (with_page GET page) db = Ok page_n /\
    l = (before ++ page_n ++ page_n1 ++ rest)%list /\
    List.length before = ((Z.to_nat n - 1) * paginate_by)%nat /\
    List.length page_n = paginate_by /\
    (NoDup (Chant_objects db ++ Sequence_objects db) ->
     forall c, In c page_n -> ~ In c page_n1) /\
    order_terms db [ChantSearchView_order (with_page GET page); "id"]
    = Some [(sort_desc (with_page GET page), primary); (false, id_column)] /\
    Sorted (ordered_before (sort_desc (with_page GET page)) primary) l /\
    (NoDup (map Chant.id (Chant_objects db ++ Sequence_objects db)) ->
     (forall l',
        Permutation l l' ->
        Sorted (ordered_before (sort_desc (with_page GET page)) primary) l' ->
        l' = l) /\
     (forall db',
        same_rows db db' ->
        ChantSearchView_get auth (with_page GET page) db' = Ok page_n /\
        ChantSearchView_get auth (with_page GET page') db' = Ok page_n1)).
Proof.
  intros Hp Hp' Hn H. pose proof H as Hget'. unfold ChantSearchView_get in H.
  inv_bind H as l Hl. unfold paginate_queryset in H.
  rewrite (param_page GET page' (n + 1) Hp'), Hp' in H.
  unfold Paginator_page in H.
  destruct (n + 1 <? 1) eqn:E1; [discriminate H|].
  destruct (Z.of_nat (num_pages paginate_by (List.length l)) <? n + 1) eqn:E2;
    [discriminate H|].
  injection H as <-.
  pose proof (num_pages_bound (List.length l) n Hn E2) as Hlen.
  assert (En : Z.to_nat n = S (Z.to_nat n - 1)) by lia.
  assert (En1 : (Z.to_nat (n + 1) - 1 = S (Z.to_nat n - 1))%nat) by lia.
  rewrite En1. rewrite En in Hlen.
  destruct (consecutive_pages l (Z.to_nat n - 1) Hlen) as (Hl3 & Hb & Hpn).
  assert (Hlp : ChantSearchView_get_queryset auth (with_page GET page) db
                = Ok l)
    by (rewrite <- Hl; apply ChantSearchView_get_queryset_page).
  destruct (ChantSearchView_get_queryset_sorted auth _ db l Hlp)
    as (primary & Hterms & Hsorted).
  exists l, (firstn paginate_by (skipn ((Z.to_nat n - 1) * paginate_by) l)),
    (firstn ((Z.to_nat n - 1) * paginate_by) l),
    (skipn paginate_by (skipn (S (Z.to_nat n - 1) * paginate_by) l)),
    primary.
  split; [exact Hlp|].
  split; [exact Hl|].
  assert (Hget : ChantSearchView_get auth (with_page GET page) db
                 = Ok (firstn paginate_by
                         (skipn ((Z.to_nat n - 1) * paginate_by) l))).
  { unfold ChantSearchView_get.
    rewrite (ChantSearchView_get_queryset_page auth GET db page page'), Hl.
    simpl. unfold paginate_queryset.
    rewrite (param_page GET page n Hp), Hp. unfold Paginator_page.
    assert (E3 : (n <? 1) = false) by (apply Z.ltb_ge; lia).
    assert (E4 : (Z.of_nat (num_pages paginate_by (List.length l)) <? n)
                 = false).
    { apply Z.ltb_ge. apply Z.ltb_ge in E2. lia. }
    rewrite E3, E4. reflexivity. }
  split; [exact Hget|].
  split; [exact Hl3|]. split; [exact Hb|]. split; [exact Hpn|].
  split; [|split; [exact Hterms|split; [exact Hsorted|]]].
  - intros Hnd c Hc Hc1.
    pose proof (ChantSearchView_get_queryset_NoDup auth _ db l Hnd Hl)
      as Hndl.
    rewrite Hl3 in Hndl. apply NoDup_app_remove_l in Hndl.
    rewrite app_assoc in Hndl. apply NoDup_app_remove_r in Hndl.
    exact (NoDup_app_disjoint _ _ c Hndl Hc Hc1).
  - intros Hids. split.
    + intros l' P Hl'. symmetry.
      apply (ordered_before_unique (sort_desc (with_page GET page)) primary
               (Chant_objects db ++ Sequence_objects db) l l' Hids);
        [|exact Hsorted|exact Hl'|exact P].
      intros c Hc. apply (visible_In auth).
      exact (ChantSearchView_get_queryset_visible auth _ db l Hlp c Hc).
    + intros db' Hrows. unfold ChantSearchView_get.
      rewrite !(ChantSearchView_get_queryset_same_rows auth _ db db' Hrows
                  Hids).
      split; [exact Hget|].
      rewrite <- En1. exact Hget'.
Qed.

Lemma pagination_stable_witness :
  exists l page_n primary,
    ChantSearchView_get_queryset true (with_page [] "1") big_db = Ok l /\
    ChantSearchView_get_queryset true (with_page [] "2") big_db = Ok l /\
    ChantSearchView_get true (with_page [] "1") big_db = Ok page_n /\
    l = (page_n ++ skipn 100 many_chants)%list /\
    List.length page_n = paginate_by /\
    (forall c, In c page_n -> ~ In c (skipn 100 many_chants)) /\
    (forall l',
       Permutation l l' ->
       Sorted (ordered_before (sort_desc (with_page [] "1")) primary) l' ->
       l' = l) /\
    (forall db',
       same_rows big_db db' ->
       ChantSearchView_get true (with_page [] "1") db' = Ok page_n /\
       ChantSearchView_get true (with_page [] "2") db'
       = Ok (skipn 100 many_chants)).
Proof.
  assert (Hids : NoDup (map Chant.id
                          (Chant_objects big_db ++ Sequence_objects big_db))).
  { cbn [big_db Chant_objects Sequence_objects]. rewrite app_nil_r.
    exact many_chants_ids_NoDup. }
  destruct (pagination_stable true [] big_db "1" "2" 1
              (skipn 100 many_chants))
    as (l & page_n & before & rest & primary & Hl & Hl2 & Hget & Hsplit
        & Hb & Hlen & Hdis & _ & _ & Hu);
    [reflexivity|reflexivity|lia|vm_compute; reflexivity|].
  destruct (Hu Hids) as (Huniq & Hsame).
  exists l, page_n, primary.
  split; [exact Hl|]. split; [exact Hl2|]. split; [exact Hget|].
  assert (Hbefore : before = []) by (destruct before; [reflexivity|discriminate Hb]).
  assert (Hrest : rest = []).
  { subst before. apply (f_equal (@List.length Chant.t)) in Hsplit.
    rewrite !length_app, Hlen in Hsplit.
    assert (Hll : List.length l = 150%nat).
    { vm_compute in Hl. injection Hl as <-. reflexivity. }
    rewrite Hll in Hsplit. cbn [app List.length] in Hsplit.
    change (List.length (skipn 100 many_chants)) with 50%nat in Hsplit.
    unfold paginate_by in Hsplit.
    destruct rest; [reflexivity|]. cbn [List.length] in Hsplit. lia. }
  split; [rewrite Hsplit, Hbefore, Hrest, app_nil_r; reflexivity|].
  split; [exact Hlen|].
  split; [|split; [exact Huniq|exact Hsame]].
  apply Hdis. apply (NoDup_map_inv Chant.id). exact Hids.
Defined.

(* ------------------------------------------------------------------ *)
(** ** Grouping the chants of a folio by feast *)

Lemma option_Z_eq_spec (a b : option Z) : option_Z_eq a b = true <-> a = b.
Proof.
  destruct a as [x|], b as [y|]; simpl.
  - rewrite Z.eqb_eq. split; congruence.
  - split; discriminate.
  - split; discriminate.
  - tauto.
Qed.

Lemma option_Z_eq_sym (a b : option Z) : option_Z_eq a b = option_Z_eq b a.
Proof.
  destruct a, b; simpl; try reflexivity. apply Z.eqb_sym.
Qed.

Lemma defaultdict_get_append (d : defaultdict) (k k' : option Z)
  (c : Chant.t) :
  defaultdict_get (defaultdict_append d k c) k'
  = if option_Z_eq k k' then (defaultdict_get d k' ++ [c])%list
    else defaultdict_get d k'.
Proof.
  induction d as [|[k1 l1] d IH]; simpl.
  - rewrite (option_Z_eq_sym k k'). destruct (option_Z_eq k' k); reflexivity.
  - destruct (option_Z_eq k1 k) eqn:E1; simpl.
    + apply option_Z_eq_spec in E1. subst k1.
      destruct (option_Z_eq k k'); reflexivity.
    + rewrite IH. destruct (option_Z_eq k k') eqn:E; [|reflexivity].
      apply option_Z_eq_spec in E. subst k'. rewrite E1. reflexivity.
Qed.

Lemma defaultdict_keys_append (d : defaultdict) (k k' : option Z)
  (c : Chant.t) :
  In k' (map fst (defaultdict_append d k c)) <-> k' = k \/ In k' (map fst d).
Proof.
  induction d as [|[k1 l1] d IH]; simpl.
  - split; intros [H|H]; auto.
  - destruct (option_Z_eq k1 k) eqn:E1; simpl.
    + apply option_Z_eq_spec in E1. subst k1. split; [tauto|].
      intros [->|H]; tauto.
    + rewrite IH. split; [intros [H|[H|H]] | intros [H|[H|H]]]; auto.
Qed.

(** The dictionary after the loop over the chants. *)
Lemma feasts_chants_get (db : DB) (chants : list Chant.t) (d : defaultdict)
  (k : option Z) :
  defaultdict_get
    (fold_left
       (fun d chant =>
          match Chant_feast db chant with
          | Some feast => defaultdict_append d (Some (Feast.id feast)) chant
          | None => defaultdict_append d None chant
          end)
       chants d) k
  = (defaultdict_get d k ++ filter (in_feast db k) chants)%list.
Proof.
  revert d. induction chants as [|c chants IH]; intros d.
  - simpl. rewrite app_nil_r. reflexivity.
  - cbn [fold_left filter]. rewrite IH.
    assert (E : match Chant_feast db c with
                | Some feast => defaultdict_append d (Some (Feast.id feast)) c
                | None => defaultdict_append d None c
                end = defaultdict_append d (feast_of db c) c).
    { unfold feast_of. destruct (Chant_feast db c); reflexivity. }
    rewrite E, defaultdict_get_append. unfold in_feast at 2.
    destruct (option_Z_eq (feast_of db c) k);
      rewrite <- ?app_assoc; reflexivity.
Qed.

Lemma feasts_chants_keys (db : DB) (chants : list Chant.t) (d : defaultdict)
  (k : option Z) :
  In k (map fst
          (fold_left
             (fun d chant =>
                match Chant_feast db chant with
                | Some feast => defaultdict_append d (Some (Feast.id feast)) chant
                | None => defaultdict_append d None chant
                end)
             chants d))
  <-> In k (map fst d) \/ exists c, In c chants /\ feast_of db c = k.
Proof.
  revert d. induction chants as [|c chants IH]; intros d; simpl.
  - split; [tauto | intros [H|(c & [] & _)]; exact H].
  - rewrite IH.
    assert (E : forall k0,
               In k0 (map fst
                        match Chant_feast db c with
                        | Some feast =>
                            defaultdict_append d (Some (Feast.id feast)) c
                        | None => defaultdict_append d None c
                        end)
               <-> k0 = feast_of db c \/ In k0 (map fst d)).
    { intros k0. unfold feast_of.
      destruct (Chant_feast db c); simpl; apply defaultdict_keys_append. }
    rewrite E. split.
    + intros [[H|H]|(c' & Hin & Hk)].
      * right. exists c. split; [left; reflexivity | congruence].
      * left. exact H.
      * right. exists c'. split; [right; exact Hin | exact Hk].
    + intros [H|(c' & [->|Hin] & Hk)].
      * left. right. exact H.
      * left. left. congruence.
      * right. exists c'. split; assumption.
Qed.

Lemma existsb_ext_iff {A : Type} (f : A -> bool) (l : list A) (b : bool) :
  (b = true <-> exists x, In x l /\ f x = true) -> b = existsb f l.
Proof.
  intros H. destruct (existsb f l) eqn:E.
  - apply H, existsb_exists, E.
  - destruct b; [|reflexivity].
    destruct (proj1 H eq_refl) as (x & Hx). 
    assert (E' : existsb f l = true) by (apply existsb_exists; exists x; exact Hx).
    congruence.
Qed.

(** The grouping in closed form: one group per feast of the store that
    some chant has, in the order of the store, then the group of the chants
    without feast; each group keeps the chants in the order they came. *)
Lemma get_chants_with_feasts_eq (db : DB) (chants : list Chant.t) :
  get_chants_with_feasts db chants
  = (map (fun f => (Some f, filter (in_feast db (Some (Feast.id f))) chants))
         (filter (fun f => existsb (in_feast db (Some (Feast.id f))) chants)
                 (Feast_objects db))
     ++ [(None, filter (in_feast db None) chants)])%list.
Proof.
  unfold get_chants_with_feasts. f_equal.
  - match goal with
    | |- context [map fst ?x] => set (d := x)
    end.
    assert (Hf : forall f,
               existsb (option_Z_eq (Some (Feast.id f))) (map fst d)
               = existsb (in_feast db (Some (Feast.id f))) chants).
    { intros f. apply existsb_ext_iff. rewrite existsb_exists. split.
      - intros (k & Hk & E). apply option_Z_eq_spec in E. subst k.
        apply feasts_chants_keys in Hk. destruct Hk as [[]|(c & Hc & Hk)].
        exists c. split; [exact Hc|]. apply option_Z_eq_spec, Hk.
      - intros (c & Hc & E). exists (Some (Feast.id f)).
        split; [|apply option_Z_eq_spec; reflexivity].
        apply feasts_chants_keys. right. exists c. split; [exact Hc|].
        apply option_Z_eq_spec, E. }
    rewrite (filter_ext _ _ Hf). apply map_ext. intros f.
    unfold d. rewrite feasts_chants_get. reflexivity.
  - rewrite feasts_chants_get. reflexivity.
Qed.

Lemma flat_map_filter_nil {A B : Type} (p : A -> bool) (g : A -> list B)
  (l : list A) :
  (forall x, p x = false -> g x = []) ->
  flat_map g (filter p l) = flat_map g l.
Proof.
  intros H. induction l as [|x l IH]; simpl; [reflexivity|].
  destruct (p x) eqn:E; simpl; rewrite IH; [reflexivity|].
  rewrite (H x E). reflexivity.
Qed.

Lemma flat_map_ext_In {A B : Type} (f g : A -> list B) (l : list A) :
  (forall x, In x l -> f x = g x) -> flat_map f l = flat_map g l.
Proof.
  induction l as [|x l IH]; simpl; [reflexivity|].
  intros H. rewrite (H x) by (left; reflexivity).
  rewrite IH; [reflexivity|]. intros y Hy. apply H. right. exact Hy.
Qed.

Lemma filter_nil_existsb {A : Type} (f : A -> bool) (l : list A) :
  existsb f l = false -> filter f l = [].
Proof.
  induction l as [|x l IH]; simpl; [reflexivity|].
  destruct (f x); simpl; [discriminate | exact IH].
Qed.

Lemma feast_of_in_store (db : DB) (c : Chant.t) (i : Z) :
  feast_of db c = Some i ->
  exists f, In f (Feast_objects db) /\ Feast.id f = i.
Proof.
  unfold feast_of, Chant_feast, Feast_find.
  destruct (Chant.feast c) as [pk|]; [|discriminate].
  destruct (find _ (Feast_objects db)) as [f|] eqn:E; [|discriminate].
  intros [= <-]. exists f. apply find_some in E. tauto.
Qed.

Section Groups.
Variable db : DB.

(** The group of feast [f] among [l]. *)
Let group (l : list Chant.t) (f : Feast.t) : list Chant.t :=
  filter (in_feast db (Some (Feast.id f))) l.

Lemma groups_cons_out (c : Chant.t) (cs : list Chant.t)
  (fs : list Feast.t) :
  (forall f, In f fs -> feast_of db c <> Some (Feast.id f)) ->
  flat_map (group (c :: cs)) fs = flat_map (group cs) fs.
Proof.
  intros H. apply flat_map_ext_In. intros f Hf. unfold group. simpl.
  unfold in_feast at 1.
  destruct (option_Z_eq (feast_of db c) (Some (Feast.id f))) eqn:E;
    [|reflexivity].
  apply option_Z_eq_spec in E. exfalso. apply (H f Hf E).
Qed.

Lemma groups_cons_in (c : Chant.t) (cs : list Chant.t)
  (fs : list Feast.t) (i : Z) :
  NoDup (map Feast.id fs) ->
  (exists f, In f fs /\ Feast.id f = i) ->
  feast_of db c = Some i ->
  Permutation (flat_map (group (c :: cs)) fs)
              (c :: flat_map (group cs) fs).
Proof.
  intros Hnd (f0 & Hin & Hid) Hc. induction fs as [|f fs IH].
  - destruct Hin.
  - simpl in Hnd. inversion Hnd as [|? ? Hnot Hnd']; subst.
    cbn [flat_map]. destruct (Z.eq_dec (Feast.id f) (Feast.id f0)) as [E|E].
    + assert (Hout : forall g, In g fs ->
                       feast_of db c <> Some (Feast.id g)).
      { intros g Hg Hcg. apply Hnot. rewrite Hc in Hcg.
        injection Hcg as Hcg. rewrite E, Hcg. apply in_map, Hg. }
      rewrite (groups_cons_out c cs fs Hout).
      assert (Hg : group (c :: cs) f = c :: group cs f).
      { unfold group. cbn [filter]. unfold in_feast at 1.
        rewrite Hc. simpl.
        replace (Feast.id f0 =? Feast.id f) with true
          by (symmetry; apply Z.eqb_eq; congruence).
        reflexivity. }
      rewrite Hg. apply Permutation_refl.
    + destruct Hin as [->|Hin]; [contradiction|].
      assert (Hg : group (c :: cs) f = group cs f).
      { unfold group. cbn [filter]. unfold in_feast at 1.
        rewrite Hc. simpl.
        replace (Feast.id f0 =? Feast.id f) with false
          by (symmetry; apply Z.eqb_neq; congruence).
        reflexivity. }
      rewrite Hg.
      apply Permutation_trans
        with (l' := (group cs f ++ c :: flat_map (group cs) fs)%list).
      * apply Permutation_app_head, (IH Hnd' Hin).
      * apply Permutation_sym, Permutation_middle.
Qed.

(** With the feast ids of the store distinct, the groups of the feasts
    and the group without feast split the chants. *)
Lemma groups_partition (chants : list Chant.t) :
  NoDup (map Feast.id (Feast_objects db)) ->
  Permutation
    (flat_map (group chants) (Feast_objects db) ++
     filter (in_feast db None) chants)
    chants.
Proof.
  intros Hnd. induction chants as [|c cs IH].
  - assert (E : forall fs, flat_map (group []) fs = [])
      by (induction fs; simpl; auto).
    rewrite E. apply perm_nil.
  - destruct (feast_of db c) as [i|] eqn:Hc.
    + assert (Hn : filter (in_feast db None) (c :: cs)
                   = filter (in_feast db None) cs).
      { cbn [filter]. unfold in_feast at 1. rewrite Hc. reflexivity. }
      rewrite Hn.
      apply Permutation_trans
        with (l' := ((c :: flat_map (group cs) (Feast_objects db)) ++
                     filter (in_feast db None) cs)%list).
      * apply Permutation_app_tail,
          (groups_cons_in c cs _ i Hnd (feast_of_in_store db c i Hc) Hc).
      * simpl. apply perm_skip, IH.
    + rewrite groups_cons_out by (intros f _; rewrite Hc; discriminate).
      assert (Hn : filter (in_feast db None) (c :: cs)
                   = c :: filter (in_feast db None) cs).
      { cbn [filter]. unfold in_feast at 1. rewrite Hc. reflexivity. }
      rewrite Hn.
      apply Permutation_trans
        with (l' := (c :: flat_map (group cs) (Feast_objects db) ++
                     filter (in_feast db None) cs)%list).
      * apply Permutation_sym, Permutation_middle.
      * apply perm_skip, IH.
Qed.
End Groups.

(** C5, as stated, fails on its own scenario: the group of the chants
    without feast is emitted also when it is empty, so folio "001r" yields
    three groups, not the two of the claim. *)
Lemma feast_groups_counterexample :
  feasts_of_folio scenario_db [record_A; record_B; record_C] "001r"
  <> Ok [(Some F1, [record_A]); (Some F2, [record_B])].
Proof.
  intros H. vm_compute in H. discriminate H.
Qed.

(** C5, amended.  Grouping a folio's records by feast yields one group
    per feast that some record has, in the order in which the datastore
    lists the feasts, and last, always (also when it is empty), the group of
    the records without feast; each group holds its records in the order
    they were fetched, and when the feasts of the store have distinct ids
    the groups split the records.  For A (folio "001r", feast F1), B
    ("001r", F2), C ("002r", F1), folio "001r" yields [(F1,[A]), (F2,[B]),
    (none,[])] and folio "002r" yields [(F1,[C]), (none,[])]. *)
Theorem feast_groups (db : DB) (chants_in_folio : list Chant.t) :
  get_chants_with_feasts db chants_in_folio
  = (map (fun f =>
            (Some f,
             filter (in_feast db (Some (Feast.id f))) chants_in_folio))
         (filter
            (fun f =>
               existsb (in_feast db (Some (Feast.id f))) chants_in_folio)
            (Feast_objects db))
     ++ [(None, filter (in_feast db None) chants_in_folio)])%list /\
  (NoDup (map Feast.id (Feast_objects db)) ->
   Permutation (flat_map snd (get_chants_with_feasts db chants_in_folio))
               chants_in_folio) /\
  feasts_of_folio scenario_db [record_A; record_B; record_C] "001r"
  = Ok [(Some F1, [record_A]); (Some F2, [record_B]); (None, [])] /\
  feasts_of_folio scenario_db [record_A; record_B; record_C] "002r"
  = Ok [(Some F1, [record_C]); (None, [])].
Proof.
  split; [apply get_chants_with_feasts_eq|].
  split; [|split; vm_compute; reflexivity].
  intros Hnd. rewrite get_chants_with_feasts_eq.
  rewrite flat_map_app, flat_map_concat_map, map_map, <- flat_map_concat_map.
  simpl. rewrite app_nil_r.
  rewrite (flat_map_filter_nil _
             (fun f => filter (in_feast db (Some (Feast.id f)))
                         chants_in_folio)).
  - apply groups_partition, Hnd.
  - intros f. apply filter_nil_existsb.
Qed.

Lemma feast_groups_witness :
  Permutation
    (flat_map snd
       (get_chants_with_feasts scenario_db [record_A; record_B; record_C]))
    [record_A; record_B; record_C].
Proof.
  apply (proj1 (proj2 (feast_groups scenario_db
                         [record_A; record_B; record_C]))).
  vm_compute. repeat constructor; simpl; intuition discriminate.
Defined.

(* ------------------------------------------------------------------ *)
(** ** The melodies filter *)

Lemma search_criteria_melodies_true (GET : QueryDict) (db : DB) (c : Chant.t) :
  param GET "melodies" = Some "true" ->
  search_criteria GET db c <->
  search_criteria_but_melodies GET db c /\ Chant.volpiano c <> None.
Proof.
  intros Hm. unfold search_criteria, search_criteria_but_melodies.
  rewrite Hm. unfold when_given at 6. split.
  - intros (H1 & H2 & H3 & H4 & H5 & H6 & H7 & H8).
    specialize (H6 "true" eq_refl eq_refl). tauto.
  - intros ((H1 & H2 & H3 & H4 & H5 & H7 & H8) & H6).
    repeat split; try assumption. intros v [= <-] _. exact H6.
Qed.

Lemma source_melodies_true (GET : QueryDict) (c : Chant.t) :
  param GET "melodies" = Some "true" ->
  source_melodies_criterion GET c <-> Chant.volpiano c <> None.
Proof.
  intros Hm. unfold source_melodies_criterion, when_given. rewrite Hm. split.
  - intros H. apply (H "true"); reflexivity.
  - intros H v [= <-]. split; [intros _; exact H | discriminate].
Qed.

Lemma source_melodies_false (GET : QueryDict) (c : Chant.t) :
  param GET "melodies" = Some "false" ->
  source_melodies_criterion GET c <-> Chant.volpiano c = None.
Proof.
  intros Hm. unfold source_melodies_criterion, when_given. rewrite Hm. split.
  - intros H. apply (H "false"); reflexivity.
  - intros H v [= <-]. split; [discriminate | intros _; exact H].
Qed.

Lemma melody_non_empty_spec (c : Chant.t) :
  Chant.volpiano c <> Some "" ->
  Chant.volpiano c <> None <-> melody_non_empty c.
Proof.
  intros Hne. unfold melody_non_empty. split.
  - intros H. destruct (Chant.volpiano c) as [volpiano|]; [|contradiction].
    exists volpiano. split; [reflexivity|]. intros ->. contradiction.
  - intros (volpiano & -> & _). discriminate.
Qed.

Lemma melody_empty_spec (c : Chant.t) :
  Chant.volpiano c <> Some "" ->
  Chant.volpiano c = None <-> melody_empty c.
Proof.
  intros Hne. unfold melody_empty. split; [auto|].
  intros [H|H]; [exact H|contradiction].
Qed.

(** C6, as stated, fails in the per-source search of source 680970: with
    melodies = "true" the record of that source that has a non-empty
    melody encoding, and meets every other criterion (there is none), is
    not in the result. *)
Lemma melodies_filter_counterexample :
  In chant_with_melody (source_records db_680970 680970) /\
  source_search_criteria [("melodies", "true")] db_680970 chant_with_melody /\
  keyword_criterion [("melodies", "true")] chant_with_melody /\
  melody_non_empty chant_with_melody /\
  exists l,
    ChantSearchMSView_get_queryset 680970 [("melodies", "true")] db_680970
      = Ok l /\
    ~ In chant_with_melody l.
Proof.
  split; [left; reflexivity|].
  split; [unfold source_search_criteria, when_given; simpl;
          repeat split; discriminate|].
  split; [unfold keyword_criterion, when_given; simpl; discriminate|].
  split; [exists "1---c"; split; [reflexivity|discriminate]|].
  exists []. split; [reflexivity | intros []].
Qed.

(** C6, amended.  The melodies filter selects by presence of the melody
    encoding.  Of the records whose melody-encoding field is null or a
    non-empty string, with melodies = "true" the global search (made
    without search_bar) returns exactly those that meet the other criteria
    and have a non-empty melody encoding, and so does the per-source
    search of any source other than 680970; with melodies = "false" the
    per-source search returns exactly those of the source that meet the
    other criteria and have an empty melody encoding.  The searches answer
    when the service and genre parameters are numbers and, for the
    per-source search, the source exists and lies in a segment.  Nothing
    is stated of a record whose melody encoding is the empty string. *)
Theorem melodies_filter
  (auth : bool) (source_pk : Z) (GET : QueryDict) (db : DB) :
  (param GET "melodies" = Some "true" ->
   param GET "search_bar" = None ->
   numeric_ids GET ->
   exists l,
     ChantSearchView_get_queryset auth GET db = Ok l /\
     forall c,
       Chant.volpiano c <> Some "" ->
       In c l <->
       (In c (visible auth db) /\ search_criteria_but_melodies GET db c) /\
       melody_non_empty c) /\
  (param GET "melodies" = Some "true" ->
   source_pk <> 680970 ->
   numeric_ids GET ->
   forall s segment_id,
     Source_find db source_pk = Some s ->
     Source.segment s = Some segment_id ->
     exists l,
       ChantSearchMSView_get_queryset source_pk GET db = Ok l /\
       forall c,
         Chant.volpiano c <> Some "" ->
         In c l <->
         (In c (source_records db source_pk) /\
          source_search_criteria GET db c /\ keyword_criterion GET c) /\
         melody_non_empty c) /\
  (param GET "melodies" = Some "false" ->
   numeric_ids GET ->
   forall s segment_id,
     Source_find db source_pk = Some s ->
     Source.segment s = Some segment_id ->
     exists l,
       ChantSearchMSView_get_queryset source_pk GET db = Ok l /\
       forall c,
         Chant.volpiano c <> Some "" ->
         In c l <->
         (In c (source_records db source_pk) /\
          source_search_criteria GET db c /\ keyword_criterion GET c) /\
         melody_empty c).
Proof.
  split; [|split].
  - intros Hm Hsb Hnum.
    assert (Hne : QueryDict_empty GET = false).
    { apply (QueryDict_get_nonempty GET "melodies" "true").
      apply param_QueryDict_get, Hm. }
    destruct (ChantSearchView_search_Ok auth GET db Hne Hsb Hnum) as (l & Hl).
    exists l. split; [exact Hl|]. intros c Hc.
    rewrite (ChantSearchView_search_members auth GET db l Hne Hsb Hl c).
    rewrite (search_criteria_melodies_true GET db c Hm).
    rewrite (melody_non_empty_spec c Hc). tauto.
  - intros Hm Hpk Hnum s seg Hs Hseg.
    assert (Hne : QueryDict_empty GET = false).
    { apply (QueryDict_get_nonempty GET "melodies" "true").
      apply param_QueryDict_get, Hm. }
    assert (Hex : ~ excluded source_pk GET) by (intros (_ & E); contradiction).
    destruct (ChantSearchMSView_search_Ok source_pk GET db s seg
                Hne Hex Hnum Hs Hseg) as (l & Hl).
    exists l. split; [exact Hl|]. intros c Hc.
    rewrite (ChantSearchMSView_search_members source_pk GET db l Hne Hex Hl c).
    rewrite (source_melodies_true GET c Hm).
    rewrite (melody_non_empty_spec c Hc). tauto.
  - intros Hm Hnum s seg Hs Hseg.
    assert (Hne : QueryDict_empty GET = false).
    { apply (QueryDict_get_nonempty GET "melodies" "false").
      apply param_QueryDict_get, Hm. }
    assert (Hex : ~ excluded source_pk GET).
    { intros (E & _). apply param_QueryDict_get in Hm. congruence. }
    destruct (ChantSearchMSView_search_Ok source_pk GET db s seg
                Hne Hex Hnum Hs Hseg) as (l & Hl).
    exists l. split; [exact Hl|]. intros c Hc.
    rewrite (ChantSearchMSView_search_members source_pk GET db l Hne Hex Hl c).
    rewrite (source_melodies_false GET c Hm).
    rewrite (melody_empty_spec c Hc). tauto.
Qed.

Lemma melodies_filter_witness :
  ChantSearchMSView_get_queryset 10 [("melodies", "false")] example_db
    = Ok [chant_2] /\
  ChantSearchMSView_get_queryset 10 [("melodies", "true")] example_db
    = Ok [chant_1] /\
  exists l,
    ChantSearchMSView_get_queryset 10 [("melodies", "false")] example_db
      = Ok l /\
    forall c,
      Chant.volpiano c <> Some "" ->
      In c l <->
      (In c (source_records example_db 10) /\
       source_search_criteria [("melodies", "false")] example_db c /\
       keyword_criterion [("melodies", "false")] c) /\
      melody_empty c.
Proof.
  split; [vm_compute; reflexivity|].
  split; [vm_compute; reflexivity|].
  apply (proj2 (proj2 (melodies_filter true 10 [("melodies", "false")]
                         example_db)))
    with (s := Source.mk 10 true (Some 4063) (Some "A-B"))
         (segment_id := 4063).
  - reflexivity.
  - split; intros v H; vm_compute in H; discriminate H.
  - reflexivity.
  - reflexivity.
Defined.

(** The empty string.  The views test the field with [volpiano__isnull],
    which counts an empty string as a melody: the chant of
    [empty_string_db], whose melody encoding is the empty string, is
    returned for melodies = "true" by both searches and withheld for
    melodies = "false" by the per-source search.  The docstring of the
    filter speaks of chants that contain a melody, and the other tests of
    the field in chant.py are truthiness tests, which an empty string
    fails. *)
Lemma empty_string_counts_as_melody :
  melody_empty chant_with_empty_string /\
  ChantSearchView_get_queryset true [("melodies", "true")] empty_string_db
  = Ok [chant_with_empty_string] /\
  ChantSearchMSView_get_queryset 10 [("melodies", "true")] empty_string_db
  = Ok [chant_with_empty_string] /\
  ChantSearchMSView_get_queryset 10 [("melodies", "false")] empty_string_db
  = Ok [].
Proof.
  split; [right; reflexivity|].
  split; [vm_compute; reflexivity|].
  split; vm_compute; reflexivity.
Qed.

(* ------------------------------------------------------------------ *)
(** ** The keyword filter *)

Lemma guard_false_not_excluded (source_pk : Z) (GET : QueryDict) :
  match QueryDict_get GET "melodies" with
  | Some m => String.eqb m "true"
  | None => false
  end && (source_pk =? 680970) = false ->
  ~ excluded source_pk GET.
Proof.
  intros H (Hm & Hpk). rewrite Hm, Hpk in H. discriminate H.
Qed.

(** C7.  The filter built for a keyword holds of a record exactly when one
    of the three text fields (standardized spelling, manuscript text,
    incipit) matches the keyword, as a case-insensitive substring when op is
    "contains" and as a case-insensitive prefix for any other or no op.  Both
    search views apply it: with a keyword, every record of the global search
    (made without search_bar) and of the per-source search matches.  With
    keyword "alleluia" and op "starts_with" the record with incipit
    "Alleluia dulce" matches, the one whose only text is "Cantate alleluia"
    does not, and the latter matches under op "contains". *)
Theorem keyword_filter_spec :
  (forall db op keyword,
      exists p,
        resolve db (keyword_filter op keyword) = Ok p /\
        forall c, p c = true <-> keyword_matches op keyword c) /\
  (forall auth GET db keyword l,
      param GET "search_bar" = None ->
      param GET "keyword" = Some keyword ->
      ChantSearchView_get_queryset auth GET db = Ok l ->
      forall c, In c l ->
                keyword_matches (QueryDict_get GET "op") keyword c) /\
  (forall source_pk GET db keyword l,
      param GET "keyword" = Some keyword ->
      ChantSearchMSView_get_queryset source_pk GET db = Ok l ->
      forall c, In c l ->
                keyword_matches (QueryDict_get GET "op") keyword c) /\
  keyword_matches (Some "starts_with") "alleluia" chant_1 /\
  ~ keyword_matches (Some "starts_with") "alleluia" chant_2 /\
  keyword_matches (Some "contains") "alleluia" chant_2.
Proof.
  split; [|split; [|split; [|split; [|split]]]].
  - intros db op keyword. apply keyword_filter_resolve.
  - intros auth GET db keyword l Hsb Hkw Hl c Hc.
    assert (Hne : QueryDict_empty GET = false).
    { apply param_QueryDict_get in Hkw.
      apply (QueryDict_get_nonempty _ _ _ Hkw). }
    apply (ChantSearchView_search_members auth GET db l Hne Hsb Hl) in Hc.
    destruct Hc as (_ & Hcrit).
    destruct Hcrit as (_ & _ & _ & _ & _ & _ & _ & Hk).
    apply Hk, Hkw.
  - intros source_pk GET db keyword l Hkw Hl c Hc.
    assert (Hne : QueryDict_empty GET = false).
    { apply param_QueryDict_get in Hkw.
      apply (QueryDict_get_nonempty _ _ _ Hkw). }
    destruct (match QueryDict_get GET "melodies" with
              | Some m => String.eqb m "true"
              | None => false
              end && (source_pk =? 680970)) eqn:G.
    + unfold ChantSearchMSView_get_queryset in Hl. rewrite Hne, G in Hl.
      injection Hl as <-. destruct Hc.
    + apply guard_false_not_excluded in G.
      apply (ChantSearchMSView_search_members source_pk GET db l Hne G Hl)
        in Hc.
      destruct Hc as (_ & _ & _ & Hk). apply Hk, Hkw.
  - destruct (keyword_filter_resolve example_db (Some "starts_with") "alleluia")
      as (p & Hp & Hiff).
    apply Hiff. injection Hp as <-. vm_compute. reflexivity.
  - destruct (keyword_filter_resolve example_db (Some "starts_with") "alleluia")
      as (p & Hp & Hiff).
    intros H. apply Hiff in H. injection Hp as <-. vm_compute in H.
    discriminate H.
  - destruct (keyword_filter_resolve example_db (Some "contains") "alleluia")
      as (p & Hp & Hiff).
    apply Hiff. injection Hp as <-. vm_compute. reflexivity.
Qed.

Lemma keyword_filter_spec_witness :
  ChantSearchView_get_queryset true
    [("keyword", "alleluia"); ("op", "starts_with")] example_db
  = Ok [chant_1; sequence_1] /\
  Forall (keyword_matches (Some "starts_with") "alleluia")
         [chant_1; sequence_1].
Proof.
  split; [vm_compute; reflexivity|].
  apply Forall_forall. intros c Hc.
  apply (proj1 (proj2 keyword_filter_spec) true
           [("keyword", "alleluia"); ("op", "starts_with")] example_db
           "alleluia" [chant_1; sequence_1]).
  - reflexivity.
  - reflexivity.
  - vm_compute. reflexivity.
  - exact Hc.
Defined.

(* ------------------------------------------------------------------ *)
(** ** Suggested feasts *)

Lemma Feast_eqb_refl (f : Feast.t) : Feast_eqb f f = true.
Proof. apply Z.eqb_refl. Qed.

Lemma Feast_eqb_sym (f g : Feast.t) : Feast_eqb f g = Feast_eqb g f.
Proof. apply Z.eqb_sym. Qed.

Lemma Feast_eqb_trans (f g h : Feast.t) :
  Feast_eqb f g = true -> Feast_eqb g h = true -> Feast_eqb f h = true.
Proof. unfold Feast_eqb. rewrite !Z.eqb_eq. congruence. Qed.

Lemma Feast_eqb_id (f g : Feast.t) :
  Feast_eqb f g = true <-> Feast.id f = Feast.id g.
Proof. apply Z.eqb_eq. Qed.

Lemma Feast_eqb_congr (f g h : Feast.t) :
  Feast_eqb f g = true -> Feast_eqb f h = Feast_eqb g h.
Proof.
  unfold Feast_eqb. rewrite Z.eqb_eq. intros ->. reflexivity.
Qed.

(** *** First encounters *)

Lemma first_seen_existsb (x : Feast.t) (l : list Feast.t) :
  existsb (Feast_eqb x) (first_seen l) = existsb (Feast_eqb x) l.
Proof.
  induction l as [|a l IH]; simpl; [reflexivity|].
  destruct (Feast_eqb x a) eqn:E; simpl; [reflexivity|].
  rewrite <- IH. clear IH.
  induction (first_seen l) as [|b s IHs]; simpl; [reflexivity|].
  destruct (Feast_eqb a b) eqn:Eab; simpl.
  - rewrite IHs.
    assert (Exb : Feast_eqb x b = false).
    { rewrite Feast_eqb_sym, <- (Feast_eqb_congr a b x Eab), Feast_eqb_sym.
      exact E. }
    rewrite Exb. reflexivity.
  - rewrite IHs. reflexivity.
Qed.

Lemma first_seen_snoc (l : list Feast.t) (x : Feast.t) :
  first_seen (l ++ [x])
  = if existsb (Feast_eqb x) l then first_seen l
    else (first_seen l ++ [x])%list.
Proof.
  induction l as [|a l IH]; simpl; [reflexivity|].
  rewrite IH. rewrite (Feast_eqb_sym x a).
  destruct (existsb (Feast_eqb x) l) eqn:E.
  - rewrite orb_true_r. reflexivity.
  - rewrite orb_false_r, filter_app. simpl.
    destruct (Feast_eqb a x); simpl; [rewrite app_nil_r|]; reflexivity.
Qed.

Lemma first_seen_NoDup (l : list Feast.t) :
  NoDup (map Feast.id (first_seen l)).
Proof.
  induction l as [|a l IH]; simpl; [constructor|].
  constructor.
  - intros Hin. apply in_map_iff in Hin. destruct Hin as (g & Hid & Hg).
    apply filter_In in Hg. destruct Hg as (_ & Hg).
    assert (E : Feast_eqb a g = true) by (apply Feast_eqb_id; congruence).
    rewrite E in Hg. discriminate Hg.
  - induction (first_seen l) as [|b s IHs]; simpl; [constructor|].
    simpl in IH. inversion IH as [|? ? Hb Hs]; subst.
    destruct (Feast_eqb a b); simpl; [apply IHs, Hs|].
    constructor; [|apply IHs, Hs].
    intros Hin. apply Hb. apply in_map_iff in Hin.
    destruct Hin as (g & Hid & Hg). apply filter_In in Hg.
    apply in_map_iff. exists g. tauto.
Qed.

Lemma occurrences_snoc (g x : Feast.t) (l : list Feast.t) :
  occurrences g (l ++ [x])
  = occurrences g l + (if Feast_eqb g x then 1 else 0).
Proof.
  unfold occurrences. rewrite filter_app, length_app. simpl.
  destruct (Feast_eqb g x); simpl; lia.
Qed.

Lemma occurrences_absent (x : Feast.t) (l : list Feast.t) :
  existsb (Feast_eqb x) l = false -> occurrences x l = 0.
Proof.
  unfold occurrences. intros H.
  rewrite (filter_nil_existsb _ _ H). reflexivity.
Qed.

(** *** The counter *)

Lemma Counter_incr_map (cnt : Feast.t -> Z) (keys : list Feast.t)
  (x : Feast.t) :
  NoDup (map Feast.id keys) ->
  Counter_incr (map (fun g => (g, cnt g)) keys) x
  = (map (fun g => (g, cnt g + (if Feast_eqb g x then 1 else 0))) keys ++
     (if existsb (Feast_eqb x) keys then [] else [(x, 1)]))%list.
Proof.
  induction keys as [|k ks IH]; intros Hnd; simpl; [reflexivity|].
  inversion Hnd as [|? ? Hk Hks]; subst.
  rewrite (Feast_eqb_sym x k).
  destruct (Feast_eqb k x) eqn:E; simpl.
  - rewrite app_nil_r. f_equal. apply map_ext_in. intros g Hg.
    destruct (Feast_eqb g x) eqn:Eg; [|rewrite Z.add_0_r; reflexivity].
    exfalso. apply Hk. apply in_map_iff. exists g. split; [|exact Hg].
    apply Feast_eqb_id in E, Eg. congruence.
  - rewrite (IH Hks), Z.add_0_r. reflexivity.
Qed.

Lemma Counter_eq (l : list Feast.t) : Counter l = encounter_counts l.
Proof.
  unfold Counter, encounter_counts.
  induction l as [|x l IH] using rev_ind; [reflexivity|].
  rewrite fold_left_app. simpl. rewrite IH.
  rewrite (Counter_incr_map _ _ _ (first_seen_NoDup l)).
  rewrite first_seen_snoc, first_seen_existsb.
  destruct (existsb (Feast_eqb x) l) eqn:E.
  - rewrite app_nil_r. apply map_ext. intros g.
    rewrite occurrences_snoc. reflexivity.
  - rewrite map_app. simpl. f_equal.
    + apply map_ext. intros g. rewrite occurrences_snoc. reflexivity.
    + rewrite occurrences_snoc, Feast_eqb_refl, (occurrences_absent x l E).
      reflexivity.
Qed.

(** *** The ranking *)

Lemma sort_desc_stable (n : Z) (l : list (Feast.t * Z)) :
  filter (fun p => snd p =? n) (sort by_count_desc l)
  = filter (fun p => snd p =? n) l.
Proof.
  induction l as [|x l IH]; simpl; [reflexivity|].
  rewrite filter_insert.
  - rewrite IH. reflexivity.
  - intros Hx y Hy. unfold by_count_desc in Hy.
    apply Z.eqb_eq in Hx. apply Z.leb_gt in Hy. apply Z.eqb_neq. lia.
Qed.

Lemma sort_desc_sorted (l : list (Feast.t * Z)) :
  StronglySorted (fun a b => snd b <= snd a) (sort by_count_desc l).
Proof.
  apply Sorted_StronglySorted.
  - intros a b c Hab Hbc. lia.
  - eapply Sorted_weaken; [|apply (sort_sorted by_count_desc)].
    + intros a b H. apply Z.leb_le, H.
    + intros a b H. unfold by_count_desc in *.
      apply Z.leb_gt in H. apply Z.leb_le. lia.
Qed.

(** *** [dict] of pairs with distinct keys *)

Lemma dict_set_fresh (d : list (Feast.t * Z)) (k : Feast.t) (n : Z) :
  ~ In (Feast.id k) (map (fun e => Feast.id (fst e)) d) ->
  dict_set d k n = (d ++ [(k, n)])%list.
Proof.
  induction d as [|[k' m] d IH]; simpl; [reflexivity|].
  intros H. destruct (Feast_eqb k' k) eqn:E.
  - exfalso. apply H. left. apply Feast_eqb_id, E.
  - rewrite IH; [reflexivity|]. intros Hin. apply H. right. exact Hin.
Qed.

Lemma dict_distinct (l d : list (Feast.t * Z)) :
  NoDup (map (fun e => Feast.id (fst e)) (d ++ l)) ->
  fold_left (fun d item => dict_set d (fst item) (snd item)) l d
  = (d ++ l)%list.
Proof.
  revert d. induction l as [|[k n] l IH]; intros d Hnd; simpl.
  - rewrite app_nil_r. reflexivity.
  - rewrite dict_set_fresh.
    + rewrite IH; rewrite <- app_assoc; [reflexivity | exact Hnd].
    + rewrite map_app in Hnd. simpl in Hnd.
      apply NoDup_remove_2 in Hnd. intros Hin. apply Hnd.
      apply in_or_app. left. exact Hin.
Qed.

Lemma encounter_counts_keys (l : list Feast.t) :
  NoDup (map (fun e => Feast.id (fst e)) (encounter_counts l)).
Proof.
  unfold encounter_counts. rewrite map_map. simpl. apply first_seen_NoDup.
Qed.

Lemma get_suggested_feasts_eq (db : DB) (latest_chant : Chant.t)
  (f : Feast.t) :
  Chant_feast db latest_chant = Some f ->
  get_suggested_feasts db latest_chant
  = sort by_count_desc (encounter_counts (following_feasts db f)).
Proof.
  intros Hf. unfold get_suggested_feasts. rewrite Hf. simpl.
  assert (E : forall l,
             flat_map
               (fun chant =>
                  match chant with
                  | Some chant =>
                      match Chant_feast db chant with
                      | Some feast => [feast]
                      | None => []
                      end
                  | None => []
                  end)
               (map (Chant_next_chant db) l)
             = flat_map
                 (fun c =>
                    match Chant_next_chant db c with
                    | Some next =>
                        match Chant_feast db next with
                        | Some g => [g]
                        | None => []
                        end
                    | None => []
                    end) l).
  { induction l as [|c l IH]; simpl; [reflexivity|]. rewrite IH.
    reflexivity. }
  rewrite E. fold (following_feasts db f). rewrite Counter_eq.
  unfold dict. fold by_count_desc.
  rewrite dict_distinct; [reflexivity|]. simpl.
  eapply Permutation_NoDup;
    [|apply (encounter_counts_keys (following_feasts db f))].
  apply Permutation_map, Permutation_sym, sort_perm.
Qed.

(** C8.  For a reference record with a feast, the suggestion aggregator
    returns one pair per feast met among the feasts that followed the
    reference feast (the feast of the next chant of every chant flagged last
    in the reference feast, missing next chants and next chants without
    feast left out), the feast paired with its number of occurrences; the
    pairs are in descending order of count, and the pairs of equal count
    stand in the order in which their feasts were first met. *)
Theorem suggested_feasts_ranked
  (db : DB) (latest_chant : Chant.t) (f : Feast.t) :
  Chant_feast db latest_chant = Some f ->
  let next_feasts := following_feasts db f in
  let ranked := get_suggested_feasts db latest_chant in
  (forall g n,
      In (g, n) ranked <->
      In g (first_seen next_feasts) /\ n = occurrences g next_feasts) /\
  Permutation ranked (encounter_counts next_feasts) /\
  StronglySorted (fun a b => snd b <= snd a) ranked /\
  (forall n,
      filter (fun p => snd p =? n) ranked
      = filter (fun p => snd p =? n) (encounter_counts next_feasts)).
Proof.
  intros Hf. cbv zeta. rewrite (get_suggested_feasts_eq db latest_chant f Hf).
  split; [|split; [|split]].
  - intros g n. rewrite sort_In. unfold encounter_counts.
    rewrite in_map_iff. split.
    + intros (g' & [= <- <-] & Hg). split; [exact Hg | reflexivity].
    + intros (Hg & ->). exists g. split; [reflexivity | exact Hg].
  - apply sort_perm.
  - apply sort_desc_sorted.
  - intros n. apply sort_desc_stable.
Qed.

Lemma suggested_feasts_ranked_witness :
  get_suggested_feasts suggestion_db
    (fixture 1 (Some 10) (Some "001r") (Some 1) None None (Some 1) (Some 2)
       true)
  = [ (Feast.mk 3 "Stephani", 2); (Feast.mk 2 "Epiphania", 1);
      (Feast.mk 4 "Joannis", 1) ] /\
  StronglySorted (fun a b => snd b <= snd a)
    (get_suggested_feasts suggestion_db
       (fixture 1 (Some 10) (Some "001r") (Some 1) None None (Some 1)
          (Some 2) true)).
Proof.
  split; [vm_compute; reflexivity|].
  apply (suggested_feasts_ranked suggestion_db _ (Feast.mk 1 "Nativitas")).
  vm_compute. reflexivity.
Defined.

(* ------------------------------------------------------------------ *)
(** ** Creating a chant at an occupied position *)

Lemma option_Z_eq_refl (o : option Z) : option_Z_eq o o = true.
Proof. destruct o; simpl; [apply Z.eqb_refl | reflexivity]. Qed.

Lemma option_string_eq_refl (o : option string) : option_string_eq o o = true.
Proof. destruct o; simpl; [apply String.eqb_refl | reflexivity]. Qed.

(** C9.  When the store holds a chant of the same source at the folio and
    sequence number of the submitted chant, [form_valid] answers with the
    form re-rendered, the duplicate-position error attached to it as a
    non-field error, and the stored collection is the one it started from.
    The submitted form carries its standardized-spelling text, a required
    field of the form that the view splits into words first. *)
Theorem duplicate_position_rejected
  (self_source : Source.t) (user : Z) (form : Form.t) (db : DB)
  (text : string) :
  Chant.manuscript_full_text_std_spelling (Form.instance form) = Some text ->
  (exists c,
      In c (Chant_objects db) /\
      Chant.source c = Some (Source.id self_source) /\
      Chant.folio c = Chant.folio (Form.instance form) /\
      Chant.c_sequence c = Chant.c_sequence (Form.instance form)) ->
  exists form',
    ChantCreateView_form_valid self_source user form db
      = Ok (RenderForm form', db) /\
    In (None, duplicate_error) (Form.errors form').
Proof.
  intros Htext (c & Hin & Hsrc & Hfolio & Hseq).
  unfold ChantCreateView_form_valid.
  destruct form as [instance errors]. simpl in *.
  destruct instance. simpl in *. rewrite Htext. simpl.
  match goal with
  | |- context [existsb ?f ?l] =>
      assert (E : existsb f l = true)
  end.
  { apply existsb_exists. exists c. split; [exact Hin|].
    rewrite Hsrc, Hfolio, Hseq. simpl.
    rewrite Z.eqb_refl, option_string_eq_refl, option_Z_eq_refl.
    reflexivity. }
  rewrite E. unfold is_valid, add_error. simpl.
  destruct errors as [|e errors]; simpl.
  - eexists. split; [reflexivity|]. simpl. left. reflexivity.
  - eexists. split; [reflexivity|]. simpl. right.
    apply in_or_app. right. left. reflexivity.
Qed.

Lemma duplicate_position_rejected_witness :
  exists form',
    ChantCreateView_form_valid (Source.mk 10 true (Some 4063) (Some "A-B")) 7
      (Form.mk
         (Chant.mk 0 None (Some "001r") (Some 1) None None
            (Some "Alleluia dulce carmen") None None None None None None
            None None None None false None None)
         [])
      example_db
    = Ok (RenderForm form', example_db) /\
    In (None, duplicate_error) (Form.errors form').
Proof.
  apply (duplicate_position_rejected _ _ _ _ "Alleluia dulce carmen").
  - reflexivity.
  - exists chant_1. vm_compute. auto.
Defined.

(* ------------------------------------------------------------------ *)
(** ** The exclusion of source 680970 *)

(** C10.  In the per-source search of source 680970 a request whose
    melodies parameter is "true" gets the empty result, whatever the other
    parameters and whatever the store holds. *)
Theorem source_680970_melodies_true_empty (GET : QueryDict) (db : DB) :
  QueryDict_get GET "melodies" = Some "true" ->
  ChantSearchMSView_get_queryset 680970 GET db = Ok [].
Proof.
  intros H. unfold ChantSearchMSView_get_queryset.
  destruct (QueryDict_empty GET); [reflexivity|].
  rewrite H. reflexivity.
Qed.

Lemma source_680970_melodies_true_empty_witness :
  ChantSearchMSView_get_queryset 680970
    [("genre", "not a number"); ("melodies", "true")] example_db = Ok [].
Proof.
  apply source_680970_melodies_true_empty. reflexivity.
Defined.

(* ================================================================== *)
(** * Further properties of the code *)

(* ------------------------------------------------------------------ *)
(** ** The touch_all_chants command *)

Lemma fold_chant_save (chunk : list Chant.t) (st : Touch.state) :
  fold_left chant_save chunk st
  = Touch.mk (Touch.stdout st) (Touch.saved st ++ chunk)%list.
Proof.
  revert st. induction chunk as [|c chunk IH]; intros st; simpl.
  - rewrite app_nil_r. destruct st; reflexivity.
  - rewrite IH. simpl. rewrite <- app_assoc. reflexivity.
Qed.

Lemma chunk_starts_S (n start : nat) :
  chunk_starts (S n) start = start :: chunk_starts n (start + CHUNK_SIZE).
Proof.
  unfold chunk_starts. cbn [seq map]. f_equal; [lia|].
  rewrite <- seq_shift, map_map. apply map_ext. intros i.
  unfold CHUNK_SIZE. lia.
Qed.

Lemma chunks_S (delivery : nat -> list Chant.t) (n round start : nat) :
  chunks delivery (S n) round start
  = firstn CHUNK_SIZE (skipn start (delivery round))
    :: chunks delivery n (S round) (start + CHUNK_SIZE).
Proof.
  unfold chunks. cbn [seq map]. f_equal.
  - cbn [Nat.mul]. rewrite !Nat.add_0_r. reflexivity.
  - rewrite <- seq_shift, map_map. apply map_ext. intros i.
    replace (S round + i)%nat with (round + S i)%nat by lia.
    do 2 f_equal. unfold CHUNK_SIZE. lia.
Qed.

Lemma rounds_S (count start : nat) :
  (start <= count)%nat ->
  ((count + CHUNK_SIZE - start) / CHUNK_SIZE
   = S ((count + CHUNK_SIZE - (start + CHUNK_SIZE)) / CHUNK_SIZE))%nat.
Proof.
  intros Hle.
  replace (count + CHUNK_SIZE - start)%nat
    with ((count + CHUNK_SIZE - (start + CHUNK_SIZE))
          + 1 * CHUNK_SIZE)%nat by lia.
  rewrite Nat.div_add by (unfold CHUNK_SIZE; lia). lia.
Qed.

Lemma rounds_0 (count : nat) :
  ((count + CHUNK_SIZE - 0) / CHUNK_SIZE = count / CHUNK_SIZE + 1)%nat.
Proof.
  rewrite Nat.sub_0_r.
  replace (count + CHUNK_SIZE)%nat with (count + 1 * CHUNK_SIZE)%nat by lia.
  apply Nat.div_add. unfold CHUNK_SIZE. lia.
Qed.

(** The loop, from any round on: it ends, having announced and saved the
    chunks of the rounds left. *)
Lemma handle_loop_spec (delivery : nat -> list Chant.t)
  (count fuel round start : nat) (st : Touch.state) :
  ((count + CHUNK_SIZE - start) / CHUNK_SIZE < fuel)%nat ->
  handle_loop delivery fuel round count start st
  = Some (Touch.mk
            (Touch.stdout st ++
             map Touch.processing_chunk
               (chunk_starts ((count + CHUNK_SIZE - start) / CHUNK_SIZE)
                  start))%list
            (Touch.saved st ++
             List.concat (chunks delivery
                       ((count + CHUNK_SIZE - start) / CHUNK_SIZE)
                       round start))%list).
Proof.
  revert round start st.
  induction fuel as [|fuel IH]; intros round start st Hfuel; [lia|].
  cbn [handle_loop].
  destruct (Nat.leb_spec start count) as [Hle|Hgt].
  - rewrite (rounds_S count start Hle) in *. rewrite IH by lia.
    rewrite fold_chant_save, chunk_starts_S, chunks_S. unfold write.
    cbn [Touch.stdout Touch.saved map List.concat].
    rewrite <- !app_assoc. reflexivity.
  - assert (Hr : ((count + CHUNK_SIZE - start) / CHUNK_SIZE = 0)%nat).
    { apply Nat.div_small. unfold CHUNK_SIZE. lia. }
    rewrite Hr. cbn [chunk_starts chunks seq map List.concat].
    rewrite !app_nil_r. destruct st; reflexivity.
Qed.

(** The chunks of all the rounds hold as many chants as the table when
    every query delivers that many rows. *)
Lemma chunks_length (delivery : nat -> list Chant.t) (count : nat)
  (n round start : nat) :
  (forall r, List.length (delivery r) = count) ->
  List.length (List.concat (chunks delivery n round start))
  = Nat.min (n * CHUNK_SIZE) (count - start).
Proof.
  intros Hlen. revert round start.
  induction n as [|n IH]; intros round start.
  - reflexivity.
  - rewrite chunks_S. cbn [List.concat]. rewrite length_app, IH.
    rewrite length_firstn, length_skipn, Hlen. unfold CHUNK_SIZE. lia.
Qed.

Lemma In_firstn_skipn {A : Type} (n m : nat) (l : list A) (x : A) :
  In x (firstn n (skipn m l)) -> In x l.
Proof.
  intros H. rewrite <- (firstn_skipn m l). apply in_or_app. right.
  rewrite <- (firstn_skipn n (skipn m l)). apply in_or_app. left. exact H.
Qed.

Lemma chunks_In (delivery : nat -> list Chant.t) (n round start : nat)
  (c : Chant.t) :
  In c (List.concat (chunks delivery n round start)) ->
  exists r, In c (delivery r).
Proof.
  intros H. apply in_concat in H. destruct H as (chunk & Hchunk & Hc).
  unfold chunks in Hchunk. apply in_map_iff in Hchunk.
  destruct Hchunk as (i & <- & _).
  exists (round + i)%nat.
  exact (In_firstn_skipn _ _ _ _ Hc).
Qed.

Lemma saved_rows_last_Permutation (rows : list Chant.t) (n : nat) :
  Permutation (saved_rows_last rows n) rows.
Proof.
  unfold saved_rows_last.
  etransitivity; [apply Permutation_app_comm|].
  rewrite firstn_skipn. reflexivity.
Qed.

Lemma chants_1001_NoDup : NoDup chants_1001.
Proof.
  apply (NoDup_map_inv Chant.id). unfold chants_1001. rewrite map_map.
  change (NoDup (map Z.of_nat (seq 1 1001))).
  apply Finite.Injective_map_NoDup; [exact Nat2Z.inj|apply seq_NoDup].
Qed.

(** X1 (touch_all_chants, Command.handle): the command runs to
    completion.  It announces [count / 1000 + 1] chunks starting at 0,
    1000, 2000, ... before the success line, so a table of exactly
    [k * 1000] chants (the empty table included) gets one last chunk with
    nothing in it.  Each chunk is cut out of the rows as the store
    delivers them to the query of its round, and the command saves these
    chunks one after the other: [count] saves in all, each of a chant of
    the table, and every chant once when the table has at most 1000
    chants.  With more chants the chunks need not be disjoint: where the
    store delivers the rows saved so far after the others, of 1001 chants
    number 1000 is saved twice and number 1001 never. *)
Theorem touch_all_chants_saves :
  (forall (delivery : nat -> list Chant.t) (db : DB) (fuel : nat),
     (forall n, Permutation (delivery n) (Chant_objects db)) ->
     (List.length (Chant_objects db) / CHUNK_SIZE + 1 < fuel)%nat ->
     exists st,
       Command_handle delivery fuel db = Some st /\
       Touch.stdout st
       = (map Touch.processing_chunk
            (chunk_starts (List.length (Chant_objects db) / CHUNK_SIZE + 1) 0)
          ++ [Touch.success])%list /\
       Touch.saved st
       = List.concat (chunks delivery
                   (List.length (Chant_objects db) / CHUNK_SIZE + 1) 0 0) /\
       List.length (Touch.saved st) = List.length (Chant_objects db) /\
       (forall c, In c (Touch.saved st) -> In c (Chant_objects db)) /\
       ((List.length (Chant_objects db) <= CHUNK_SIZE)%nat ->
        Permutation (Touch.saved st) (Chant_objects db))) /\
  (exists st,
     (forall n,
        Permutation (saved_rows_last chants_1001 n) (Chant_objects db_1001)) /\
     Command_handle (saved_rows_last chants_1001) 3 db_1001 = Some st /\
     NoDup (Chant_objects db_1001) /\
     Touch.saved st
     = (firstn 999 chants_1001 ++ [chant_number 1000; chant_number 1000])%list
     /\
     In (chant_number 1001) (Chant_objects db_1001) /\
     ~ In (chant_number 1001) (Touch.saved st)).
Proof.
  split.
  - intros delivery db fuel Hperm Hfuel. unfold Command_handle.
    pose proof (rounds_0 (List.length (Chant_objects db))) as Hn.
    rewrite (handle_loop_spec delivery _ fuel 0 0) by (rewrite Hn; lia).
    rewrite Hn. eexists. split; [reflexivity|].
    unfold write. cbn [Touch.stdout Touch.saved app].
    split; [reflexivity|]. split; [reflexivity|].
    assert (Hlen : forall r,
               List.length (delivery r) = List.length (Chant_objects db)).
    { intros r. apply Permutation_length, Hperm. }
    split; [|split].
    + rewrite (chunks_length delivery _ _ 0 0 Hlen).
      pose proof (Nat.div_mod_eq (List.length (Chant_objects db)) CHUNK_SIZE).
      pose proof (Nat.mod_upper_bound (List.length (Chant_objects db))
                    CHUNK_SIZE) as Hm.
      unfold CHUNK_SIZE in *. lia.
    + intros c Hc. apply chunks_In in Hc. destruct Hc as (r & Hc).
      exact (Permutation_in c (Hperm r) Hc).
    + intros Hsmall.
      destruct (Nat.eq_dec (List.length (Chant_objects db)) CHUNK_SIZE)
        as [He|Hne].
      * rewrite He.
        change (CHUNK_SIZE / CHUNK_SIZE + 1)%nat with 2%nat.
        cbn [chunks seq map List.concat]. rewrite app_nil_r.
        rewrite (skipn_all2 (n := (0 + 1 * CHUNK_SIZE)%nat))
          by (rewrite Hlen, He; unfold CHUNK_SIZE; lia).
        rewrite firstn_nil, app_nil_r. cbn [Nat.mul Nat.add skipn].
        rewrite firstn_all2 by (rewrite Hlen; lia). apply Hperm.
      * rewrite Nat.div_small by lia.
        cbn [chunks seq map List.concat Nat.add Nat.mul skipn].
        rewrite app_nil_r.
        rewrite firstn_all2 by (rewrite Hlen; lia). apply Hperm.
  - eexists.
    split; [intros n; apply saved_rows_last_Permutation|].
    split; [vm_compute; reflexivity|].
    split; [exact chants_1001_NoDup|].
    split; [vm_compute; reflexivity|].
    split.
    + apply in_map_iff. exists 1001%nat. split; [reflexivity|].
      apply in_seq. lia.
    + intros Hin.
      assert (Hall : forallb (fun c => Chant.id c <=? 1000)
                       (firstn 999 chants_1001
                        ++ [chant_number 1000; chant_number 1000])
                     = true) by (vm_compute; reflexivity).
      rewrite forallb_forall in Hall. specialize (Hall _ Hin).
      vm_compute in Hall. discriminate Hall.
Qed.

Lemma touch_all_chants_saves_witness :
  exists st,
    Command_handle (fun _ => Chant_objects big_db) 3 big_db = Some st /\
    Touch.stdout st = [Touch.processing_chunk 0; Touch.success] /\
    Permutation (Touch.saved st) (Chant_objects big_db).
Proof.
  destruct (proj1 touch_all_chants_saves (fun _ => Chant_objects big_db)
              big_db 3%nat (fun _ => Permutation_refl _))
    as (st & Hst & Hout & _ & _ & _ & Hperm); [vm_compute; lia|].
  exists st. split; [exact Hst|]. split; [exact Hout|].
  apply Hperm. vm_compute. lia.
Defined.

(* ------------------------------------------------------------------ *)
(** ** dict.fromkeys *)

Section FromkeysFacts.
Context {A : Type} (eqb : A -> A -> bool).
Hypothesis eqb_eq : forall a b, eqb a b = true <-> a = b.

Lemma fromkeys_add_In (d : list A) (x y : A) :
  In y (fromkeys_add eqb d x) <-> In y d \/ y = x.
Proof.
  induction d as [|z d IH]; simpl.
  - split; [intros [-> | []]; right; reflexivity
    | intros [[] | ->]; left; reflexivity].
  - destruct (eqb z x) eqn:E.
    + apply eqb_eq in E. subst. simpl.
      split; [tauto | intros [H | ->]; [exact H | left; reflexivity]].
    + simpl. rewrite IH. tauto.
Qed.

Lemma fromkeys_add_NoDup (d : list A) (x : A) :
  NoDup d -> NoDup (fromkeys_add eqb d x).
Proof.
  induction d as [|z d IH]; simpl; intros H.
  - constructor; [intros [] | constructor].
  - destruct (eqb z x) eqn:E; [exact H|].
    inversion H as [|? ? Hz Hd]; subst. constructor.
    + rewrite fromkeys_add_In. intros [Hin | ->]; [contradiction|].
      rewrite (proj2 (eqb_eq x x) eq_refl) in E. discriminate.
    + apply IH, Hd.
Qed.

Lemma fromkeys_add_hd (z : A) (d : list A) (x : A) :
  exists d', fromkeys_add eqb (z :: d) x = z :: d'.
Proof. simpl. destruct (eqb z x); eexists; reflexivity. Qed.

Lemma fold_fromkeys_In (items d : list A) (y : A) :
  In y (fold_left (fromkeys_add eqb) items d) <-> In y d \/ In y items.
Proof.
  revert d. induction items as [|x items IH]; intros d; simpl.
  - tauto.
  - rewrite IH, fromkeys_add_In. intuition congruence.
Qed.

Lemma fold_fromkeys_NoDup (items d : list A) :
  NoDup d -> NoDup (fold_left (fromkeys_add eqb) items d).
Proof.
  revert d. induction items as [|x items IH]; intros d H; simpl.
  - exact H.
  - apply IH, fromkeys_add_NoDup, H.
Qed.

Lemma fold_fromkeys_hd (items : list A) (z : A) (d : list A) :
  exists d', fold_left (fromkeys_add eqb) items (z :: d) = z :: d'.
Proof.
  revert d. induction items as [|x items IH]; intros d; simpl.
  - eexists; reflexivity.
  - destruct (eqb z x); apply IH.
Qed.

Lemma dict_fromkeys_In (items : list A) (y : A) :
  In y (dict_fromkeys eqb items) <-> In y items.
Proof. unfold dict_fromkeys. rewrite fold_fromkeys_In. simpl. tauto. Qed.

Lemma dict_fromkeys_NoDup (items : list A) : NoDup (dict_fromkeys eqb items).
Proof. apply fold_fromkeys_NoDup. constructor. Qed.

Lemma dict_fromkeys_hd (x : A) (items : list A) :
  exists d', dict_fromkeys eqb (x :: items) = x :: d'.
Proof. unfold dict_fromkeys. simpl. apply fold_fromkeys_hd. Qed.
End FromkeysFacts.

Lemma option_string_eq_spec (a b : option string) :
  option_string_eq a b = true <-> a = b.
Proof.
  destruct a as [x|], b as [y|]; simpl.
  - rewrite String.eqb_eq. split; congruence.
  - split; discriminate.
  - split; discriminate.
  - tauto.
Qed.

Lemma folio_feast_eqb_spec (a b : folio_feast) :
  folio_feast_eqb a b = true <-> a = b.
Proof.
  destruct a as [[f1 i1] n1], b as [[f2 i2] n2]. unfold folio_feast_eqb.
  rewrite !andb_true_iff, !option_string_eq_spec, Z.eqb_eq.
  split; [intros [[-> ->] ->]; reflexivity | intros [= -> -> ->]; auto].
Qed.

Lemma chant_set_In (db : DB) (source : Source.t) (c : Chant.t) :
  In c (chant_set db source) <->
  In c (Chant_objects db) /\ Chant.source c = Some (Source.id source).
Proof. unfold chant_set. rewrite filter_In, option_Z_eqb_eq. tauto. Qed.

(* ------------------------------------------------------------------ *)
(** ** get_feast_selector_options *)

(** X2 (get_feast_selector_options): the function always returns; no
    option is listed twice, also when a feast comes back on a folio after
    another feast; and the options are exactly the (folio, feast id, feast
    name) triples of the chants of the source that have a feast. *)
Theorem feast_selector_options_distinct (db : DB) (source : Source.t) :
  exists options,
    get_feast_selector_options db source = Ok options /\
    NoDup options /\
    forall folio feast_id name,
      In (folio, feast_id, name) options <->
      exists c,
        In c (Chant_objects db) /\
        Chant.source c = Some (Source.id source) /\
        Chant.feast c = Some feast_id /\
        Chant.folio c = folio /\
        feast__name db c = name.
Proof.
  unfold get_feast_selector_options, order_by.
  change (order_terms db ["folio"; "c_sequence"])
    with (Some [(false, fun c : Chant.t => value_of_string (Chant.folio c));
                (false, fun c : Chant.t => value_of_Z (Chant.c_sequence c))]).
  cbn [bind]. eexists. split; [reflexivity|]. split.
  - apply dict_fromkeys_NoDup, folio_feast_eqb_spec.
  - intros folio feast_id name.
    rewrite (dict_fromkeys_In _ folio_feast_eqb_spec), in_flat_map.
    split.
    + intros (c & Hc & Hin). apply sort_In, filter_In in Hc.
      destruct Hc as (Hc & _). apply chant_set_In in Hc.
      destruct Hc as (Hdb & Hsrc).
      destruct (Chant.feast c) as [fid|] eqn:Hf; [|destruct Hin].
      destruct Hin as [[= <- <- <-]|[]].
      exists c. auto.
    + intros (c & Hdb & Hsrc & Hf & <- & <-). exists c. split.
      * apply sort_In, filter_In. split.
        -- apply chant_set_In. auto.
        -- rewrite Hf. reflexivity.
      * rewrite Hf. left. reflexivity.
Qed.

(* ------------------------------------------------------------------ *)
(** ** Folio navigation *)

Section ListIndexFacts.
Context {A : Type} (eqb : A -> A -> bool).
Hypothesis eqb_eq : forall a b, eqb a b = true <-> a = b.

Lemma list_index_nth (l : list A) (x : A) (i : nat) :
  list_index eqb l x = Some i -> nth_error l i = Some x.
Proof.
  revert i. induction l as [|y l IH]; intros i; simpl; [discriminate|].
  destruct (eqb y x) eqn:E.
  - intros [= <-]. apply eqb_eq in E. subst. reflexivity.
  - destruct (list_index eqb l x) as [j|]; [|discriminate].
    intros [= <-]. simpl. apply IH. reflexivity.
Qed.

Lemma list_index_NoDup (l : list A) (x : A) (i : nat) :
  NoDup l -> nth_error l i = Some x -> list_index eqb l x = Some i.
Proof.
  intros Hnd. revert i. induction Hnd as [|y l Hy Hnd IH]; intros i.
  - destruct i; discriminate.
  - destruct i as [|i]; simpl.
    + intros [= ->]. rewrite (proj2 (eqb_eq x x) eq_refl). reflexivity.
    + intros H. destruct (eqb y x) eqn:E.
      * apply eqb_eq in E. subst. apply nth_error_In in H. contradiction.
      * rewrite (IH i H). reflexivity.
Qed.

Lemma list_index_In (l : list A) (x : A) :
  In x l -> exists i, list_index eqb l x = Some i.
Proof.
  induction l as [|y l IH]; simpl; [intros []|].
  intros H. destruct (eqb y x) eqn:E; [eexists; reflexivity|].
  destruct H as [->|H].
  - rewrite (proj2 (eqb_eq x x) eq_refl) in E. discriminate.
  - destruct (IH H) as (i & ->). eexists; reflexivity.
Qed.
End ListIndexFacts.

Lemma distinct_folios_eq (db : DB) (chants : list Chant.t) :
  distinct_folios db chants
  = Ok (dict_fromkeys option_string_eq
          (map Chant.folio
             (sort (leb_keys
                      [(false,
                        fun c : Chant.t => value_of_string (Chant.folio c))])
                   chants))).
Proof. reflexivity. Qed.

Lemma distinct_folios_In (db : DB) (chants : list Chant.t)
  (folios : list (option string)) (f : option string) :
  distinct_folios db chants = Ok folios ->
  (In f folios <-> exists c, In c chants /\ Chant.folio c = f).
Proof.
  rewrite distinct_folios_eq. intros [= <-].
  rewrite (dict_fromkeys_In _ option_string_eq_spec), in_map_iff.
  split.
  - intros (c & H1 & H2). exists c.
    split; [apply sort_In in H2; exact H2 | exact H1].
  - intros (c & H1 & H2). exists c.
    split; [exact H2 | apply sort_In, H1].
Qed.

Lemma distinct_folios_NoDup (db : DB) (chants : list Chant.t)
  (folios : list (option string)) :
  distinct_folios db chants = Ok folios -> NoDup folios.
Proof.
  rewrite distinct_folios_eq. intros [= <-].
  apply dict_fromkeys_NoDup, option_string_eq_spec.
Qed.

Lemma feasts_folio_eq (db : DB) (chants_in_source : list Chant.t)
  (folio : option string) :
  feasts_folio db chants_in_source folio
  = Ok (get_chants_with_feasts db
          (sort (leb_keys
                   [(false,
                     fun c : Chant.t => value_of_Z (Chant.c_sequence c))])
                (filter (fun c => option_string_eq (Chant.folio c) folio)
                        chants_in_source))).
Proof. reflexivity. Qed.

Lemma feasts_neighbour_Ok (db : DB) (chants_in_source : list Chant.t)
  (o : option string) :
  exists r,
    match truthy o with
    | Some folio =>
        l <- feasts_folio db chants_in_source (Some folio) ;; Ok (Some l)
    | None => Ok None
    end = Ok r.
Proof.
  destruct (truthy o); [rewrite feasts_folio_eq|]; eexists; reflexivity.
Qed.

(** The navigation of a chant whose folio is found at [index]. *)
Lemma ChantDetailView_navigation_at (db : DB) (chant : Chant.t)
  (source : Source.t) (folio_list : list (option string)) (index : nat) :
  Chant_source db chant = Some source ->
  distinct_folios db (chant_set db source) = Ok folio_list ->
  list_index option_string_eq folio_list (Chant.folio chant) = Some index ->
  exists nav,
    ChantDetailView_navigation db chant = Ok (Some nav) /\
    Navigation.folios nav = folio_list /\
    Navigation.previous_folio nav = previous_folio_at folio_list index /\
    Navigation.next_folio nav = next_folio_at folio_list index.
Proof.
  intros Hs Hf Hi. unfold ChantDetailView_navigation.
  rewrite Hs, Hf. cbn [bind]. rewrite Hi. cbn [bind].
  rewrite feasts_folio_eq. cbn [bind].
  destruct (feasts_neighbour_Ok db (chant_set db source)
              (previous_folio_at folio_list index)) as (p & ->).
  cbn [bind].
  destruct (feasts_neighbour_Ok db (chant_set db source)
              (next_folio_at folio_list index)) as (n & ->).
  cbn [bind]. eexists. split; [reflexivity|]. auto.
Qed.

Lemma ChantDetailView_navigation_Ok (db : DB) (chant : Chant.t)
  (nav : Navigation.t) :
  ChantDetailView_navigation db chant = Ok (Some nav) ->
  exists source index,
    Chant_source db chant = Some source /\
    distinct_folios db (chant_set db source) = Ok (Navigation.folios nav) /\
    list_index option_string_eq (Navigation.folios nav) (Chant.folio chant)
    = Some index /\
    Navigation.previous_folio nav
    = previous_folio_at (Navigation.folios nav) index /\
    Navigation.next_folio nav = next_folio_at (Navigation.folios nav) index.
Proof.
  intros H. unfold ChantDetailView_navigation in H.
  destruct (Chant_source db chant) as [source|] eqn:Hs; [|discriminate].
  inv_bind H as folio_list Hf. inv_bind H as index Hi.
  destruct (list_index option_string_eq folio_list (Chant.folio chant))
    as [i|] eqn:Ei; [|discriminate].
  injection Hi as ->.
  inv_bind H as cur Hcur. inv_bind H as prev Hprev. inv_bind H as next Hnext.
  injection H as <-. cbn. exists source, index. auto.
Qed.

Lemma folio_at_nth (l : list (option string)) (i : nat) (g : string) :
  folio_at l i = Some g -> nth_error l i = Some (Some g).
Proof.
  unfold folio_at. destruct (nth_error l i) as [f|]; [|discriminate].
  intros ->. reflexivity.
Qed.

Lemma previous_of_next (l : list (option string)) (i : nat)
  (f : option string) (g : string) :
  NoDup l -> nth_error l i = Some f -> next_folio_at l i = Some g ->
  exists j,
    list_index option_string_eq l (Some g) = Some j /\
    previous_folio_at l j = f.
Proof.
  intros Hnd Hi Hn. unfold next_folio_at in Hn.
  destruct (i <? List.length l - 1)%nat; [|discriminate].
  apply folio_at_nth in Hn. exists (i + 1)%nat. split.
  - apply (list_index_NoDup _ option_string_eq_spec); assumption.
  - unfold previous_folio_at.
    replace (i + 1 =? 0)%nat with false by (symmetry; apply Nat.eqb_neq; lia).
    replace (i + 1 - 1)%nat with i by lia.
    unfold folio_at. rewrite Hi. reflexivity.
Qed.

Lemma next_of_previous (l : list (option string)) (i : nat)
  (f : option string) (g : string) :
  NoDup l -> nth_error l i = Some f -> previous_folio_at l i = Some g ->
  exists j,
    list_index option_string_eq l (Some g) = Some j /\
    next_folio_at l j = f.
Proof.
  intros Hnd Hi Hp. unfold previous_folio_at in Hp.
  destruct (Nat.eqb_spec i 0) as [|Hi0]; [discriminate|].
  apply folio_at_nth in Hp. exists (i - 1)%nat. split.
  - apply (list_index_NoDup _ option_string_eq_spec); assumption.
  - assert (Hlt : (i < List.length l)%nat)
      by (apply nth_error_Some; congruence).
    unfold next_folio_at.
    replace (i - 1 <? List.length l - 1)%nat with true
      by (symmetry; apply Nat.ltb_lt; lia).
    replace (i - 1 + 1)%nat with i by lia.
    unfold folio_at. rewrite Hi. reflexivity.
Qed.

(** X3 (ChantDetailView.get_context_data, source navigation): the links
    between folios go both ways.  When the page of chant [a] names [g] as
    its next folio, the page of a chant [b] of the same source on folio
    [g] is built without error, shows the same folio list and names the
    folio of [a] as its previous folio; and likewise with previous and
    next exchanged. *)
Theorem folio_navigation_round_trip
  (db : DB) (a b : Chant.t) (nav : Navigation.t) (g : string) :
  Chant.source b = Chant.source a ->
  Chant.folio b = Some g ->
  ChantDetailView_navigation db a = Ok (Some nav) ->
  Navigation.next_folio nav = Some g \/
  Navigation.previous_folio nav = Some g ->
  exists nav',
    ChantDetailView_navigation db b = Ok (Some nav') /\
    Navigation.folios nav' = Navigation.folios nav /\
    (Navigation.next_folio nav = Some g ->
     Navigation.previous_folio nav' = Chant.folio a) /\
    (Navigation.previous_folio nav = Some g ->
     Navigation.next_folio nav' = Chant.folio a).
Proof.
  intros Hsrc Hb Ha Hg.
  apply ChantDetailView_navigation_Ok in Ha.
  destruct Ha as (source & i & Hs & Hf & Hi & Hprev & Hnext).
  assert (Hsb : Chant_source db b = Some source)
    by (unfold Chant_source in *; rewrite Hsrc; exact Hs).
  pose proof (distinct_folios_NoDup _ _ _ Hf) as Hnd.
  apply (list_index_nth _ option_string_eq_spec) in Hi.
  assert (Hj : exists j,
             list_index option_string_eq (Navigation.folios nav) (Some g)
             = Some j).
  { destruct Hg as [H|H].
    - rewrite Hnext in H.
      destruct (previous_of_next _ _ _ _ Hnd Hi H) as (j & Hj & _).
      exists j. exact Hj.
    - rewrite Hprev in H.
      destruct (next_of_previous _ _ _ _ Hnd Hi H) as (j & Hj & _).
      exists j. exact Hj. }
  destruct Hj as (j & Hj).
  rewrite <- Hb in Hj.
  destruct (ChantDetailView_navigation_at db b source _ j Hsb Hf Hj)
    as (nav' & Hnav' & Hfol & Hp' & Hn').
  rewrite Hb in Hj.
  exists nav'. split; [exact Hnav'|]. split; [exact Hfol|]. split.
  - intros H. rewrite Hnext in H.
    destruct (previous_of_next _ _ _ _ Hnd Hi H) as (j' & Hj' & Hv).
    rewrite Hj in Hj'. injection Hj' as <-. rewrite Hp'. exact Hv.
  - intros H. rewrite Hprev in H.
    destruct (next_of_previous _ _ _ _ Hnd Hi H) as (j' & Hj' & Hv).
    rewrite Hj in Hj'. injection Hj' as <-. rewrite Hn'. exact Hv.
Qed.

Lemma folio_navigation_round_trip_witness :
  exists nav nav',
    ChantDetailView_navigation scenario_db record_A = Ok (Some nav) /\
    Navigation.next_folio nav = Some "002r" /\
    ChantDetailView_navigation scenario_db record_C = Ok (Some nav') /\
    Navigation.previous_folio nav' = Chant.folio record_A.
Proof.
  destruct (ChantDetailView_navigation scenario_db record_A)
    as [[nav|]|] eqn:E; try (vm_compute in E; discriminate E).
  assert (Hn : Navigation.next_folio nav = Some "002r").
  { vm_compute in E. injection E as <-. reflexivity. }
  destruct (folio_navigation_round_trip scenario_db record_A record_C nav
              "002r" eq_refl eq_refl E (or_introl Hn))
    as (nav' & Hb & _ & Hp & _).
  exists nav, nav'. split; [reflexivity|]. split; [exact Hn|].
  split; [exact Hb | exact (Hp Hn)].
Defined.

(** X4 (ChantDetailView.get_context_data, source navigation): for a
    stored chant that has a source the navigation is built without error:
    [folio_list.index] finds the folio of the chant.  The folio list has
    no repetition and holds exactly the folios of the chants of the
    source, and neither neighbour is the folio of the chant itself. *)
Theorem navigation_of_stored_chant
  (db : DB) (chant : Chant.t) (source : Source.t) :
  In chant (Chant_objects db) ->
  Chant_source db chant = Some source ->
  exists nav,
    ChantDetailView_navigation db chant = Ok (Some nav) /\
    NoDup (Navigation.folios nav) /\
    (forall f,
       In f (Navigation.folios nav) <->
       exists c, In c (Chant_objects db) /\
                 Chant.source c = Chant.source chant /\ Chant.folio c = f) /\
    (forall g, Navigation.previous_folio nav = Some g ->
               Chant.folio chant <> Some g) /\
    (forall g, Navigation.next_folio nav = Some g ->
               Chant.folio chant <> Some g).
Proof.
  intros Hin Hs.
  assert (Hid : Chant.source chant = Some (Source.id source)).
  { unfold Chant_source in Hs. destruct (Chant.source chant) as [pk|];
      [|discriminate]. apply Source_find_id in Hs. congruence. }
  pose proof (distinct_folios_eq db (chant_set db source)) as Hf.
  pose proof (distinct_folios_NoDup _ _ _ Hf) as Hnd.
  assert (Hmem : In (Chant.folio chant)
                    (dict_fromkeys option_string_eq
                       (map Chant.folio
                          (sort (leb_keys
                                   [(false,
                                     fun c : Chant.t =>
                                       value_of_string (Chant.folio c))])
                                (chant_set db source))))).
  { apply (distinct_folios_In _ _ _ _ Hf). exists chant.
    split; [apply chant_set_In; auto | reflexivity]. }
  destruct (list_index_In _ option_string_eq_spec _ _ Hmem) as (i & Hi).
  destruct (ChantDetailView_navigation_at db chant source _ i Hs Hf Hi)
    as (nav & Hnav & Hfol & Hp & Hn).
  exists nav. split; [exact Hnav|]. rewrite Hfol.
  split; [exact Hnd|]. split; [|split].
  - intros f. rewrite (distinct_folios_In _ _ _ f Hf).
    split; intros (c & Hc & Hcf); exists c.
    + apply chant_set_In in Hc. destruct Hc as (Hc & Hcs).
      split; [exact Hc|]. split; [congruence | exact Hcf].
    + destruct Hcf as (Hcs & Hcf). split; [|exact Hcf].
      apply chant_set_In. split; [exact Hc | congruence].
  - intros g Hg Heq. rewrite Hp in Hg.
    apply (list_index_nth _ option_string_eq_spec) in Hi.
    destruct (next_of_previous _ _ _ _ Hnd Hi Hg) as (j & Hj & _).
    unfold previous_folio_at in Hg.
    destruct (Nat.eqb_spec i 0) as [|Hi0]; [discriminate|].
    apply folio_at_nth in Hg. rewrite Heq in Hi.
    assert (E : (i - 1)%nat = i).
    { apply (proj1 (NoDup_nth_error _) Hnd).
      - apply nth_error_Some. congruence.
      - congruence. }
    lia.
  - intros g Hg Heq. rewrite Hn in Hg.
    apply (list_index_nth _ option_string_eq_spec) in Hi.
    unfold next_folio_at in Hg.
    destruct (i <? List.length (dict_fromkeys option_string_eq
                (map Chant.folio
                   (sort (leb_keys
                            [(false,
                              fun c : Chant.t =>
                                value_of_string (Chant.folio c))])
                         (chant_set db source)))) - 1)%nat; [|discriminate].
    apply folio_at_nth in Hg. rewrite Heq in Hi.
    assert (E : (i + 1)%nat = i).
    { apply (proj1 (NoDup_nth_error _) Hnd).
      - apply nth_error_Some. congruence.
      - congruence. }
    lia.
Qed.

Lemma navigation_of_stored_chant_witness :
  exists nav,
    ChantDetailView_navigation scenario_db record_B = Ok (Some nav) /\
    NoDup (Navigation.folios nav).
Proof.
  destruct (navigation_of_stored_chant scenario_db record_B
              (Source.mk 10 true (Some 4063) (Some "A-B")))
    as (nav & H & Hnd & _).
  - simpl. right. left. reflexivity.
  - reflexivity.
  - exists nav. split; [exact H | exact Hnd].
Defined.

(* ------------------------------------------------------------------ *)
(** ** SourceEditChantsView.get_queryset *)

(** The first row of a sorted list is not after any row of the list. *)
Lemma sort_head_least (ks : list order_key) (rows : list Chant.t)
  (x : Chant.t) (s : list Chant.t) :
  sort (leb_keys ks) rows = x :: s ->
  forall c, In c rows -> leb_keys ks x c = true.
Proof.
  intros E c Hc.
  assert (Hs : StronglySorted (fun u v => leb_keys ks u v = true)
                              (sort (leb_keys ks) rows)).
  { apply Sorted_StronglySorted.
    - intros a b d. apply leb_keys_trans.
    - apply sort_sorted. intros a b. apply leb_keys_total. }
  rewrite E in Hs. inversion Hs as [|? ? _ Hall]; subst.
  apply (sort_In (leb_keys ks)) in Hc. rewrite E in Hc.
  destruct Hc as [<-|Hc].
  - unfold leb_keys.
    destruct (compare_keys ks x x) eqn:Ec; try reflexivity.
    pose proof (compare_keys_antisym ks x x) as Ha. rewrite Ec in Ha.
    discriminate Ha.
  - rewrite Forall_forall in Hall. apply Hall, Hc.
Qed.

Lemma int_Raise (s : string) (e : exn) : int s = Raise e -> e = ValueError.
Proof.
  unfold int.
  destruct (match strip (list_ascii_of_string s) with
            | [] => None
            | c :: l =>
                if Ascii.eqb c "-" then option_map Z.opp (int_digits 0 false l)
                else if Ascii.eqb c "+" then int_digits 0 false l
                else int_digits 0 false (c :: l)
            end); [discriminate|].
  intros [= <-]. reflexivity.
Qed.

(** The page without feast and folio parameter, for a source with chants. *)
Lemma SourceEditChantsView_default (db : DB) (source : Source.t)
  (c0 : Chant.t) (cs : list Chant.t) :
  chant_set db source = c0 :: cs ->
  exists x,
    In x (chant_set db source) /\
    (forall c, In c (chant_set db source) ->
       leb_keys [(false, fun c : Chant.t => value_of_string (Chant.folio c))]
                x c = true) /\
    (folios <- distinct_folios db (chant_set db source) ;;
     match folios with
     | [] => Raise Http404
     | initial_folio :: _ =>
         Ok (filter (fun c => option_string_eq (Chant.folio c) initial_folio)
                    (chant_set db source))
     end)
    = Ok (filter (fun c => option_string_eq (Chant.folio c) (Chant.folio x))
                 (chant_set db source)).
Proof.
  intros Hcs. rewrite distinct_folios_eq. cbn [bind].
  destruct (sort (leb_keys
                    [(false,
                      fun c : Chant.t => value_of_string (Chant.folio c))])
                 (chant_set db source)) as [|x s] eqn:E.
  - apply (f_equal (@List.length Chant.t)) in E.
    rewrite sort_length, Hcs in E. discriminate E.
  - exists x. split; [|split].
    + apply (sort_In (leb_keys
                [(false,
                  fun c : Chant.t => value_of_string (Chant.folio c))])).
      rewrite E. left. reflexivity.
    + apply (sort_head_least _ _ _ _ E).
    + cbn [map].
      destruct (dict_fromkeys_hd option_string_eq (Chant.folio x)
                  (map Chant.folio s)) as (d' & ->).
      reflexivity.
Qed.

(** X5 (SourceEditChantsView.get_queryset): the [raise Http404] of the
    default branch is never reached, because a source without chants has
    been answered before.  The call fails only with DoesNotExist, for a
    source id without source, or with ValueError, for a feast parameter
    that is not a number. *)
Theorem source_edit_queryset_errors
  (source_id : Z) (GET : QueryDict) (db : DB) (e : exn) :
  SourceEditChantsView_get_queryset source_id GET db = Raise e ->
  (e = DoesNotExist /\ Source_find db source_id = None) \/
  (e = ValueError /\
   exists source feast_id,
     Source_find db source_id = Some source /\
     chant_set db source <> [] /\
     param GET "feast" = Some feast_id /\
     int feast_id = Raise ValueError).
Proof.
  unfold SourceEditChantsView_get_queryset.
  destruct (Source_find db source_id) as [source|] eqn:Hs; cbn [bind].
  - intros H. right.
    destruct (chant_set db source) as [|c0 cs] eqn:Hcs; [discriminate|].
    destruct (param GET "feast") as [feast_id|] eqn:Hf.
    + destruct (int feast_id) as [n|e'] eqn:Hi; cbn [bind] in H;
        [discriminate|].
      injection H as <-. pose proof (int_Raise _ _ Hi) as ->.
      split; [reflexivity|]. exists source, feast_id.
      rewrite Hcs. repeat split; try assumption. discriminate.
    + destruct (param GET "folio") as [folio|]; [discriminate|].
      rewrite <- Hcs in H.
      destruct (SourceEditChantsView_default db source c0 cs Hcs)
        as (x & _ & _ & Hx).
      rewrite Hx in H. discriminate H.
  - intros [= <-]. left. split; reflexivity.
Qed.

Lemma source_edit_queryset_errors_witness :
  (ValueError = DoesNotExist /\ Source_find example_db 10 = None) \/
  (ValueError = ValueError /\
   exists source feast_id,
     Source_find example_db 10 = Some source /\
     chant_set example_db source <> [] /\
     param [("feast", "x")] "feast" = Some feast_id /\
     int feast_id = Raise ValueError).
Proof.
  apply (source_edit_queryset_errors 10 [("feast", "x")] example_db ValueError).
  reflexivity.
Defined.

(** X6 (SourceEditChantsView.get_queryset): without feast and folio
    parameter the first folio is selected.  The call returns chants of the
    source only; it returns none only when the source has none; the
    chants returned are all the chants of the source on one folio, and in
    the order of the folio column (NULL last) no chant of the source is
    on a folio before that one. *)
Theorem source_edit_default_first_folio
  (source_id : Z) (GET : QueryDict) (db : DB) (source : Source.t) :
  Source_find db source_id = Some source ->
  param GET "feast" = None ->
  param GET "folio" = None ->
  exists l,
    SourceEditChantsView_get_queryset source_id GET db = Ok l /\
    (l = [] <-> chant_set db source = []) /\
    forall c, In c l ->
      In c (chant_set db source) /\
      forall c', In c' (chant_set db source) ->
        (In c' l <-> Chant.folio c' = Chant.folio c) /\
        compare_value (value_of_string (Chant.folio c))
                      (value_of_string (Chant.folio c')) <> Gt.
Proof.
  intros Hs Hfeast Hfolio. unfold SourceEditChantsView_get_queryset.
  rewrite Hs, Hfeast, Hfolio. cbn [bind].
  destruct (chant_set db source) as [|c0 cs] eqn:Hcs.
  - exists []. split; [reflexivity|]. split; [tauto|]. intros c [].
  - rewrite <- Hcs.
    destruct (SourceEditChantsView_default db source c0 cs Hcs)
      as (x & Hx & Hleast & ->).
    eexists. split; [reflexivity|]. split.
    + split.
      * intros H. exfalso.
        assert (Hin : In x (filter
                    (fun c => option_string_eq (Chant.folio c) (Chant.folio x))
                    (chant_set db source))).
        { apply filter_In. split; [exact Hx | apply option_string_eq_refl]. }
        rewrite H in Hin. destruct Hin.
      * rewrite Hcs. discriminate.
    + intros c Hc. apply filter_In in Hc. destruct Hc as (Hc & Hcx).
      apply option_string_eq_spec in Hcx. split; [exact Hc|].
      intros c' Hc'. split.
      * rewrite filter_In, option_string_eq_spec, Hcx. tauto.
      * rewrite Hcx. specialize (Hleast c' Hc').
        unfold leb_keys in Hleast. cbn [compare_keys compare_key] in Hleast.
        intros Hgt. rewrite Hgt in Hleast. discriminate Hleast.
Qed.

Lemma source_edit_default_first_folio_witness :
  exists l,
    SourceEditChantsView_get_queryset 10 [] scenario_db = Ok l /\
    (l = [] <-> chant_set scenario_db
                  (Source.mk 10 true (Some 4063) (Some "A-B")) = []) /\
    forall c, In c l ->
      In c (chant_set scenario_db
              (Source.mk 10 true (Some 4063) (Some "A-B"))) /\
      forall c', In c' (chant_set scenario_db
                          (Source.mk 10 true (Some 4063) (Some "A-B"))) ->
        (In c' l <-> Chant.folio c' = Chant.folio c) /\
        compare_value (value_of_string (Chant.folio c))
                      (value_of_string (Chant.folio c')) <> Gt.
Proof.
  apply (source_edit_default_first_folio 10 [] scenario_db
           (Source.mk 10 true (Some 4063) (Some "A-B")));
    reflexivity.
Defined.

(* ------------------------------------------------------------------ *)
(** ** get_chants_with_folios *)

Section KeepFirstFacts.
Context {A : Type} (eqb : A -> A -> bool).
Hypothesis eqb_eq : forall a b, eqb a b = true <-> a = b.

Lemma eqb_refl' (a : A) : eqb a a = true.
Proof. apply eqb_eq. reflexivity. Qed.

Lemma eqb_sym' (a b : A) : eqb a b = eqb b a.
Proof.
  destruct (eqb a b) eqn:E, (eqb b a) eqn:E'; try reflexivity.
  - apply eqb_eq in E. subst. rewrite eqb_refl' in E'. discriminate.
  - apply eqb_eq in E'. subst. rewrite eqb_refl' in E. discriminate.
Qed.

Lemma keep_first_In (l : list A) (x : A) :
  In x (keep_first eqb l) <-> In x l.
Proof.
  induction l as [|a l IH]; simpl; [tauto|].
  rewrite filter_In, IH. split.
  - intros [H|[H _]]; auto.
  - intros [H|H]; [left; exact H|].
    destruct (eqb a x) eqn:E.
    + left. apply eqb_eq, E.
    + right. split; [exact H | reflexivity].
Qed.

Lemma keep_first_NoDup (l : list A) : NoDup (keep_first eqb l).
Proof.
  induction l as [|a l IH]; simpl; constructor.
  - rewrite filter_In. intros [_ H]. rewrite eqb_refl' in H. discriminate.
  - apply NoDup_filter, IH.
Qed.

Lemma existsb_filter_neq (x a : A) (l : list A) :
  eqb x a = false ->
  existsb (eqb x) (filter (fun y => negb (eqb a y)) l) = existsb (eqb x) l.
Proof.
  intros Hxa. induction l as [|y l IH]; simpl; [reflexivity|].
  destruct (eqb a y) eqn:E; simpl.
  - apply eqb_eq in E. subst. rewrite Hxa. exact IH.
  - rewrite IH. reflexivity.
Qed.

Lemma keep_first_snoc (l : list A) (x : A) :
  keep_first eqb (l ++ [x])
  = (keep_first eqb l ++
     (if existsb (eqb x) (keep_first eqb l) then [] else [x]))%list.
Proof.
  induction l as [|a l IH]; simpl; [reflexivity|].
  rewrite IH, filter_app. f_equal. f_equal.
  destruct (eqb x a) eqn:Exa; simpl.
  - destruct (existsb (eqb x) (keep_first eqb l)); simpl; [reflexivity|].
    rewrite (eqb_sym' a x), Exa. reflexivity.
  - rewrite (existsb_filter_neq x a _ Exa).
    destruct (existsb (eqb x) (keep_first eqb l)); simpl; [reflexivity|].
    rewrite (eqb_sym' a x), Exa. reflexivity.
Qed.
End KeepFirstFacts.

Lemma folio_is_spec (folio : string) (c : Chant.t) :
  folio_is folio c = true <-> Chant.folio c = Some folio.
Proof. apply option_string_eqb_eq. Qed.

Lemma labelled_folios_In (rows : list Chant.t) (folio : string) :
  In folio (labelled_folios rows) <->
  folio <> "" /\ exists c, In c rows /\ Chant.folio c = Some folio.
Proof.
  unfold labelled_folios. rewrite in_flat_map. unfold labelled_folio. split.
  - intros (c & Hc & H). destruct (Chant.folio c) as [f|] eqn:Ef; [|destruct H].
    destruct (String.eqb_spec f "") as [|Hne]; [destruct H|].
    destruct H as [<-|[]]. split; [exact Hne|]. exists c. auto.
  - intros (Hne & c & Hc & Ef). exists c. split; [exact Hc|]. rewrite Ef.
    destruct (String.eqb_spec folio "") as [|_]; [contradiction|].
    left. reflexivity.
Qed.

Lemma folios_append_map (rows : list Chant.t) (keys : list string)
  (f : string) (c : Chant.t) :
  NoDup keys -> Chant.folio c = Some f ->
  folios_append (map (fun k => (k, filter (folio_is k) rows)) keys) f c
  = (map (fun k => (k, filter (folio_is k) (rows ++ [c]))) keys ++
     (if existsb (String.eqb f) keys then [] else [(f, [c])]))%list.
Proof.
  intros Hnd Hf.
  assert (Hsn : forall k,
             filter (folio_is k) (rows ++ [c])
             = (filter (folio_is k) rows ++
                (if String.eqb f k then [c] else []))%list).
  { intros k. rewrite filter_app. cbn [filter]. unfold folio_is at 2.
    rewrite Hf. cbn [option_string_eqb].
    destruct (String.eqb f k); reflexivity. }
  induction Hnd as [|k ks Hk Hnd IH]; [reflexivity|].
  cbn [map folios_append existsb]. rewrite Hsn, (String.eqb_sym f k).
  destruct (String.eqb_spec k f) as [->|Hne]; cbn [orb app].
  - rewrite app_nil_r. f_equal. apply map_ext_in. intros k' Hk'.
    rewrite Hsn.
    destruct (String.eqb_spec f k') as [->|_]; [contradiction|].
    rewrite app_nil_r. reflexivity.
  - rewrite app_nil_r, IH. reflexivity.
Qed.

Lemma folios_fold (rows : list Chant.t) :
  fold_left
    (fun d chant =>
       match Chant.folio chant with
       | Some folio =>
           if String.eqb folio "" then d else folios_append d folio chant
       | None => d
       end)
    rows []
  = map (fun k => (k, filter (folio_is k) rows))
        (keep_first String.eqb (labelled_folios rows)).
Proof.
  induction rows as [|c rows IH] using rev_ind; [reflexivity|].
  rewrite fold_left_app. cbn [fold_left]. rewrite IH.
  unfold labelled_folios. rewrite flat_map_app. cbn [flat_map].
  rewrite app_nil_r. fold (labelled_folios rows).
  assert (Hskip : labelled_folio c = [] ->
            (forall k, folio_is k c = true -> k = "") ->
            map (fun k => (k, filter (folio_is k) rows))
                (keep_first String.eqb (labelled_folios rows))
            = map (fun k => (k, filter (folio_is k) (rows ++ [c])))
                  (keep_first String.eqb (labelled_folios rows ++ labelled_folio c))).
  { intros -> Hk. rewrite app_nil_r. apply map_ext_in. intros k Hin.
    apply (keep_first_In _ String.eqb_eq), labelled_folios_In in Hin.
    destruct Hin as (Hne & _).
    rewrite filter_app. cbn [filter].
    destruct (folio_is k c) eqn:E; [|rewrite app_nil_r; reflexivity].
    exfalso. apply Hne, Hk, E. }
  destruct (Chant.folio c) as [f|] eqn:Hf.
  - destruct (String.eqb_spec f "") as [->|Hne].
    + apply Hskip.
      * unfold labelled_folio. rewrite Hf. reflexivity.
      * intros k Hk. apply folio_is_spec in Hk. congruence.
    + rewrite (folios_append_map rows _ f c
                 (keep_first_NoDup _ String.eqb_eq _) Hf).
      assert (Hl : labelled_folio c = [f]).
      { unfold labelled_folio. rewrite Hf.
        destruct (String.eqb_spec f "") as [|_]; [contradiction|reflexivity]. }
      rewrite Hl, (keep_first_snoc _ String.eqb_eq).
      destruct (existsb (String.eqb f)
                  (keep_first String.eqb (labelled_folios rows))) eqn:E.
      * rewrite !app_nil_r. reflexivity.
      * rewrite map_app. f_equal. cbn [map]. f_equal. f_equal.
        rewrite filter_app. cbn [filter].
        replace (folio_is f c) with true
          by (symmetry; apply folio_is_spec, Hf).
        replace (filter (folio_is f) rows) with (@nil Chant.t); [reflexivity|].
        symmetry. destruct (filter (folio_is f) rows) as [|c' s] eqn:Ec;
          [reflexivity|].
        exfalso.
        assert (Hc' : In c' (filter (folio_is f) rows))
          by (rewrite Ec; left; reflexivity).
        apply filter_In in Hc'. destruct Hc' as (Hc' & Hf').
        apply folio_is_spec in Hf'.
        assert (Hin : In f (keep_first String.eqb (labelled_folios rows))).
        { apply (keep_first_In _ String.eqb_eq), labelled_folios_In.
          split; [exact Hne|]. exists c'. auto. }
        assert (Ht : existsb (String.eqb f)
                       (keep_first String.eqb (labelled_folios rows)) = true).
        { apply existsb_exists. exists f. split; [exact Hin|].
          apply String.eqb_refl. }
        congruence.
  - apply Hskip.
    + unfold labelled_folio. rewrite Hf. reflexivity.
    + intros k Hk. apply folio_is_spec in Hk. congruence.
Qed.

Lemma sorted_by_c_sequence_Some (chants l : list Chant.t) :
  sorted_by_c_sequence chants = Some l -> l = sort c_sequence_leb chants.
Proof.
  unfold sorted_by_c_sequence. destruct chants as [|a [|b chants]].
  - intros [= <-]. reflexivity.
  - intros [= <-]. reflexivity.
  - destruct (existsb _ _); [discriminate|]. intros [= <-]. reflexivity.
Qed.

Lemma sorted_by_c_sequence_None (chants : list Chant.t) :
  sorted_by_c_sequence chants = None <->
  (2 <= List.length chants)%nat /\
  exists c, In c chants /\ Chant.c_sequence c = None.
Proof.
  unfold sorted_by_c_sequence. destruct chants as [|a [|b chants]].
  - split; [discriminate | simpl; lia].
  - split; [discriminate | simpl; lia].
  - set (l := a :: b :: chants).
    destruct (existsb (fun c => lookup_isnull (Chant.c_sequence c) true) l)
      eqn:E.
    + split; [|reflexivity]. intros _. split; [simpl; lia|].
      apply existsb_exists in E. destruct E as (c & Hc & Hn).
      exists c. split; [exact Hc|].
      destruct (Chant.c_sequence c); [discriminate | reflexivity].
    + split; [discriminate|]. intros (_ & c & Hc & Hn). exfalso.
      assert (Ht : existsb
                     (fun c => lookup_isnull (Chant.c_sequence c) true) l
                   = true).
      { apply existsb_exists. exists c. split; [exact Hc|].
        rewrite Hn. reflexivity. }
      congruence.
Qed.

Lemma sort_folios_Some (d out : folios_dict) :
  sort_folios d = Some out ->
  out = map (fun e => (fst e, sort c_sequence_leb (snd e))) d /\
  forall e, In e d -> sorted_by_c_sequence (snd e) <> None.
Proof.
  revert out. induction d as [|[k l] d IH]; intros out; simpl.
  - intros [= <-]. split; [reflexivity | intros e []].
  - destruct (sorted_by_c_sequence l) as [s|] eqn:Es; [|discriminate].
    destruct (sort_folios d) as [out'|]; [|discriminate].
    intros [= <-]. destruct (IH out' eq_refl) as (-> & Hall).
    apply sorted_by_c_sequence_Some in Es as Es'. subst s. split; [reflexivity|].
    intros e [<-|He]; [simpl; congruence | apply Hall, He].
Qed.

Lemma sort_folios_None (d : folios_dict) :
  sort_folios d = None <->
  exists e, In e d /\ sorted_by_c_sequence (snd e) = None.
Proof.
  induction d as [|[k l] d IH]; simpl.
  - split; [discriminate | intros (e & [] & _)].
  - destruct (sorted_by_c_sequence l) as [s|] eqn:Es.
    + destruct (sort_folios d) as [out'|]; simpl.
      * split; [discriminate|]. intros (e & [<-|He] & Hn).
        -- simpl in Hn. congruence.
        -- exfalso. assert (H0 : Some out' = None)
             by (apply IH; exists e; auto).
           discriminate H0.
      * split; [|reflexivity]. intros _.
        destruct (proj1 IH eq_refl) as (e & He & Hn). exists e. auto.
    + split; [|reflexivity]. intros _. exists (k, l). auto.
Qed.

Lemma get_chants_with_folios_eq (db : DB) (chants_in_feast : list Chant.t) :
  get_chants_with_folios db chants_in_feast
  = let rows :=
      sort (leb_keys
              [(false, fun c : Chant.t => value_of_string (Chant.folio c))])
           chants_in_feast in
    match sort_folios
            (map (fun k => (k, filter (folio_is k) rows))
                 (keep_first String.eqb (labelled_folios rows))) with
    | Some out => Returned out
    | None => TypeError
    end.
Proof.
  unfold get_chants_with_folios, order_by.
  change (order_terms db ["folio"])
    with (Some [(false, fun c : Chant.t => value_of_string (Chant.folio c))]).
  cbv beta iota zeta. rewrite folios_fold. reflexivity.
Qed.

Lemma c_sequence_leb_total (a b : Chant.t) :
  c_sequence_leb a b = false -> c_sequence_leb b a = true.
Proof.
  unfold c_sequence_leb.
  destruct (Chant.c_sequence a), (Chant.c_sequence b); try discriminate.
  rewrite Z.leb_gt, Z.leb_le. lia.
Qed.

Lemma sort_c_sequence_sorted (l : list Chant.t) :
  (forall c, In c l -> Chant.c_sequence c <> None) ->
  StronglySorted c_sequence_le (sort c_sequence_leb l).
Proof.
  intros Hall.
  assert (Hs : StronglySorted (fun a b => c_sequence_leb a b = true)
                              (sort c_sequence_leb l)).
  { assert (Hgen : forall s,
              (forall c, In c s -> Chant.c_sequence c <> None) ->
              Sorted (fun a b => c_sequence_leb a b = true) s ->
              StronglySorted (fun a b => c_sequence_leb a b = true) s).
    { induction s as [|a s IHs]; intros Hn Hsorted; constructor.
      - apply IHs; [intros c Hc; apply Hn; right; exact Hc|].
        inversion Hsorted; assumption.
      - inversion Hsorted as [|? ? Hs' Hhd]; subst.
        assert (IHs' := IHs (fun c Hc => Hn c (or_intror Hc)) Hs').
        destruct s as [|b s]; constructor.
        + inversion Hhd; assumption.
        + inversion Hhd as [|? ? Hab]; subst.
          inversion IHs' as [|? ? _ Hall']; subst.
          rewrite Forall_forall in *. intros c Hc.
          specialize (Hall' c Hc). unfold c_sequence_leb in *.
          pose proof (Hn a (or_introl eq_refl)) as Na.
          pose proof (Hn b (or_intror (or_introl eq_refl))) as Nb.
          pose proof (Hn c (or_intror (or_intror Hc))) as Nc.
          destruct (Chant.c_sequence a), (Chant.c_sequence b),
            (Chant.c_sequence c); try congruence.
          rewrite Z.leb_le in *. lia. }
    apply Hgen.
    - intros c Hc. apply Hall. apply (sort_In c_sequence_leb l c), Hc.
    - apply sort_sorted, c_sequence_leb_total. }
  assert (Hn : forall c, In c (sort c_sequence_leb l) ->
                         Chant.c_sequence c <> None).
  { intros c Hc. apply Hall. apply (sort_In c_sequence_leb l c), Hc. }
  induction Hs as [|a s Hs IHs Ha]; constructor.
  - apply IHs. intros c Hc. apply Hn. right. exact Hc.
  - rewrite Forall_forall in *. intros c Hc. specialize (Ha c Hc).
    unfold c_sequence_leb in Ha. unfold c_sequence_le.
    pose proof (Hn a (or_introl eq_refl)) as Na.
    pose proof (Hn c (or_intror Hc)) as Nc.
    destruct (Chant.c_sequence a) as [x|], (Chant.c_sequence c) as [y|];
      try congruence.
    exists x, y. rewrite Z.leb_le in Ha. auto.
Qed.

(** The chants of one folio among the rows in folio order are the chants
    of that folio among the rows given. *)
Lemma folio_rows_perm (ks : list order_key) (folio : string)
  (chants : list Chant.t) :
  Permutation (filter (folio_is folio) (sort (leb_keys ks) chants))
              (filter (folio_is folio) chants).
Proof. apply Permutation_filter', sort_perm. Qed.

(** X7 (get_chants_with_folios): when the function returns, every folio
    is listed once; the folios listed are the non-empty folio labels of
    the chants given; the chants listed under a folio are the chants
    given that are on that folio, each as often as it was given, and the
    list is never empty; and a list of two chants or more is in ascending
    order of c_sequence. *)
Theorem chants_with_folios_groups
  (db : DB) (chants_in_feast : list Chant.t)
  (out : list (string * list Chant.t)) :
  get_chants_with_folios db chants_in_feast = Returned out ->
  NoDup (map fst out) /\
  (forall folio,
     In folio (map fst out) <->
     folio <> "" /\
     exists c, In c chants_in_feast /\ Chant.folio c = Some folio) /\
  forall folio chants,
    In (folio, chants) out ->
    chants <> [] /\
    Permutation chants (filter (folio_is folio) chants_in_feast) /\
    ((2 <= List.length chants)%nat -> StronglySorted c_sequence_le chants).
Proof.
  rewrite get_chants_with_folios_eq. cbv zeta.
  set (ks := [(false, fun c : Chant.t => value_of_string (Chant.folio c))]).
  set (rows := sort (leb_keys ks) chants_in_feast).
  destruct (sort_folios _) as [out'|] eqn:E; [|discriminate].
  intros [= <-]. apply sort_folios_Some in E. destruct E as (-> & Hall).
  assert (Hkeys : forall folio,
             In folio (keep_first String.eqb (labelled_folios rows)) <->
             folio <> "" /\
             exists c, In c chants_in_feast /\ Chant.folio c = Some folio).
  { intros folio.
    rewrite (keep_first_In _ String.eqb_eq), labelled_folios_In.
    split; intros (Hne & c & Hc & Hf); (split; [exact Hne|]); exists c;
      (split; [|exact Hf]).
    - apply (sort_In (leb_keys ks) chants_in_feast c), Hc.
    - apply (sort_In (leb_keys ks) chants_in_feast c), Hc. }
  rewrite !map_map. cbn [fst snd]. rewrite map_id. split; [|split].
  - apply keep_first_NoDup, String.eqb_eq.
  - exact Hkeys.
  - intros folio chants Hin. apply in_map_iff in Hin.
    destruct Hin as (k & [= <- <-] & Hk).
    assert (Hp : Permutation (sort c_sequence_leb (filter (folio_is k) rows))
                             (filter (folio_is k) chants_in_feast)).
    { eapply Permutation_trans; [apply sort_perm | apply folio_rows_perm]. }
    split; [|split].
    + apply Hkeys in Hk. destruct Hk as (_ & c & Hc & Hf).
      intros Hnil. rewrite Hnil in Hp.
      apply Permutation_nil in Hp.
      assert (Hin : In c (filter (folio_is k) chants_in_feast))
        by (apply filter_In; split; [exact Hc | apply folio_is_spec, Hf]).
      rewrite Hp in Hin. destruct Hin.
    + exact Hp.
    + intros Hlen. rewrite sort_length in Hlen.
      apply sort_c_sequence_sorted. intros c Hc Hn.
      apply (Hall (k, filter (folio_is k) rows)).
      * apply in_map_iff. exists k. auto.
      * apply sorted_by_c_sequence_None. split; [exact Hlen|].
        exists c. auto.
Qed.

Lemma chants_with_folios_groups_witness :
  exists out,
    get_chants_with_folios scenario_db (Chant_objects scenario_db)
    = Returned out /\
    NoDup (map fst out) /\
    forall folio chants,
      In (folio, chants) out ->
      chants <> [] /\
      Permutation chants
        (filter (folio_is folio) (Chant_objects scenario_db)) /\
      ((2 <= List.length chants)%nat -> StronglySorted c_sequence_le chants).
Proof.
  destruct (get_chants_with_folios scenario_db (Chant_objects scenario_db))
    as [out| |e|] eqn:E; try (vm_compute in E; discriminate E).
  destruct (chants_with_folios_groups scenario_db
              (Chant_objects scenario_db) out E) as (Hnd & _ & Hg).
  exists out. split; [reflexivity|]. split; [exact Hnd | exact Hg].
Defined.

(** X8 (get_chants_with_folios): the function never ends in an exception
    of the query interface, and it ends in the TypeError of comparing None
    exactly when some non-empty folio holds two chants or more of which
    one has no c_sequence. *)
Theorem chants_with_folios_type_error
  (db : DB) (chants_in_feast : list Chant.t) :
  (forall e, get_chants_with_folios db chants_in_feast <> Raised e) /\
  (get_chants_with_folios db chants_in_feast = TypeError <->
   exists folio c,
     folio <> "" /\
     (2 <= List.length (filter (folio_is folio) chants_in_feast))%nat /\
     In c chants_in_feast /\
     Chant.folio c = Some folio /\
     Chant.c_sequence c = None).
Proof.
  rewrite get_chants_with_folios_eq. cbv zeta.
  set (ks := [(false, fun c : Chant.t => value_of_string (Chant.folio c))]).
  set (rows := sort (leb_keys ks) chants_in_feast).
  split.
  - intros e. destruct (sort_folios _); discriminate.
  - destruct (sort_folios _) as [out|] eqn:E.
    + split; [discriminate|]. intros (folio & c & Hne & Hlen & Hc & Hf & Hn).
      exfalso. apply sort_folios_Some in E. destruct E as (_ & Hall).
      apply (Hall (folio, filter (folio_is folio) rows)).
      * apply in_map_iff. exists folio. split; [reflexivity|].
        apply (keep_first_In _ String.eqb_eq), labelled_folios_In.
        split; [exact Hne|]. exists c. split; [|exact Hf].
        apply (sort_In (leb_keys ks) chants_in_feast c), Hc.
      * apply sorted_by_c_sequence_None. cbn [snd]. split.
        -- unfold rows.
           rewrite (Permutation_length
                      (folio_rows_perm ks folio chants_in_feast)).
           exact Hlen.
        -- exists c. split; [|exact Hn]. apply filter_In. split.
           ++ apply (sort_In (leb_keys ks) chants_in_feast c), Hc.
           ++ apply folio_is_spec, Hf.
    + split; [|reflexivity]. intros _. apply sort_folios_None in E.
      destruct E as (e & He & Hn). apply in_map_iff in He.
      destruct He as (k & <- & Hk). cbn [snd] in Hn.
      apply sorted_by_c_sequence_None in Hn.
      destruct Hn as (Hlen & c & Hc & Hn).
      apply filter_In in Hc. destruct Hc as (Hc & Hf).
      apply (keep_first_In _ String.eqb_eq), labelled_folios_In in Hk.
      exists k, c. split; [apply Hk|]. split; [|split; [|split]].
      * rewrite <- (Permutation_length
                      (folio_rows_perm ks k chants_in_feast)).
        exact Hlen.
      * apply (sort_In (leb_keys ks) chants_in_feast c), Hc.
      * apply folio_is_spec, Hf.
      * exact Hn.
Qed.

Lemma chants_with_folios_type_error_witness :
  get_chants_with_folios unnumbered_db (Chant_objects unnumbered_db)
  = TypeError.
Proof.
  apply (proj2 (chants_with_folios_type_error unnumbered_db
                  (Chant_objects unnumbered_db))).
  exists "001r",
    (fixture 2 (Some 10) (Some "001r") None (Some "B") None None None false).
  split; [discriminate|]. split; [vm_compute; lia|].
  split; [right; left; reflexivity|]. split; reflexivity.
Defined.

(* ------------------------------------------------------------------ *)
(** ** ChantCreateView.form_valid *)

Lemma append_nil_r (s : string) : (s ++ "")%string = s.
Proof.
  induction s as [|c s IH]; simpl; [reflexivity | rewrite IH; reflexivity].
Qed.

Lemma append_assoc (a b c : string) :
  ((a ++ b) ++ c)%string = (a ++ b ++ c)%string.
Proof.
  induction a as [|x a IH]; simpl; [reflexivity | rewrite IH; reflexivity].
Qed.

Lemma append_length (a b : string) :
  String.length (a ++ b) = (String.length a + String.length b)%nat.
Proof.
  induction a as [|c a IH]; simpl; [reflexivity | rewrite IH; reflexivity].
Qed.

Lemma length_string_of_list (l : list ascii) :
  String.length (string_of_list_ascii l) = List.length l.
Proof.
  induction l as [|c l IH]; simpl; [reflexivity | rewrite IH; reflexivity].
Qed.

Lemma length_list_of_string (s : string) :
  List.length (list_ascii_of_string s) = String.length s.
Proof.
  induction s as [|c s IH]; simpl; [reflexivity | rewrite IH; reflexivity].
Qed.

Lemma string_rev_length (s : string) :
  String.length (string_rev s) = String.length s.
Proof.
  unfold string_rev.
  rewrite length_string_of_list, length_rev, length_list_of_string.
  reflexivity.
Qed.

Lemma lstrip_char_length (ch : ascii) (s : string) :
  (String.length (lstrip_char ch s) <= String.length s)%nat.
Proof.
  induction s as [|c s IH]; simpl; [lia|].
  destruct (Ascii.eqb c ch); simpl; lia.
Qed.

Lemma strip_char_length (ch : ascii) (s : string) :
  (String.length (strip_char ch s) <= String.length s)%nat.
Proof.
  unfold strip_char. rewrite string_rev_length.
  eapply Nat.le_trans; [apply lstrip_char_length|].
  rewrite string_rev_length. apply lstrip_char_length.
Qed.

(** The loop, from any incipit built so far. *)
Lemma incipit_words_spec (words : list string) (incipit : string) :
  exists n,
    (n <= List.length words)%nat /\
    incipit_words incipit words = (incipit ++ spaced (firstn n words))%string /\
    (n < List.length words ->
     30 <= String.length (incipit ++ spaced (firstn (S n) words)))%nat /\
    ((String.length incipit < 30)%nat ->
     (String.length (incipit_words incipit words) < 30)%nat).
Proof.
  revert incipit. induction words as [|w ws IH]; intros incipit.
  - exists 0%nat. cbn [incipit_words firstn spaced List.length].
    rewrite append_nil_r. repeat split; [lia | lia | trivial].
  - cbn [incipit_words].
    destruct (Nat.leb_spec 30 (String.length (incipit ++ w ++ " ")))
      as [Hge|Hlt].
    + exists 0%nat. cbn [firstn spaced List.length]. rewrite append_nil_r.
      repeat split; [lia | | trivial].
      intros _. exact Hge.
    + destruct (IH (incipit ++ w ++ " ")%string) as (n & Hn & E & Hmax & Hlen).
      exists (S n). cbn [List.length]. split; [lia|]. split; [|split].
      * rewrite E. cbn [firstn spaced].
        rewrite !append_assoc. reflexivity.
      * intros Hlt'.
        assert (Hm : (30 <= String.length
                              ((incipit ++ w ++ " ") ++
                               spaced (firstn (S n) ws)))%nat)
          by (apply Hmax; lia).
        cbn [firstn spaced]. cbn [firstn spaced] in Hm.
        rewrite !append_assoc in Hm. exact Hm.
      * intros _. apply Hlen. exact Hlt.
Qed.

(** X9 (ChantCreateView.form_valid, the incipit loop): the incipit is made
    of whole words: it is the first [n] words of the text, each followed
    by a space, for the largest [n] that keeps it under 30 characters.
    When the first word alone has 29 characters or more, that is the
    empty incipit. *)
Theorem incipit_whole_words (words : list string) :
  exists n,
    (n <= List.length words)%nat /\
    incipit_words "" words = spaced (firstn n words) /\
    (String.length (spaced (firstn n words)) < 30)%nat /\
    (n < List.length words ->
     30 <= String.length (spaced (firstn (S n) words)))%nat /\
    (forall word words',
       words = word :: words' -> (29 <= String.length word)%nat ->
       incipit_words "" words = "").
Proof.
  destruct (incipit_words_spec words "") as (n & Hn & E & Hmax & Hlen).
  exists n. split; [exact Hn|]. split; [exact E|]. split; [|split].
  - change (spaced (firstn n words))
      with ("" ++ spaced (firstn n words))%string.
    rewrite <- E. apply Hlen. simpl. lia.
  - exact Hmax.
  - intros word words' -> Hword. cbn [incipit_words].
    replace (30 <=? String.length ("" ++ word ++ " "))%nat with true;
      [reflexivity|].
    symmetry. apply Nat.leb_le.
    change ("" ++ word ++ " ")%string with (word ++ " ")%string.
    rewrite append_length. simpl. lia.
Qed.

Lemma incipit_whole_words_witness :
  incipit_words "" ["Supercalifragilisticexpialidocious"; "amen"] = "".
Proof.
  destruct (incipit_whole_words
              ["Supercalifragilisticexpialidocious"; "amen"])
    as (n & _ & _ & _ & _ & H).
  apply (H "Supercalifragilisticexpialidocious" ["amen"] eq_refl).
  vm_compute. lia.
Defined.

(** What a call that returns has done. *)
Lemma ChantCreateView_form_valid_Ok
  (self_source : Source.t) (user : Z) (form : Form.t) (db : DB)
  (r : response) (db' : DB) :
  ChantCreateView_form_valid self_source user form db = Ok (r, db') ->
  exists text,
    Chant.manuscript_full_text_std_spelling (Form.instance form) = Some text /\
    ((exists form', r = RenderForm form' /\ db' = db) \/
     (r = Redirect (Source.id self_source)
            ("Chant '" ++
             strip_char " " (incipit_words "" (split " " text)) ++
             "' created successfully!") /\
      db' = save db
              (set_users
                 (set_incipit
                    (set_source (Form.instance form)
                       (Some (Source.id self_source)))
                    (Some (strip_char " "
                             (incipit_words "" (split " " text)))))
                 user) /\
      Form.errors form = [] /\
      existsb
        (fun c =>
           option_Z_eq (Chant.source c) (Some (Source.id self_source)) &&
           option_string_eq (Chant.folio c)
             (Chant.folio (Form.instance form)) &&
           option_Z_eq (Chant.c_sequence c)
             (Chant.c_sequence (Form.instance form)))
        (Chant_objects db) = false)).
Proof.
  unfold ChantCreateView_form_valid.
  destruct form as [instance errors]. destruct instance.
  cbn -[append strip_char incipit_words split].
  match goal with
  | |- context [match ?o with Some t => Ok t | None => Raise AttributeError end] =>
      destruct o as [text|]; [|discriminate]
  end.
  cbn -[append strip_char incipit_words split].
  intros H. exists text. split; [reflexivity|].
  match type of H with
  | context [existsb ?f ?l] => destruct (existsb f l) eqn:E
  end.
  - left. unfold is_valid, add_error in H.
    cbn -[append strip_char incipit_words split] in H.
    destruct errors; cbn -[append strip_char incipit_words split] in H;
      injection H as <- <-; eexists; split; reflexivity.
  - unfold is_valid in H.
    cbn -[append strip_char incipit_words split] in H.
    destruct errors as [|e errors];
      cbn -[append strip_char incipit_words split] in H;
      injection H as <- <-.
    + right. split; [reflexivity|]. split; [reflexivity|].
      split; reflexivity.
    + left. eexists. split; reflexivity.
Qed.

Lemma next_id_greater (rows : list Chant.t) (c : Chant.t) :
  In c rows -> Chant.id c < next_id rows.
Proof.
  unfold next_id. induction rows as [|x rows IH]; cbn [fold_right In];
    [intros []|].
  intros [->|H]; [lia|]. specialize (IH H). lia.
Qed.

Lemma NoDup_snoc {A : Type} (l : list A) (x : A) :
  NoDup l -> ~ In x l -> NoDup (l ++ [x]).
Proof.
  intros Hl Hx. apply (Permutation_NoDup (l := x :: l)).
  - apply Permutation_cons_append.
  - constructor; assumption.
Qed.

Lemma duplicate_found (self_source : Source.t) (instance c : Chant.t)
  (db : DB) :
  In c (Chant_objects db) ->
  Chant.source c = Some (Source.id self_source) ->
  position c = position instance ->
  existsb
    (fun c =>
       option_Z_eq (Chant.source c) (Some (Source.id self_source)) &&
       option_string_eq (Chant.folio c) (Chant.folio instance) &&
       option_Z_eq (Chant.c_sequence c) (Chant.c_sequence instance))
    (Chant_objects db) = true.
Proof.
  intros Hc Hs Hpos. apply existsb_exists. exists c. split; [exact Hc|].
  unfold position in Hpos. injection Hpos as Hf Hq. rewrite Hs, Hf, Hq.
  rewrite (proj2 (option_Z_eq_spec _ _) eq_refl),
    (proj2 (option_string_eq_spec _ _) eq_refl),
    (proj2 (option_Z_eq_spec _ _) eq_refl).
  reflexivity.
Qed.

(** X10 (ChantCreateView.form_valid): when the view redirects, the form
    had no error and no chant of the source stood at the submitted folio
    and sequence number, and the view has saved one chant: the submitted
    one, made to belong to the source of the view, with the submitted
    position and text, the user as creator and last updater, and an
    incipit of fewer than 30 characters, the one the success message
    quotes.  What the store does on a save besides inserting the row is
    not part of the statement. *)
Theorem chant_created
  (self_source : Source.t) (user : Z) (form : Form.t) (db : DB)
  (source_id : Z) (message : string) (db' : DB) :
  ChantCreateView_form_valid self_source user form db
  = Ok (Redirect source_id message, db') ->
  source_id = Source.id self_source /\
  Form.errors form = [] /\
  (forall c, In c (chant_set db self_source) ->
             position c <> position (Form.instance form)) /\
  exists instance incipit,
    db' = save db instance /\
    Chant.source instance = Some (Source.id self_source) /\
    position instance = position (Form.instance form) /\
    Chant.manuscript_full_text_std_spelling instance
    = Chant.manuscript_full_text_std_spelling (Form.instance form) /\
    Chant.created_by instance = Some user /\
    Chant.last_updated_by instance = Some user /\
    Chant.incipit instance = Some incipit /\
    (String.length incipit < 30)%nat /\
    message = ("Chant '" ++ incipit ++ "' created successfully!")%string.
Proof.
  intros H. apply ChantCreateView_form_valid_Ok in H.
  destruct H as (text & Htext & [(form' & Hr & _)|(Hr & -> & Herr & Hdup)]);
    [discriminate Hr|].
  injection Hr as -> ->. split; [reflexivity|]. split; [exact Herr|].
  split.
  - intros c Hc Hpos. apply chant_set_In in Hc. destruct Hc as (Hc & Hs).
    rewrite (duplicate_found self_source _ c db Hc Hs Hpos) in Hdup.
    discriminate Hdup.
  - eexists _, (strip_char " " (incipit_words "" (split " " text))).
    split; [reflexivity|].
    destruct form as [instance errors]. destruct instance.
    cbn -[append strip_char incipit_words split] in *.
    repeat (split; [reflexivity|]). split; [|reflexivity].
    eapply Nat.le_lt_trans; [apply strip_char_length|].
    destruct (incipit_words_spec (split " " text) "") as (_ & _ & _ & _ & Hl).
    apply Hl. simpl. lia.
Qed.

Lemma chant_created_witness :
  exists db' instance,
    ChantCreateView_form_valid (Source.mk 10 true (Some 4063) (Some "A-B")) 7
      new_chant_form scenario_db
    = Ok (Redirect 10 "Chant 'Alleluia dulce carmen vox' created successfully!",
          db') /\
    db' = save scenario_db instance /\
    Chant.source instance = Some 10 /\
    position instance = position (Form.instance new_chant_form) /\
    Chant.created_by instance = Some 7 /\
    Chant.last_updated_by instance = Some 7.
Proof.
  destruct (ChantCreateView_form_valid
              (Source.mk 10 true (Some 4063) (Some "A-B")) 7
              new_chant_form scenario_db) as [[[sid message|form'] db']|e] eqn:E;
    try (vm_compute in E; discriminate E).
  pose proof (chant_created _ _ _ _ _ _ _ E)
    as (-> & _ & _ & instance & incipit & Hdb & Hs & Hp & _ & Hc & Hu & _).
  exists db', instance.
  split; [|split; [exact Hdb|split; [exact Hs|split;
                   [exact Hp|split; [exact Hc|exact Hu]]]]].
  vm_compute in E. injection E as <- _. reflexivity.
Defined.

Lemma chant_set_save (db : DB) (instance : Chant.t) (source : Source.t) :
  chant_set (save db instance) source
  = (chant_set db source ++
     (if option_Z_eqb (Chant.source instance) (Source.id source)
      then [set_id instance (next_id (Chant_objects db))] else []))%list.
Proof.
  unfold chant_set, save. cbn [Chant_objects]. rewrite filter_app.
  cbn [filter]. destruct instance; reflexivity.
Qed.

(** X11 (ChantCreateView.form_valid): creating chants keeps the positions
    within a source distinct.  When no two chants of a source stand at
    the same folio and sequence number before the call, none do after
    it, whether the view has saved the chant or re-rendered the form. *)
Theorem create_keeps_positions_distinct
  (self_source : Source.t) (user : Z) (form : Form.t) (db : DB)
  (r : response) (db' : DB) (source : Source.t) :
  ChantCreateView_form_valid self_source user form db = Ok (r, db') ->
  NoDup (map position (chant_set db source)) ->
  NoDup (map position (chant_set db' source)).
Proof.
  intros H Hnd. apply ChantCreateView_form_valid_Ok in H.
  destruct H as (text & Htext & [(form' & _ & ->)|(_ & -> & _ & Hdup)]);
    [exact Hnd|].
  rewrite chant_set_save.
  destruct (option_Z_eqb _ (Source.id source)) eqn:Es;
    [|rewrite app_nil_r; exact Hnd].
  rewrite map_app. cbn [map]. apply NoDup_snoc; [exact Hnd|].
  intros Hin. apply in_map_iff in Hin. destruct Hin as (c & Hpos & Hc).
  apply chant_set_In in Hc. destruct Hc as (Hc & Hs).
  assert (Hid : Source.id source = Source.id self_source).
  { destruct form as [instance errors]. destruct instance.
    cbn in Es. apply Z.eqb_eq in Es. congruence. }
  assert (Hp : position c = position (Form.instance form)).
  { rewrite Hpos. destruct form as [instance errors]. destruct instance.
    reflexivity. }
  rewrite Hid in Hs.
  rewrite (duplicate_found self_source _ c db Hc Hs Hp) in Hdup.
  discriminate Hdup.
Qed.

Lemma create_keeps_positions_distinct_witness :
  exists r db',
    ChantCreateView_form_valid (Source.mk 10 true (Some 4063) (Some "A-B")) 7
      new_chant_form scenario_db = Ok (r, db') /\
    NoDup (map position
             (chant_set db' (Source.mk 10 true (Some 4063) (Some "A-B")))).
Proof.
  destruct (ChantCreateView_form_valid
              (Source.mk 10 true (Some 4063) (Some "A-B")) 7
              new_chant_form scenario_db) as [[r db']|e] eqn:E;
    [|vm_compute in E; discriminate E].
  exists r, db'. split; [reflexivity|].
  apply (create_keeps_positions_distinct _ _ _ _ _ _
           (Source.mk 10 true (Some 4063) (Some "A-B")) E).
  vm_compute. repeat constructor; simpl; intuition discriminate.
Defined.

(* ------------------------------------------------------------------ *)
(** ** The global search bar *)

Lemma ChantSearchView_order_by_Ok (GET : QueryDict) (db : DB)
  (rows : list Chant.t) :
  exists ks,
    order_by db [ChantSearchView_order GET; "id"] rows
    = Ok (sort (leb_keys ks) rows).
Proof.
  destruct (ChantSearchView_order_spec GET) as (name & col & Hcol & Ho & _).
  rewrite Ho. unfold order_by.
  rewrite (order_terms_with_id db name col _ Hcol). eexists. reflexivity.
Qed.

(** X12 (ChantSearchView.get_queryset, search bar branch): a request with
    a search_bar term always gets a result, whatever the other parameters
    hold, a genre that is no number included.  A term with a digit in it
    selects the visible records whose Cantus ID contains the term; a term
    without digit selects the visible records of which the manuscript
    text, the standardized text or the incipit starts with the term;
    letter case is ignored in both. *)
Theorem search_bar_results
  (auth : bool) (GET : QueryDict) (db : DB) (term : string) :
  param GET "search_bar" = Some term ->
  exists l,
    ChantSearchView_get_queryset auth GET db = Ok l /\
    forall c,
      In c l <->
      In c (visible auth db) /\
      if existsb isdigit (list_ascii_of_string term)
      then isubstring term (Chant.cantus_id c)
      else iprefix term (Chant.manuscript_full_text c) \/
           iprefix term (Chant.manuscript_full_text_std_spelling c) \/
           iprefix term (Chant.incipit c).
Proof.
  intros Hsb. unfold ChantSearchView_get_queryset.
  rewrite (QueryDict_get_nonempty GET "search_bar" term
             (param_QueryDict_get _ _ _ Hsb)), Hsb.
  destruct (existsb isdigit (list_ascii_of_string term)).
  - unfold QuerySet_filter. cbn [resolve bind]. unfold union_all.
    match goal with
    | |- context [order_by db _ ?rows] =>
        destruct (ChantSearchView_order_by_Ok GET db rows) as (ks & ->)
    end.
    eexists. split; [reflexivity|]. intros c.
    rewrite sort_In, (filter_visible auth db _ c).
    cbn [andb]. rewrite lookup_icontains_spec. tauto.
  - unfold QuerySet_filter. cbn [resolve bind]. unfold union_all.
    match goal with
    | |- context [order_by db _ ?rows] =>
        destruct (ChantSearchView_order_by_Ok GET db rows) as (ks & ->)
    end.
    eexists. split; [reflexivity|]. intros c.
    rewrite sort_In, (filter_visible auth db _ c).
    rewrite !orb_true_iff, !lookup_istartswith_spec. tauto.
Qed.

Lemma search_bar_results_witness :
  exists l,
    ChantSearchView_get_queryset false
      [("search_bar", "alle"); ("genre", "x")] example_db = Ok l /\
    In chant_1 l.
Proof.
  destruct (search_bar_results false [("search_bar", "alle"); ("genre", "x")]
              example_db "alle" eq_refl) as (l & Hl & Hin).
  exists l. split; [exact Hl|]. apply Hin. split.
  - vm_compute. left. reflexivity.
  - cbn. right. right. exists "Alleluia dulce", "LUIA DULCE".
    split; reflexivity.
Defined.

(* ------------------------------------------------------------------ *)
(** ** Records by Cantus ID *)

(** X13 (ChantByCantusIDView.get_queryset): the listing always returns.
    It holds the visible records whose Cantus ID is exactly the one
    asked for, letter case included, and no record twice. *)
Theorem by_cantus_id_exact
  (auth : bool) (cantus_id : string) (db : DB) :
  exists l,
    ChantByCantusIDView_get_queryset auth cantus_id db = Ok l /\
    NoDup l /\
    forall c,
      In c l <->
      In c (visible auth db) /\ Chant.cantus_id c = Some cantus_id.
Proof.
  unfold ChantByCantusIDView_get_queryset, order_by.
  change (order_terms db ["source__holding_institution__siglum"])
    with (Some [(false, institution_siglum db)]).
  eexists. split; [reflexivity|]. split.
  - apply NoDup_sort. unfold union. apply NoDup_nodup.
  - intros c. rewrite sort_In. unfold union. rewrite nodup_In, in_app_iff.
    unfold visible.
    destruct auth; cbn [negb]; rewrite ?in_app_iff, !filter_In,
      ?filter_In, !option_string_eqb_eq; tauto.
Qed.

(* ------------------------------------------------------------------ *)
(** ** The per-source search of a source that does not exist *)

Lemma ChantSearchMSView_q_obj_filter_genre (GET : QueryDict) :
  match param GET "genre" with
  | Some v =>
      match int v with
      | Ok _ => exists q, ChantSearchMSView_q_obj_filter GET = Ok q
      | Raise e => ChantSearchMSView_q_obj_filter GET = Raise e
      end
  | None => exists q, ChantSearchMSView_q_obj_filter GET = Ok q
  end.
Proof.
  unfold ChantSearchMSView_q_obj_filter.
  destruct (param GET "genre") as [v|].
  - destruct (int v) as [n|e]; cbn [bind]; [eexists|]; reflexivity.
  - cbn [bind]. eexists. reflexivity.
Qed.

Lemma Paginator_page_Raise {A : Type} (per_page : nat) (rows : list A)
  (number : Z) (e : exn) :
  Paginator_page per_page rows number = Raise e -> e = Http404.
Proof.
  unfold Paginator_page.
  destruct (number <? 1); [intros [= <-]; reflexivity|].
  destruct (Z.of_nat (num_pages per_page (List.length rows)) <? number);
    [intros [= <-]; reflexivity|discriminate].
Qed.

Lemma paginate_queryset_Raise {A : Type} (GET : QueryDict) (rows : list A)
  (e : exn) :
  paginate_queryset GET rows = Raise e -> e = Http404.
Proof.
  unfold paginate_queryset.
  destruct (param GET "page") as [page|];
    [|apply Paginator_page_Raise].
  destruct (int page) as [n|e']; [apply Paginator_page_Raise|].
  destruct (String.eqb page "last"); [apply Paginator_page_Raise|].
  intros [= <-]. reflexivity.
Qed.

(** X14 (ChantSearchMSView, get_queryset then get_context_data): the
    per-source search of a source id without source never gives a page.
    Without parameters the answer is the 404 of [get_object_or_404], and
    so it is for source 680970 asked with melodies=true, where
    [get_queryset] returns the empty queryset before it looks for the
    source (the 404 is then that of the page or of [get_object_or_404]).
    In every other case [get_queryset] fails first: with ValueError when
    the genre parameter is no number, and with the DoesNotExist of
    [Source.objects.get] otherwise. *)
Theorem per_source_search_missing_source
  (auth : bool) (source_pk : Z) (path : string) (GET : QueryDict) (db : DB) :
  Source_find db source_pk = None ->
  exists e,
    ChantSearchMSView_get auth source_pk path GET db = Raise e /\
    (QueryDict_empty GET = true \/ excluded source_pk GET -> e = Http404) /\
    (QueryDict_empty GET = false -> ~ excluded source_pk GET ->
     (e = DoesNotExist /\
      when_given (param GET "genre") (fun v => exists n, int v = Ok n)) \/
     (e = ValueError /\
      exists v, param GET "genre" = Some v /\ int v = Raise ValueError)).
Proof.
  intros Hs. unfold ChantSearchMSView_get, ChantSearchMSView_get_queryset.
  destruct (QueryDict_empty GET) eqn:Hne.
  - cbn [bind]. unfold ChantSearchMSView_get_context_data.
    destruct GET; [|discriminate Hne]. cbn. rewrite Hs. cbn.
    exists Http404. split; [reflexivity|]. split; [reflexivity|discriminate].
  - destruct (match QueryDict_get GET "melodies" with
              | Some m => String.eqb m "true"
              | None => false
              end && (source_pk =? 680970)) eqn:Hex.
    + cbn [bind]. unfold ChantSearchMSView_get_context_data.
      assert (Hexc : excluded source_pk GET).
      { unfold excluded. apply andb_true_iff in Hex. destruct Hex as (Hm & Hp).
        destruct (QueryDict_get GET "melodies") as [m|]; [|discriminate].
        apply String.eqb_eq in Hm. apply Z.eqb_eq in Hp. subst. auto. }
      destruct (paginate_queryset GET []) as [page|e] eqn:Hp; cbn [bind].
      * rewrite Hs. cbn [bind]. exists Http404.
        split; [reflexivity|]. split; [reflexivity|].
        intros _ Hn. contradiction.
      * exists e. split; [reflexivity|].
        split; [intros _; exact (paginate_queryset_Raise _ _ _ Hp)|].
        intros _ Hn. contradiction.
    + assert (Hnexc : ~ excluded source_pk GET).
      { unfold excluded. intros (Hm & Hp). rewrite Hm, Hp in Hex.
        discriminate Hex. }
      pose proof (ChantSearchMSView_q_obj_filter_genre GET) as Hq.
      unfold when_given.
      destruct (param GET "genre") as [v|] eqn:Hg.
      * destruct (int v) as [n|e] eqn:Hi.
        -- destruct Hq as (q & ->). cbn [bind]. rewrite Hs. cbn [bind].
           exists DoesNotExist. split; [reflexivity|].
           split; [intros [[=]|Hx]; contradiction|]. intros _ _. left.
           split; [reflexivity|]. intros v' [= <-]. exists n. exact Hi.
        -- rewrite Hq. cbn [bind]. exists e. split; [reflexivity|].
           split; [intros [[=]|Hx]; contradiction|]. intros _ _. right.
           pose proof (int_Raise _ _ Hi) as ->.
           split; [reflexivity|]. exists v. auto.
      * destruct Hq as (q & ->). cbn [bind]. rewrite Hs. cbn [bind].
        exists DoesNotExist. split; [reflexivity|].
        split; [intros [[=]|Hx]; contradiction|]. intros _ _. left.
        split; [reflexivity|]. intros v' [=].
Qed.

Lemma per_source_search_missing_source_witness :
  ChantSearchMSView_get false 99 "/chant-search-ms/99" [] example_db
  = Raise Http404 /\
  ChantSearchMSView_get false 99 "/chant-search-ms/99" [("genre", "")]
    example_db
  = Raise DoesNotExist /\
  ChantSearchMSView_get false 680970 "/chant-search-ms/680970"
    [("melodies", "true")] example_db
  = Raise Http404.
Proof.
  split; [|split].
  - destruct (per_source_search_missing_source false 99 "/chant-search-ms/99"
                [] example_db eq_refl) as (e & -> & H & _).
    rewrite (H (or_introl eq_refl)). reflexivity.
  - destruct (per_source_search_missing_source false 99 "/chant-search-ms/99"
                [("genre", "")] example_db eq_refl) as (e & He & _).
    rewrite He. vm_compute in He. injection He as <-. reflexivity.
  - destruct (per_source_search_missing_source false 680970
                "/chant-search-ms/680970" [("melodies", "true")] example_db
                eq_refl) as (e & -> & H & _).
    rewrite (H (or_intror (conj eq_refl eq_refl))). reflexivity.
Defined.

(* ------------------------------------------------------------------ *)
(** ** SourceEditChantsView: a selection without chants *)

Lemma get_feast_selector_options_Ok (db : DB) (source : Source.t) :
  exists options, get_feast_selector_options db source = Ok options.
Proof. eexists. reflexivity. Qed.

Lemma filter_nil_forall {A : Type} (p : A -> bool) (l : list A) :
  (forall x, In x l -> p x = false) -> filter p l = [].
Proof.
  intros H. induction l as [|x l IH]; simpl; [reflexivity|].
  rewrite (H x (or_introl eq_refl)). apply IH.
  intros y Hy. apply H. right. exact Hy.
Qed.

(** X15 (SourceEditChantsView, get_object and get_context_data): on the
    edit page of a source that has chants, a selection that matches none
    of them never gives a page.  A feast parameter naming a feast without
    chant in the source ends in the AttributeError of [chant.volpiano] on
    the None that [get_object] returns; a folio parameter naming a folio
    without chant ends in the 404 of the folio lookup. *)
Theorem edit_page_empty_selection
  (latest : list Chant.t -> Chant.t) (source_id : Z) (GET : QueryDict)
  (db : DB) (source : Source.t) :
  Source_find db source_id = Some source ->
  chant_set db source <> [] ->
  (forall v n,
     param GET "feast" = Some v -> int v = Ok n ->
     (forall c, In c (chant_set db source) -> Chant.feast c <> Some n) ->
     SourceEditChantsView_get latest source_id GET db
     = Raised AttributeError) /\
  (forall folio,
     param GET "feast" = None -> param GET "folio" = Some folio ->
     (forall c, In c (chant_set db source) -> Chant.folio c <> Some folio) ->
     SourceEditChantsView_get latest source_id GET db = Raised Http404).
Proof.
  intros Hs Hne. split.
  - intros v n Hfeast Hint Hnone.
    assert (Hq : SourceEditChantsView_get_queryset source_id GET db = Ok []).
    { unfold SourceEditChantsView_get_queryset. rewrite Hs. cbn [bind].
      destruct (chant_set db source) as [|c0 cs] eqn:Hcs; [contradiction|].
      rewrite Hfeast, Hint. cbn [bind]. f_equal.
      apply filter_nil_forall. intros c Hc.
      destruct (option_Z_eqb (Chant.feast c) n) eqn:E; [|reflexivity].
      apply option_Z_eqb_eq in E. exfalso. apply (Hnone c Hc E). }
    assert (Ho : SourceEditChantsView_get_object latest source_id GET db
                 = Ok None).
    { unfold SourceEditChantsView_get_object. rewrite Hq. reflexivity. }
    unfold SourceEditChantsView_get, SourceEditChantsView_get_context_data.
    rewrite Hs, Ho, Hq. cbn [obind lift].
    destruct (chant_set db source) as [|c0 cs] eqn:Hcs; [contradiction|].
    rewrite distinct_folios_eq.
    destruct (get_feast_selector_options_Ok db source) as (options & ->).
    rewrite Hfeast. cbn [obind lift].
    change (get_chants_with_folios db []) with (Returned (@nil (string * list Chant.t))).
    cbn [obind lift]. reflexivity.
  - intros folio Hfeast Hfolio Hnone.
    assert (Hq : SourceEditChantsView_get_queryset source_id GET db = Ok []).
    { unfold SourceEditChantsView_get_queryset. rewrite Hs. cbn [bind].
      destruct (chant_set db source) as [|c0 cs] eqn:Hcs; [contradiction|].
      rewrite Hfeast, Hfolio. f_equal.
      apply filter_nil_forall. intros c Hc.
      destruct (option_string_eqb (Chant.folio c) folio) eqn:E; [|reflexivity].
      apply option_string_eqb_eq in E. exfalso. apply (Hnone c Hc E). }
    assert (Ho : SourceEditChantsView_get_object latest source_id GET db
                 = Ok None).
    { unfold SourceEditChantsView_get_object. rewrite Hq. reflexivity. }
    unfold SourceEditChantsView_get, SourceEditChantsView_get_context_data.
    rewrite Hs, Ho, Hq. cbn [obind lift].
    destruct (chant_set db source) as [|c0 cs] eqn:Hcs; [contradiction|].
    pose proof (distinct_folios_eq db (c0 :: cs)) as Hf.
    destruct (list_index option_string_eq
                (dict_fromkeys option_string_eq
                   (map Chant.folio
                      (sort (leb_keys
                               [(false,
                                 fun c : Chant.t =>
                                   value_of_string (Chant.folio c))])
                            (c0 :: cs))))
                (Some folio)) as [i|] eqn:Hi.
    + exfalso. apply (list_index_nth _ option_string_eq_spec) in Hi.
      apply nth_error_In in Hi.
      apply (distinct_folios_In _ _ _ _ Hf) in Hi.
      destruct Hi as (c & Hc & Hcf). apply (Hnone c Hc Hcf).
    + rewrite Hf.
      destruct (get_feast_selector_options_Ok db source) as (options & ->).
      rewrite Hfeast, Hfolio. cbn [obind lift]. rewrite Hi.
      cbn [obind lift]. reflexivity.
Qed.

Lemma edit_page_empty_selection_witness :
  SourceEditChantsView_get (fun _ => record_A) 10 [("feast", "7")] scenario_db
  = Raised AttributeError /\
  SourceEditChantsView_get (fun _ => record_A) 10 [("folio", "009v")]
    scenario_db
  = Raised Http404.
Proof.
  split.
  - apply (proj1 (edit_page_empty_selection (fun _ => record_A) 10
                    [("feast", "7")] scenario_db
                    (Source.mk 10 true (Some 4063) (Some "A-B")) eq_refl
                    ltac:(discriminate)) "7" 7 eq_refl eq_refl).
    intros c Hc. vm_compute in Hc.
    destruct Hc as [<-|[<-|[<-|[]]]]; discriminate.
  - apply (proj2 (edit_page_empty_selection (fun _ => record_A) 10
                    [("folio", "009v")] scenario_db
                    (Source.mk 10 true (Some 4063) (Some "A-B")) eq_refl
                    ltac:(discriminate)) "009v" eq_refl eq_refl).
    intros c Hc. vm_compute in Hc.
    destruct Hc as [<-|[<-|[<-|[]]]]; discriminate.
Defined.

(** The folio list of a collection that is not empty starts with the
    folio of a row that no row precedes in folio order. *)
Lemma distinct_folios_first (db : DB) (chants : list Chant.t) :
  chants <> [] ->
  exists x rest,
    In x chants /\
    (forall c, In c chants ->
       leb_keys [(false, fun c : Chant.t => value_of_string (Chant.folio c))]
                x c = true) /\
    distinct_folios db chants = Ok (Chant.folio x :: rest).
Proof.
  intros Hne. rewrite distinct_folios_eq.
  destruct (sort (leb_keys
                    [(false,
                      fun c : Chant.t => value_of_string (Chant.folio c))])
                 chants) as [|x s] eqn:E.
  - apply (f_equal (@List.length Chant.t)) in E. rewrite sort_length in E.
    destruct chants; [contradiction | discriminate E].
  - destruct (dict_fromkeys_hd option_string_eq (Chant.folio x)
                (map Chant.folio s)) as (rest & Hrest).
    exists x, rest. split; [|split].
    + apply (sort_In (leb_keys
                [(false,
                  fun c : Chant.t => value_of_string (Chant.folio c))])).
      rewrite E. left. reflexivity.
    + apply (sort_head_least _ _ _ _ E).
    + cbn [map]. rewrite Hrest. reflexivity.
Qed.

(** X18 (SourceEditChantsView, get_queryset, get_object and
    get_context_data): the edit page of a source with chants, asked for
    without feast, folio and pk parameter, is built without error when
    [latest] names a chant of the queryset.  The first folio is selected:
    no chant of the source stands on a folio before it; it is announced
    as the initial folio, it has no previous folio, and the chant shown
    is a chant of the source on that folio. *)
Theorem edit_page_default
  (latest : list Chant.t -> Chant.t) (source_id : Z) (GET : QueryDict)
  (db : DB) (source : Source.t) :
  Source_find db source_id = Some source ->
  chant_set db source <> [] ->
  param GET "feast" = None ->
  param GET "folio" = None ->
  param GET "pk" = None ->
  (forall l, l <> [] -> In (latest l) l) ->
  exists context chant first_folio,
    SourceEditChantsView_get latest source_id GET db = Returned context /\
    EditContext.chant context = Some chant /\
    In chant (chant_set db source) /\
    Chant.folio chant = first_folio /\
    EditContext.initial_GET_folio context = Some first_folio /\
    EditContext.previous_folio context = None /\
    EditContext.pk_specified context = Some false /\
    forall c, In c (chant_set db source) ->
      compare_value (value_of_string first_folio)
                    (value_of_string (Chant.folio c)) <> Gt.
Proof.
  intros Hs Hne Hfeast Hfolio Hpk Hlatest.
  destruct (distinct_folios_first db (chant_set db source) Hne)
    as (x & rest & Hx & Hleast & Hf).
  set (queryset :=
         filter (fun c => option_string_eq (Chant.folio c) (Chant.folio x))
                (chant_set db source)).
  assert (Hxq : In x queryset).
  { apply filter_In. split; [exact Hx | apply option_string_eq_refl]. }
  assert (Hq : SourceEditChantsView_get_queryset source_id GET db
               = Ok queryset).
  { unfold SourceEditChantsView_get_queryset. rewrite Hs. cbn [bind].
    destruct (chant_set db source) as [|c0 cs] eqn:Hcs; [contradiction|].
    rewrite Hfeast, Hfolio, Hf. reflexivity. }
  assert (Hqne : queryset <> []).
  { intros E. rewrite E in Hxq. destruct Hxq. }
  assert (Ho : exists chant,
             SourceEditChantsView_get_object latest source_id GET db
             = Ok (Some chant) /\ In chant queryset).
  { unfold SourceEditChantsView_get_object. rewrite Hq. cbn [bind].
    destruct queryset as [|c1 q'] eqn:Eq; [contradiction|].
    rewrite Hpk. cbn [bind].
    destruct (find (fun c => Chant.id c =? Chant.id (latest (c1 :: q')))
                   (c1 :: q')) as [c|] eqn:Efind.
    - exists c. split; [reflexivity|]. apply find_some in Efind. apply Efind.
    - exfalso.
      pose proof (find_none _ _ Efind (latest (c1 :: q'))
                    (Hlatest (c1 :: q') Hqne)) as Hn.
      cbv beta in Hn. rewrite Z.eqb_refl in Hn. discriminate Hn. }
  destruct Ho as (chant & Ho & Hchant).
  apply filter_In in Hchant. destruct Hchant as (Hcs & Hcf).
  apply option_string_eq_spec in Hcf.
  unfold SourceEditChantsView_get, SourceEditChantsView_get_context_data.
  rewrite Hs, Ho, Hq. cbn [obind lift].
  destruct (chant_set db source) as [|c0 cs] eqn:Hcset; [contradiction|].
  rewrite Hf.
  destruct (get_feast_selector_options_Ok db source) as (options & ->).
  rewrite Hfeast, Hfolio. cbn [obind lift list_index].
  rewrite option_string_eq_refl. cbn [obind lift].
  unfold order_by.
  change (order_terms db ["c_sequence"])
    with (Some [(false, fun c : Chant.t => value_of_Z (Chant.c_sequence c))]).
  cbn [obind lift]. rewrite Hpk.
  eexists _, chant, (Chant.folio x). split; [reflexivity|].
  cbn [EditContext.chant EditContext.initial_GET_folio
       EditContext.previous_folio EditContext.pk_specified].
  split; [reflexivity|]. split; [exact Hcs|]. split; [exact Hcf|].
  split; [reflexivity|]. split; [reflexivity|]. split; [reflexivity|].
  intros c Hc Hgt. specialize (Hleast c Hc).
  unfold leb_keys in Hleast. cbn [compare_keys compare_key] in Hleast.
  rewrite Hgt in Hleast. discriminate Hleast.
Qed.

Lemma edit_page_default_witness :
  exists context,
    SourceEditChantsView_get (fun l => hd record_A l) 10 [] scenario_db
    = Returned context /\
    EditContext.initial_GET_folio context = Some (Some "001r") /\
    EditContext.chant context = Some record_A.
Proof.
  destruct (edit_page_default (fun l => hd record_A l) 10 [] scenario_db
              (Source.mk 10 true (Some 4063) (Some "A-B")) eq_refl
              ltac:(discriminate) eq_refl eq_refl eq_refl)
    as (context & chant & first_folio & H & _).
  - intros [|c l] Hl; [contradiction | left; reflexivity].
  - exists context. split; [exact H|].
    vm_compute in H. injection H as <-. split; reflexivity.
Defined.

(* ------------------------------------------------------------------ *)
(** ** Parameters that are not read *)

(** X16 (ChantSearchMSView.get_queryset): the per-source search does not
    read the position parameter, which its page url carries all the same:
    added to a request with parameters it changes neither the records
    returned nor their order, nor the error. *)
Theorem per_source_search_ignores_position
  (source_pk : Z) (GET : QueryDict) (db : DB) (position : string) :
  QueryDict_empty GET = false ->
  ChantSearchMSView_get_queryset source_pk
    (GET ++ [("position", position)])%list db
  = ChantSearchMSView_get_queryset source_pk GET db.
Proof.
  intros Hne.
  unfold ChantSearchMSView_get_queryset, ChantSearchMSView_q_obj_filter,
    ChantSearchMSView_order, param.
  rewrite !QueryDict_empty_app, Hne, !QueryDict_get_app.
  cbn [String.eqb Ascii.eqb Bool.eqb]. reflexivity.
Qed.

Lemma per_source_search_ignores_position_witness :
  ChantSearchMSView_get_queryset 10
    ([("genre", "")] ++ [("position", "1")])%list scenario_db
  = ChantSearchMSView_get_queryset 10 [("genre", "")] scenario_db.
Proof.
  apply (per_source_search_ignores_position 10 [("genre", "")] scenario_db "1").
  reflexivity.
Defined.

(** X17 (ChantSearchView.get_context_data): the url with the search
    parameters leaves the ordering out: appending order, sort and page
    parameters to a request does not change it, so a click on a column
    heading starts from the same url whatever the current ordering. *)
Theorem search_url_drops_ordering
  (path : string) (GET : QueryDict) (order sort page : string) :
  ChantSearchView_url_with_search_params path
    (((GET ++ [("order", order)]) ++ [("sort", sort)]) ++ [("page", page)])%list
  = ChantSearchView_url_with_search_params path GET.
Proof.
  unfold ChantSearchView_url_with_search_params, param.
  cbn [flat_map]. rewrite !QueryDict_get_app.
  cbn [String.eqb Ascii.eqb Bool.eqb]. reflexivity.
Qed.
